(** * foam: snapshot and restore of folder trees  (src/foam/cli.py)

    A shallow embedding of the [track] / [reset] / [list] / [undo] engine of
    foam, together with the path mapping between original absolute paths and
    their place in the backup store.

    Layout of the development
    - [PathMapper]: the anchor handling of [track] (lines 74-85) and its
      inverse in [reset] / [list_tracked_folders] (lines 127-132, 202-207),
      for both platform branches, on strings.
    - a filesystem model (a tree of files, symbolic links and directories)
      with the [os] / [pathlib] / [shutil] calls the program makes;
    - the engine itself on the single-root (POSIX) branch of the code;
    - the properties. *)

From Stdlib Require Import List String Ascii ZArith Lia Bool Arith.
Import ListNotations.
Local Open Scope string_scope.
Local Open Scope list_scope.

Set Warnings "-register-all".

(* ================================================================== *)
(** ** Filesystem objects *)

Abbreviation name := string.

(** An absolute path on a single-root platform: the components below [/]. *)
Abbreviation path := (list name).

Definition path_eq_dec : forall p q : path, {p = q} + {p <> q} :=
  list_eq_dec string_dec.

(** A filesystem object.  Regular files carry their bytes, their permission
    bits and their modification time (what [shutil.copy2] transports);
    a symbolic link carries the text it points to, kept as a list of
    components (none of them [.] or [..]) with a flag telling whether it is
    absolute, a relative text being read from the directory that holds the
    link; a directory carries its permission bits and its entries in listing
    order. *)
Inductive node : Type :=
| File (data : string) (mode : Z) (mtime : Z)
| Link (absolute : bool) (target : path)
| Dir (mode : Z) (entries : list (name * node)).

Definition is_Dir (n : node) : bool :=
  match n with Dir _ _ => true | _ => false end.
Definition is_File (n : node) : bool :=
  match n with File _ _ _ => true | _ => false end.
Definition is_Link (n : node) : bool :=
  match n with Link _ _ => true | _ => false end.

(** *** Directory entries *)

Fixpoint assoc (k : name) (es : list (name * node)) : option node :=
  match es with
  | [] => None
  | (k', c) :: r => if String.eqb k k' then Some c else assoc k r
  end.

(** Replace the entry [k] where it stands, or append it at the end of the
    listing when it is new. *)
Fixpoint set_child (k : name) (v : node) (es : list (name * node))
  : list (name * node) :=
  match es with
  | [] => [(k, v)]
  | (k', c) :: r =>
      if String.eqb k k' then (k', v) :: r else (k', c) :: set_child k v r
  end.

(** Names are unique in a directory; removal drops the name wherever the
    listing has it. *)
Fixpoint del_child (k : name) (es : list (name * node))
  : list (name * node) :=
  match es with
  | [] => []
  | (k', c) :: r =>
      if String.eqb k k' then del_child k r else (k', c) :: del_child k r
  end.

(** *** Access by a path made of real directories only (no link followed) *)

Fixpoint get (n : node) (p : path) : option node :=
  match p with
  | [] => Some n
  | k :: p' =>
      match n with
      | Dir _ es =>
          match assoc k es with
          | Some c => get c p'
          | None => None
          end
      | _ => None
      end
  end.

(** [set_at n p v]: put [v] at [p]; every proper prefix of [p] has to be a
    directory already.  [None] when it is not. *)
Fixpoint set_at (n : node) (p : path) (v : node) : option node :=
  match p with
  | [] => Some v
  | k :: p' =>
      match n with
      | Dir m es =>
          match p' with
          | [] => Some (Dir m (set_child k v es))
          | _ =>
              match assoc k es with
              | Some c =>
                  match set_at c p' v with
                  | Some c' => Some (Dir m (set_child k c' es))
                  | None => None
                  end
              | None => None
              end
          end
      | _ => None
      end
  end.

(** [del_at n p]: drop the entry at [p] with everything below it. *)
Fixpoint del_at (n : node) (p : path) : option node :=
  match p with
  | [] => None
  | k :: p' =>
      match n with
      | Dir m es =>
          match p' with
          | [] =>
              match assoc k es with
              | Some _ => Some (Dir m (del_child k es))
              | None => None
              end
          | _ =>
              match assoc k es with
              | Some c =>
                  match del_at c p' with
                  | Some c' => Some (Dir m (set_child k c' es))
                  | None => None
                  end
              | None => None
              end
          end
      | _ => None
      end
  end.

(* ================================================================== *)
(** ** Path resolution *)

(** The kernel gives up after this many symbolic links (ELOOP). *)
Definition MAXSYMLINKS : nat := 40.

(** [walk fuel fs last_may_miss cur rest]: resolve [rest] from the real
    directory [cur], following every symbolic link met, the last one
    included.  With [last_may_miss] the last component may be absent (the
    place where [open(..., 'w')] would create a file); without it the
    result names an existing object. *)
Fixpoint walk (fuel : nat) (fs : node) (last_may_miss : bool)
         (cur rest : path) {struct fuel} : option path :=
  match fuel with
  | O => None
  | S fuel' =>
      (fix go (cur rest : path) {struct rest} : option path :=
         match rest with
         | [] => Some cur
         | c :: rest' =>
             match get fs (cur ++ [c]) with
             | None =>
                 match rest' with
                 | [] => if last_may_miss
                         then (if is_Dir (match get fs cur with
                                          | Some d => d
                                          | None => File "" 0 0
                                          end)
                               then Some (cur ++ [c]) else None)
                         else None
                 | _ => None
                 end
             | Some (Dir _ _) => go (cur ++ [c]) rest'
             | Some (File _ _ _) =>
                 match rest' with
                 | [] => Some (cur ++ [c])
                 | _ => None
                 end
             | Some (Link a t) =>
                 walk fuel' fs last_may_miss
                      (if a then [] else cur) (t ++ rest')
             end
         end) cur rest
  end.

(** [os.path.realpath] of an existing object. *)
Definition realpath (fs : node) (p : path) : option path :=
  walk (S MAXSYMLINKS) fs false [] p.

(** Where a final component named by [p] lives: the parent is resolved
    through links, the last component is taken as it is. *)
Definition canon (fs : node) (p : path) : option path :=
  match p with
  | [] => Some []
  | _ =>
      match realpath fs (removelast p) with
      | Some d =>
          match get fs d with
          | Some (Dir _ _) => Some (d ++ [last p ""])
          | _ => None
          end
      | None => None
      end
  end.

(** [os.lstat]: the object itself, a link not followed. *)
Definition lstat (fs : node) (p : path) : option node :=
  match canon fs p with
  | Some q => get fs q
  | None => None
  end.

(** [os.stat]: the object after every link. *)
Definition stat (fs : node) (p : path) : option node :=
  match realpath fs p with
  | Some q => get fs q
  | None => None
  end.

(** [Path.exists], [Path.is_dir], [Path.is_file] follow links;
    [Path.is_symlink] does not. *)
Definition exists_ (fs : node) (p : path) : bool :=
  match stat fs p with Some _ => true | None => false end.
Definition is_dir (fs : node) (p : path) : bool :=
  match stat fs p with Some (Dir _ _) => true | _ => false end.
Definition is_file (fs : node) (p : path) : bool :=
  match stat fs p with Some (File _ _ _) => true | _ => false end.
Definition is_symlink (fs : node) (p : path) : bool :=
  match lstat fs p with Some (Link _ _) => true | _ => false end.

(* ================================================================== *)
(** ** PathMapper: anchors as folder names *)

Module PathMapper.

Inductive platform := Posix | Windows.

(** A pure path as [pathlib] holds it: the anchor (drive and root) and the
    components after it. *)
Record ppath := mk_ppath { anchor : string; parts : list string }.

Definition ppath_eq_dec : forall a b : ppath, {a = b} + {a <> b}.
Proof. decide equality; [apply (list_eq_dec string_dec) | apply string_dec]. Defined.

Definition backslash : ascii := Ascii.ascii_of_nat 92.
Definition slash : ascii := Ascii.ascii_of_nat 47.
Definition colon : ascii := Ascii.ascii_of_nat 58.

Definition mem_ascii (c : ascii) (cs : list ascii) : bool :=
  existsb (Ascii.eqb c) cs.

(** [str.rstrip(chars)]: drop the longest suffix made of [chars]. *)
Fixpoint rstrip (chars : list ascii) (s : string) : string :=
  match s with
  | EmptyString => EmptyString
  | String c r =>
      match rstrip chars r with
      | EmptyString => if mem_ascii c chars then EmptyString
                       else String c EmptyString
      | r' => String c r'
      end
  end.

(** Lines 80-83: the anchor as a folder name. *)
Definition anchor_segment (pl : platform) (a : string) : string :=
  match pl with
  | Windows => rstrip [colon; backslash] a
  | Posix => rstrip [slash] a
  end.

Definition is_sep (pl : platform) (c : ascii) : bool :=
  match pl with
  | Windows => Ascii.eqb c backslash || Ascii.eqb c slash
  | Posix => Ascii.eqb c slash
  end.

Fixpoint string_exists (f : ascii -> bool) (s : string) : bool :=
  match s with
  | EmptyString => false
  | String c r => f c || string_exists f r
  end.

(** What [base / seg] does with one textual segment.  An empty segment is
    dropped; a segment without separator (and, on Windows, without colon)
    is one more component; a segment that starts with a separator is
    anchored itself and replaces [base] (on Windows the text produced by
    stripping a UNC anchor, [\\server\share], is a drive of its own).
    Other texts are not produced by line 85 and are left out ([None]). *)
Definition join_segment (pl : platform) (base : ppath) (seg : string)
  : option ppath :=
  match seg with
  | EmptyString => Some base
  | String c _ =>
      if is_sep pl c then
        Some (mk_ppath (seg ++ String (match pl with
                                       | Windows => backslash
                                       | Posix => slash end) EmptyString) [])
      else if string_exists (fun x => is_sep pl x ||
                               match pl with
                               | Windows => Ascii.eqb x colon
                               | Posix => false end) seg
      then None
      else Some (mk_ppath (anchor base) (parts base ++ [seg]))
  end.

Definition join_parts (base : ppath) (rel : list string) : ppath :=
  mk_ppath (anchor base) (parts base ++ rel).

Fixpoint strip_prefix (pre l : list string) : option (list string) :=
  match pre, l with
  | [], _ => Some l
  | x :: pre', y :: l' => if String.eqb x y then strip_prefix pre' l' else None
  | _ :: _, [] => None
  end.

(** [p.relative_to(base)]; [None] stands for the [ValueError]. *)
Definition relative_to (base p : ppath) : option (list string) :=
  if String.eqb (anchor base) (anchor p)
  then strip_prefix (parts base) (parts p) else None.

(** Lines 74-85 of [track]: [dest = BACKUP_DIR / anchor / relative_path]. *)
Definition toBackupPath (pl : platform) (store p : ppath) : option ppath :=
  match join_segment pl store (anchor_segment pl (anchor p)) with
  | Some b => Some (join_parts b (parts p))
  | None => None
  end.

(** Lines 127-132 of [reset] (and 202-207 of [list_tracked_folders]). *)
Definition toOriginalPath (pl : platform) (store b : ppath) : option ppath :=
  match relative_to store b with
  | None => None
  | Some rel =>
      match pl with
      | Windows =>
          match rel with
          | [] => None
          | d :: r =>
              Some (mk_ppath (d ++ String colon (String backslash EmptyString)) r)
          end
      | Posix => Some (mk_ppath (String slash EmptyString) rel)
      end
  end.

Definition roundtrip (pl : platform) (store p : ppath) : option ppath :=
  match toBackupPath pl store p with
  | Some b => toOriginalPath pl store b
  | None => None
  end.

(** A drive letter anchor [X:\]. *)
Definition drive_anchor (d : string) : string :=
  d ++ String colon (String backslash EmptyString).

(** A text usable as one folder name on Windows. *)
Definition plain_segment (s : string) : bool :=
  negb (String.eqb s "") &&
  negb (string_exists (fun x => is_sep Windows x || Ascii.eqb x colon) s).

(** The anchors the mapping is made for: the root of a single-root
    platform, and a drive [X:\] whose name is usable as a folder name. *)
Inductive mapped_anchor : platform -> string -> Prop :=
| posix_root : mapped_anchor Posix (String slash EmptyString)
| windows_drive d :
    plain_segment d = true -> mapped_anchor Windows (drive_anchor d).

Definition bad_in_segment (x : ascii) : bool :=
  is_sep Windows x || Ascii.eqb x colon.

Definition store_C : ppath :=
  mk_ppath (drive_anchor "C") ["Users"; "u"; ".foam_backup"].

(** A network share: the anchor of [\\srv\share\dir] is [\\srv\share\]. *)
Definition unc_anchor : string :=
  String backslash (String backslash "srv") ++
  String backslash "share" ++ String backslash EmptyString.

End PathMapper.

(* ================================================================== *)
(** ** The [os], [pathlib] and [shutil] calls of the program

    Every call takes the filesystem and gives the new one; [None] stands for
    a raised [OSError].  Permission bits are recorded but not enforced (the
    tool is run by the owner of the trees, and [track] forces the write bit
    where it matters). *)

(** Mode of a directory made by [mkdir] (0o755). *)
Definition DEFAULT_DIR_MODE : Z := 493.

(** Line 41: [stat.S_IWUSR] (0o200). *)
Definition WRITE_PERMISSION : Z := 128.

Fixpoint is_prefix (p q : path) : bool :=
  match p, q with
  | [], _ => true
  | x :: p', y :: q' => String.eqb x y && is_prefix p' q'
  | _ :: _, [] => false
  end.

(** [os.mkdir(p)]: the parent has to exist, [p] must not. *)
Definition os_mkdir (fs : node) (p : path) : option node :=
  match p with
  | [] => None
  | _ =>
      match canon fs p with
      | Some q =>
          match get fs q with
          | None => set_at fs q (Dir DEFAULT_DIR_MODE [])
          | Some _ => None
          end
      | None => None
      end
  end.

(** [Path.mkdir(parents=True, exist_ok=True)], prefix after prefix: an
    existing directory (also behind a link) is kept, anything else in the
    way raises, a missing component is made. *)
Fixpoint mkdir_from (fs : node) (done todo : path) : option node :=
  match todo with
  | [] => Some fs
  | k :: t =>
      let q := done ++ [k] in
      if is_dir fs q then mkdir_from fs q t
      else match lstat fs q with
           | Some _ => None
           | None =>
               match os_mkdir fs q with
               | Some fs' => mkdir_from fs' q t
               | None => None
               end
           end
  end.

Definition mkdir_parents (fs : node) (p : path) : option node :=
  mkdir_from fs [] p.

(** [Path.unlink] / [os.remove]: files and links only. *)
Definition unlink (fs : node) (p : path) : option node :=
  match p with
  | [] => None
  | _ =>
      match canon fs p with
      | Some q =>
          match get fs q with
          | Some (File _ _ _) | Some (Link _ _) => del_at fs q
          | _ => None
          end
      | None => None
      end
  end.

(** [shutil.rmtree(p)] without handler: [p] has to be a real directory (it
    refuses a symbolic link). *)
Definition rmtree (fs : node) (p : path) : option node :=
  match p with
  | [] => None
  | _ =>
      match canon fs p with
      | Some q =>
          match get fs q with
          | Some (Dir _ _) => del_at fs q
          | _ => None
          end
      | None => None
      end
  end.

(** [os.chmod(p, m)], through links. *)
Definition set_mode (n : node) (m : Z) : node :=
  match n with
  | File d _ t => File d m t
  | Dir _ es => Dir m es
  | Link a t => Link a t
  end.

Definition node_mode (n : node) : Z :=
  match n with
  | File _ m _ => m
  | Dir m _ => m
  | Link _ _ => 511
  end.

Definition chmod (fs : node) (p : path) (m : Z) : option node :=
  match realpath fs p with
  | Some q =>
      match get fs q with
      | Some n => set_at fs q (set_mode n m)
      | None => None
      end
  | None => None
  end.

(** [os.symlink(target, p)]: [p] must not exist, not even as a link. *)
Definition os_symlink (fs : node) (a : bool) (t : path) (p : path)
  : option node :=
  match p with
  | [] => None
  | _ =>
      match canon fs p with
      | Some q =>
          match get fs q with
          | None => set_at fs q (Link a t)
          | Some _ => None
          end
      | None => None
      end
  end.

(** [os.readlink]. *)
Definition readlink (fs : node) (p : path) : option (bool * path) :=
  match lstat fs p with
  | Some (Link a t) => Some (a, t)
  | _ => None
  end.

(** [shutil.copy2(src, dst)] with links followed on both sides: the source
    has to be a regular file; a directory as destination receives the file
    under the source's name; the bytes are written where [open(dst, 'wb')]
    lands (through a link, also a dangling one), then mode and times are
    copied.  Copying a file onto itself raises [SameFileError]. *)
Definition copy2 (fs : node) (src dst : path) : option node :=
  match stat fs src with
  | Some (File d m t) =>
      let dst' := if is_dir fs dst then dst ++ [last src ""] else dst in
      match walk (S MAXSYMLINKS) fs true [] dst' with
      | Some q =>
          if match realpath fs src with
             | Some s => if path_eq_dec s q then true else false
             | None => false
             end
          then None
          else match get fs q with
               | Some (Dir _ _) => None
               | _ => set_at fs q (File d m t)
               end
      | None => None
      end
  | _ => None
  end.

(** [Path.iterdir]. *)
Definition iterdir (fs : node) (p : path) : list path :=
  match stat fs p with
  | Some (Dir _ es) => map (fun e => p ++ [fst e]) es
  | _ => []
  end.

(** [Path.rglob('*')] below a directory: [pathlib] visits the directories
    top-down (a directory, then each real sub-directory in turn; a link to a
    directory is listed but not entered) and lists the entries of each
    directory it visits.  The starting point itself is never listed. *)
Fixpoint rglob_node (p : path) (n : node) : list path :=
  match n with
  | Dir _ es =>
      map (fun e => p ++ [fst e]) es ++
      flat_map (fun e => let '(k, c) := e in
                         match c with
                         | Dir _ _ => rglob_node (p ++ [k]) c
                         | _ => []
                         end) es
  | _ => []
  end.

Definition rglob (fs : node) (p : path) : list path :=
  match stat fs p with
  | Some (Dir m es) => rglob_node p (Dir m es)
  | _ => []
  end.

(** *** [shutil.copytree(src, dst, symlinks=True, copy_function=cf)]

    [copytree_obj cf n src] is the tree that ends up at [dst] when the
    directory [n] found at [src] is copied: a link is made again with the
    text it had (never followed), a sub-directory is copied by [copytree]
    itself with the same [cf], and every other entry goes through
    [cf].  The directory's own mode comes from [copystat].  [cf p] gives the
    object the copy function leaves at the destination for the source [p]. *)
Fixpoint copytree_obj (cf : path -> option node) (n : node) (src : path)
  : option node :=
  match n with
  | Dir m es =>
      match
        (fix each (es : list (name * node)) : option (list (name * node)) :=
           match es with
           | [] => Some []
           | (k, c) :: r =>
               match
                 match c with
                 | Link a t => Some (Link a t)
                 | Dir _ _ => copytree_obj cf c (src ++ [k])
                 | File _ _ _ => cf (src ++ [k])
                 end, each r
               with
               | Some c', Some r' => Some ((k, c') :: r')
               | _, _ => None
               end
           end) es
      with
      | Some es' => Some (Dir m es')
      | None => None
      end
  | _ => None
  end.

(** The loop of [copytree] over the entries of one directory. *)
Definition copy_entries (cf : path -> option node) (src : path)
  : list (name * node) -> option (list (name * node)) :=
  fix each (es : list (name * node)) : option (list (name * node)) :=
    match es with
    | [] => Some []
    | (k, c) :: r =>
        match
          match c with
          | Link a t => Some (Link a t)
          | Dir _ _ => copytree_obj cf c (src ++ [k])
          | File _ _ _ => cf (src ++ [k])
          end, each r
        with
        | Some c', Some r' => Some ((k, c') :: r')
        | _, _ => None
        end
    end.


(** What [shutil.copy2(src, dst)] leaves at a fresh [dst]. *)
Definition copy2_obj (fs : node) (src : path) : option node :=
  match stat fs src with
  | Some (File d m t) => Some (File d m t)
  | _ => None
  end.

(** [copytree] as a step on the filesystem.  [os.makedirs(dst)] wants [dst]
    absent.  Copying a directory into itself makes [shutil] descend into its
    own output until the operating system refuses; here that call raises at
    once. *)
Definition copytree (fs : node) (cf : path -> option node) (src dst : path)
  : option node :=
  match realpath fs src with
  | None => None
  | Some s =>
      match get fs s with
      | Some (Dir m es) =>
          match mkdir_parents fs (removelast dst) with
          | None => None
          | Some fs1 =>
              match dst, canon fs1 dst with
              | _ :: _, Some q =>
                  match get fs1 q with
                  | Some _ => None
                  | None =>
                      if is_prefix s q then None
                      else match copytree_obj cf (Dir m es) src with
                           | Some obj => set_at fs1 q obj
                           | None => None
                           end
                  end
              | _, _ => None
              end
          end
      | _ => None
      end
  end.

(** [shutil.rmtree(p, onerror=remove_readonly)] (lines 52-58, 63): a real
    directory goes away with its content.  On anything else [rmtree] hands
    the path to the handler, which forces the write bit through
    [os.chmod] and prints a warning when the retried call raises; nothing is
    removed then.  The flag tells whether a warning was printed. *)
Definition rmtree_remove_readonly (fs : node) (p : path) : node * bool :=
  match lstat fs p with
  | Some (Dir _ _) =>
      match rmtree fs p with
      | Some fs' => (fs', false)
      | None => (fs, true)
      end
  | Some (Link _ _) =>
      match chmod fs p WRITE_PERMISSION with
      | Some fs' => (fs', false)
      | None => (fs, true)
      end
  | _ =>
      match chmod fs p WRITE_PERMISSION with
      | Some fs' => (fs', true)
      | None => (fs, true)
      end
  end.

(* ================================================================== *)
(** ** The engine (single-root branch of [sys.platform]) *)

(** What the program prints, one constructor per [print] of the source. *)
Inductive message : Type :=
| Warning_could_not_remove (p : path)                 (* line 58 *)
| Tracked_folder (src dest : path)                    (* line 103 *)
| Error_relative_to (p : path)                        (* line 76 *)
| Failed_to_track (p : path)                          (* line 105 *)
| Not_a_directory (folder : path)                     (* line 107 *)
| Folders_have_been_tracked                           (* line 109 *)
| No_tracked_folders_to_reset                         (* line 113 *)
| Reset_takes_no_arguments                            (* line 117 *)
| Could_not_prepare (p : path)                        (* line 166 *)
| Could_not_restore (p : path)                        (* line 180 *)
| Reset_complete (directories : Z) (files : nat)      (* lines 185-188 *)
| Encountered_errors (errors : nat)                   (* line 190 *)
| No_folders_tracked                                  (* lines 194, 212 *)
| Currently_tracked (roots : list path)               (* lines 197-208 *)
| Cleared_all_tracked.                                (* line 217 *)

(** The outcome of a command: the filesystem it leaves, what it printed,
    and whether it ended in an exception nobody caught. *)
Record outcome := mk_outcome {
  fs_of : node;
  printed : list message;
  crashed : bool
}.

(** One element of [paths_to_reset] (line 148). *)
Record entry := mk_entry {
  e_root : path;
  e_original : path;
  e_backup : path
}.

(** The [stats] dictionary of [reset] (lines 135-140); its ['errors'] key is
    only touched by the restore loop and is kept in the state of that loop
    ([r_errors] below). *)
Record stats := mk_stats {
  s_directories : list path;
  s_root_dirs : list path;
  s_files : nat
}.

(** [set.add] on a set kept as a duplicate-free list. *)
Definition set_add_path (p : path) (s : list path) : list path :=
  if in_dec path_eq_dec p s then s else s ++ [p].

Section Engine.

(** [Path.home()]. *)
Variable home : path.

(** Line 42. *)
Definition BACKUP_DIR : path := home ++ [".foam_backup"].

Definition as_ppath (p : path) : PathMapper.ppath :=
  PathMapper.mk_ppath "/" p.

(** Lines 44-50. *)
Definition ensure_backup_dir (fs : node) : option node :=
  if exists_ fs BACKUP_DIR then Some fs
  else match mkdir_parents fs home with
       | Some fs1 => os_mkdir fs1 BACKUP_DIR
       | None => None
       end.

(** [Path(folder).resolve()]: the real path when there is one; a path
    that does not resolve stays a path that does not exist (as [pathlib]
    does from Python 3.13 on, where a loop of links is no error). *)
Definition resolve (fs : node) (folder : path) : path :=
  match realpath fs folder with
  | Some q => q
  | None => folder
  end.

(** Lines 89-95, as the object left at [dst]. *)
Definition copy_with_permissions (fs : node) (src : path) : option node :=
  match (if is_dir fs src
         then match stat fs src with
              | Some n => copytree_obj (copy2_obj fs) n src
              | None => None
              end
         else copy2_obj fs src) with
  | Some obj =>
      if is_Link obj then Some obj
      else Some (set_mode obj (Z.lor (node_mode obj) WRITE_PERMISSION))
  | None => None
  end.

(** Lines 71-107: one turn of the loop of [track].  [None]: an exception
    left the loop (line 86 stands outside the [try]). *)
Definition track_folder (fs : node) (folder : path)
  : option (node * message) :=
  let folder_path := resolve fs folder in
  if exists_ fs folder_path && is_dir fs folder_path then
    match PathMapper.toBackupPath PathMapper.Posix
            (as_ppath BACKUP_DIR) (as_ppath folder_path) with
    | None => Some (fs, Error_relative_to folder_path)
    | Some d =>
        let dest := PathMapper.parts d in
        match mkdir_parents fs (removelast dest) with
        | None => None
        | Some fs1 =>
            match copytree fs1 (copy_with_permissions fs1) folder_path dest with
            | Some fs2 => Some (fs2, Tracked_folder folder_path dest)
            | None => Some (fs1, Failed_to_track folder_path)
            end
        end
    end
  else Some (fs, Not_a_directory folder).

Fixpoint track_loop (fs : node) (folders : list path) (out : list message)
  : outcome :=
  match folders with
  | [] => mk_outcome fs (out ++ [Folders_have_been_tracked]) false
  | f :: rest =>
      match track_folder fs f with
      | Some (fs', m) => track_loop fs' rest (out ++ [m])
      | None => mk_outcome fs out true
      end
  end.

(** Lines 60-109. *)
Definition track (fs : node) (folders : list path) : outcome :=
  let '(fs0, out0) :=
    if exists_ fs BACKUP_DIR then
      let '(fs', warned) := rmtree_remove_readonly fs BACKUP_DIR in
      (fs', if warned then [Warning_could_not_remove BACKUP_DIR] else [])
    else (fs, []) in
  match ensure_backup_dir fs0 with
  | None => mk_outcome fs0 out0 true
  | Some fs1 => track_loop fs1 folders out0
  end.

(** Lines 123-133 (the same walk serves lines 198-207): the directories
    two levels below the store, each with the original path it stands
    for. *)
Definition root_of (backup_folder_path : path) : option path :=
  match PathMapper.toOriginalPath PathMapper.Posix
          (as_ppath BACKUP_DIR) (as_ppath backup_folder_path) with
  | Some o => Some (PathMapper.parts o)
  | None => None
  end.

Definition tracked_roots (fs : node) : list (path * path) :=
  flat_map (fun backup_drive_path =>
    if is_dir fs backup_drive_path then
      flat_map (fun backup_folder_path =>
        if is_dir fs backup_folder_path then
          match root_of backup_folder_path with
          | Some root_path => [(root_path, backup_folder_path)]
          | None => []
          end
        else [])
        (iterdir fs backup_drive_path)
    else [])
    (iterdir fs BACKUP_DIR).

(** Lines 145-153: one entry below a tracked root. *)
Definition scan_entry (fs : node) (root_path root_backup_path : path)
           (acc : list entry * stats) (backup_path : path)
  : list entry * stats :=
  let '(paths_to_reset, st) := acc in
  let relative_path :=
    match PathMapper.strip_prefix root_backup_path backup_path with
    | Some r => r
    | None => []
    end in
  let original_path := root_path ++ relative_path in
  let paths := paths_to_reset ++ [mk_entry root_path original_path backup_path] in
  if is_dir fs backup_path && negb (is_symlink fs backup_path) then
    (paths, mk_stats (set_add_path original_path (s_directories st))
                     (s_root_dirs st) (s_files st))
  else if is_file fs backup_path || is_symlink fs backup_path then
    (paths, mk_stats (s_directories st) (s_root_dirs st)
                     (S (s_files st)))
  else (paths, st).

(** Lines 142-153. *)
Definition scan_root (fs : node) (acc : list entry * stats)
           (r : path * path) : list entry * stats :=
  let '(root_path, root_backup_path) := r in
  let '(paths, st) := acc in
  fold_left (scan_entry fs root_path root_backup_path)
            (rglob fs root_backup_path)
            (paths, mk_stats (s_directories st)
                             (set_add_path root_path (s_root_dirs st))
                             (s_files st)).

Definition scan (fs : node) : list entry * stats :=
  fold_left (scan_root fs) (tracked_roots fs) ([], mk_stats [] [] 0).

(** The state of the restore loop: filesystem, error counter, output. *)
Record rstate := mk_rstate {
  r_fs : node;
  r_errors : nat;
  r_out : list message
}.

(** Lines 159-168: what stands at the original place is removed first.
    [None]: the removal raised. *)
Definition prepare (fs : node) (original_path : path) : option node :=
  if exists_ fs original_path then
    if is_file fs original_path || is_symlink fs original_path
    then unlink fs original_path
    else rmtree fs original_path
  else Some fs.

(** Lines 155-181: one turn of the restore loop. *)
Definition restore_entry (s : rstate) (e : entry) : rstate :=
  let fs := r_fs s in
  let original_path := e_original e in
  let backup_path := e_backup e in
  if path_eq_dec original_path (e_root e) then s
  else
    match prepare fs original_path with
    | None =>
        mk_rstate fs (S (r_errors s))
                  (r_out s ++ [Could_not_prepare original_path])
    | Some fs1 =>
        let failed fs' :=
          mk_rstate fs' (S (r_errors s))
                    (r_out s ++ [Could_not_restore original_path]) in
        if is_file fs1 backup_path || is_symlink fs1 backup_path then
          match mkdir_parents fs1 (removelast original_path) with
          | None => failed fs1
          | Some fs2 =>
              if is_symlink fs2 backup_path then
                match readlink fs2 backup_path with
                | Some (a, t) =>
                    match os_symlink fs2 a t original_path with
                    | Some fs3 => mk_rstate fs3 (r_errors s) (r_out s)
                    | None => failed fs2
                    end
                | None => failed fs2
                end
              else
                match copy2 fs2 backup_path original_path with
                | Some fs3 => mk_rstate fs3 (r_errors s) (r_out s)
                | None => failed fs2
                end
          end
        else
          match mkdir_parents fs1 original_path with
          | Some fs2 => mk_rstate fs2 (r_errors s) (r_out s)
          | None => failed fs1
          end
    end.

Definition restore_all (s : rstate) (paths_to_reset : list entry) : rstate :=
  fold_left restore_entry paths_to_reset s.

(** Lines 185-190. *)
Definition summary (st : stats) (errors : nat) : list message :=
  let actual_dirs :=
    (Z.of_nat (List.length (s_directories st))
     - Z.of_nat (List.length (s_root_dirs st)))%Z in
  Reset_complete actual_dirs (s_files st)
  :: (if Nat.ltb 0 errors then [Encountered_errors errors] else []).

(** Lines 111-190.  [folders] is the argument of [reset]; [[]] stands for
    both [None] and the empty list, which line 116 treats alike. *)
Definition reset (fs : node) (folders : list path) : outcome :=
  if negb (exists_ fs BACKUP_DIR) then
    mk_outcome fs [No_tracked_folders_to_reset] false
  else
    match folders with
    | _ :: _ => mk_outcome fs [Reset_takes_no_arguments] false
    | [] =>
        if negb (is_dir fs BACKUP_DIR) then mk_outcome fs [] true
        else
          let '(paths_to_reset, st) := scan fs in
          let s := restore_all (mk_rstate fs 0 []) paths_to_reset in
          mk_outcome (r_fs s)
                     (r_out s ++ summary st (r_errors s))
                     false
    end.

(** Lines 192-208. *)
Definition list_tracked_folders (fs : node) : outcome :=
  if negb (exists_ fs BACKUP_DIR) then
    mk_outcome fs [No_folders_tracked] false
  else if negb (is_dir fs BACKUP_DIR) then mk_outcome fs [] true
  else mk_outcome fs [Currently_tracked (map fst (tracked_roots fs))] false.

(** Lines 210-219. *)
Definition undo_tracking (fs : node) : outcome :=
  if negb (exists_ fs BACKUP_DIR) then
    mk_outcome fs [No_folders_tracked] false
  else
    let '(fs', warned) := rmtree_remove_readonly fs BACKUP_DIR in
    mk_outcome fs'
      ((if warned then [Warning_could_not_remove BACKUP_DIR] else [])
       ++ [Cleared_all_tracked]) false.

End Engine.

(* ================================================================== *)
(** ** Vocabulary of the properties *)

Definition names (es : list (name * node)) : list name := map fst es.

(** Neither path is a prefix of the other. *)
Definition apart (p q : path) : Prop :=
  is_prefix p q = false /\ is_prefix q p = false.

(** [keeps fs fs']: everything found in [fs] is still found in [fs']; files
    and links are the same objects, directories are still directories. *)
Definition keeps (fs fs' : node) : Prop :=
  forall q c, get fs q = Some c ->
              exists c', get fs' q = Some c'
                         /\ (is_Dir c = false -> c' = c)
                         /\ is_Dir c' = is_Dir c.

(** What a turn of the loop puts at the original place for a backup object:
    a file or a link as it is, a directory empty (its content comes with
    later entries). *)
Definition shallow (c : node) : node :=
  match c with
  | Dir _ _ => Dir DEFAULT_DIR_MODE []
  | _ => c
  end.

(** The listing of an original directory after the entry [k] was removed
    and made again from the backup object [v]. *)
Definition replace_entry (f : node -> node) (L : list (name * node))
           (e : name * node) : list (name * node) :=
  set_child (fst e) (f (snd e)) (del_child (fst e) L).

(** The tree the loop has built once all the entries below a backup
    directory have had their turn. *)
Fixpoint restored (c : node) : node :=
  match c with
  | Dir _ es =>
      Dir DEFAULT_DIR_MODE
          (fold_left (fun L e => set_child (fst e) (restored (snd e))
                                           (del_child (fst e) L)) es [])
  | _ => c
  end.

(** The listing of an original directory that held [L], after the entries
    [es] of its backup were restored over it. *)
Definition merged (L es : list (name * node)) : list (name * node) :=
  fold_left (replace_entry restored) es L.

(** Replacing in place the value of a Dir entry. *)
Definition fill_entry (L : list (name * node)) (e : name * node)
  : list (name * node) :=
  if is_Dir (snd e) then set_child (fst e) (restored (snd e)) L else L.

(** Names unique at every level. *)
Fixpoint nodupb (l : list name) : bool :=
  match l with
  | [] => true
  | x :: r => negb (existsb (String.eqb x) r) && nodupb r
  end.

Fixpoint wfb (n : node) : bool :=
  match n with
  | Dir _ es => nodupb (map fst es) && forallb (fun e => wfb (snd e)) es
  | _ => true
  end.

Definition no_link_at (L : list (name * node)) (k : name) : bool :=
  match assoc k L with
  | Some (Link _ _) => false
  | _ => true
  end.

Definition apartb (p q : path) : bool :=
  negb (is_prefix p q) && negb (is_prefix q p).

(** The entries of [paths_to_reset] that come from the backup directory [n]
    found at [b], to be restored at [o]; same order as [rglob_node]. *)
Fixpoint rentries (R o b : path) (n : node) : list entry :=
  match n with
  | Dir _ es =>
      map (fun e => mk_entry R (o ++ [fst e]) (b ++ [fst e])) es ++
      flat_map (fun e => let '(k, c) := e in
                         match c with
                         | Dir _ _ => rentries R (o ++ [k]) (b ++ [k]) c
                         | _ => []
                         end) es
  | _ => []
  end.

(** The copy of a tree that [track] puts in the store: links as they are,
    files with bytes, time and mode, the write bit added; directories with
    their own mode. *)
Fixpoint captured (n : node) : node :=
  match n with
  | File d m t => File d (Z.lor m WRITE_PERMISSION) t
  | Link a t => Link a t
  | Dir m es => Dir m (map (fun e => (fst e, captured (snd e))) es)
  end.

(** A tree without its permission bits: bytes, times, link texts, names. *)
Fixpoint content (n : node) : node :=
  match n with
  | File d _ t => File d 0 t
  | Link a t => Link a t
  | Dir _ es => Dir 0 (map (fun e => (fst e, content (snd e))) es)
  end.

(** What is to be shown of a backup directory [n]: its entries restored
    over an original directory that holds [L] leave the merged listing. *)
Definition restores_dir (R : path) (n : node) : Prop :=
  forall fs errs out o b m L,
    wfb n = true ->
    get fs b = Some n ->
    get fs o = Some (Dir m L) ->
    (forall k, In k (names (match n with Dir _ es => es | _ => [] end)) ->
               forall a t, assoc k L <> Some (Link a t)) ->
    apart o b ->
    (forall x, x <> [] -> o ++ x <> R) ->
    exists fs',
      restore_all (mk_rstate fs errs out) (rentries R o b n)
      = mk_rstate fs' errs out
      /\ set_at fs o (Dir m (merged L (match n with
                                       | Dir _ es => es
                                       | _ => []
                                       end))) = Some fs'.

Section Vocabulary.

Variable home : path.
#[local] Abbreviation STORE := (BACKUP_DIR home).
#[local] Abbreviation dot := ".foam_backup".

(** The filesystem in which [ensure_backup_dir] has just made the store
    again, whatever the store held before. *)
Definition emptied (fs : node) : option node :=
  match get fs home with
  | Some (Dir hm hes) =>
      set_at fs home
             (Dir hm (set_child dot (Dir DEFAULT_DIR_MODE [])
                                (del_child dot hes)))
  | _ => None
  end.

(** The entry [reset] builds for a path found below a tracked root
    (lines 146-148). *)
Definition entry_for (R B bp : path) : entry :=
  mk_entry R
           (R ++ match PathMapper.strip_prefix B bp with
                 | Some r => r
                 | None => []
                 end)
           bp.

Definition entries_of_root (fs : node) (r : path * path) : list entry :=
  map (entry_for (fst r) (snd r)) (rglob fs (snd r)).

(** A tracked root is ready to be restored when its backup is a real,
    well-formed directory, the original root is a real directory away from
    the store, and none of the names to restore directly inside the root
    is a symbolic link at present. *)
Definition ready (fs : node) (r : path * path) : bool :=
  match get fs (snd r), get fs (fst r) with
  | Some (Dir bm bes), Some (Dir rm L) =>
      wfb (Dir bm bes) && forallb (no_link_at L) (names bes)
      && apartb (fst r) STORE
  | _, _ => false
  end.

(** The entries [scan] lists for a root, from the backup tree itself. *)
Definition planned (fs0 : node) (r : path * path) : list entry :=
  match get fs0 (snd r) with
  | Some D => rentries (fst r) (fst r) (snd r) D
  | None => []
  end.

(** The home directory is a real directory and the place of the store is
    free or holds a real directory. *)
Definition store_usable (fs : node) : bool :=
  match get fs home with
  | Some (Dir _ hes) =>
      match assoc dot hes with
      | None | Some (Dir _ _) => true
      | _ => false
      end
  | _ => false
  end.

End Vocabulary.

(* ================================================================== *)
(** ** The scenario of the spec, and a few others *)

Module Scenario.

Definition home : path := ["home"; "u"].

Definition store : path := BACKUP_DIR home.

Definition root_with (proj : node) : node :=
  Dir 493 [("home", Dir 493 [("u", Dir 493 [])]);
           ("data", Dir 493 [("proj", proj)])].

(** [/data/proj] holds [a.txt] (mode 644, content "hi") and the link
    [link -> a.txt]. *)
Definition proj : node :=
  Dir 493 [("a.txt", File "hi" 420 1); ("link", Link false ["a.txt"])].

Definition fs_initial : node := root_with proj.

Definition fs_tracked : node := fs_of (track home fs_initial [["data"; "proj"]]).

Definition put (fs : node) (p : path) (v : node) : node :=
  match set_at fs p v with Some fs' => fs' | None => fs end.

Definition remove (fs : node) (p : path) : node :=
  match del_at fs p with Some fs' => fs' | None => fs end.

(** [a.txt] is overwritten with "bye" and [link] is deleted. *)
Definition fs_mutated : node :=
  remove (put fs_tracked ["data"; "proj"; "a.txt"] (File "bye" 420 2))
         ["data"; "proj"; "link"].

(** A tree with a read-only directory [ro] (mode 555) holding a read-only
    file [f] (mode 444), and a link to the directory. *)
Definition proj_readonly : node :=
  Dir 493 [("ro", Dir 365 [("f", File "x" 292 1)]); ("l", Link false ["ro"])].

Definition fs_readonly_tracked : node :=
  fs_of (track home (root_with proj_readonly) [["data"; "proj"]]).



(** [/data] itself is tracked: it holds the directory [proj] and the
    file [top.txt]. *)
Definition fs_data : node :=
  Dir 493 [("home", Dir 493 [("u", Dir 493 [])]);
           ("data", Dir 493 [("proj", proj); ("top.txt", File "t" 420 1)])].

Definition fs_data_tracked : node := fs_of (track home fs_data [["data"]]).

End Scenario.

(* ================================================================== *)
(** ** Further vocabulary: the command line, several folders, counting *)

(** The namespace [parser.parse_args()] gives for a command line it
    accepts (lines 222-234): the sub-command, and for [track] the two flags
    and the folders.  [argparse] never gives both flags at once; the code
    below line 236 does not rely on it. *)
Inductive namespace : Type :=
| Args_track (list_flag undo_flag : bool) (folders : list path)
| Args_reset.

(** What a run of [main] did: one of the four operations, or the help
    text of line 244. *)
Inductive run : Type :=
| Ran (o : outcome)
| Printed_help.

(** Lines 236-246. *)
Definition main (home : path) (args : namespace) (fs : node) : run :=
  match args with
  | Args_track list_flag undo_flag folders =>
      if list_flag then Ran (list_tracked_folders home fs)
      else if undo_flag then Ran (undo_tracking home fs)
      else match folders with
           | _ :: _ => Ran (track home fs folders)
           | [] => Printed_help
           end
  | Args_reset => Ran (reset home fs [])
  end.

Definition fs_after (r : run) (fs : node) : node :=
  match r with
  | Ran o => fs_of o
  | Printed_help => fs
  end.

Definition is_refusal (m : message) : bool :=
  match m with
  | Reset_takes_no_arguments => true
  | _ => false
  end.

(** More states of the scenario: after [track], the tracked folder is
    replaced by a regular file; after [track], it is deleted. *)
Module Mishaps.

Definition fs_root_is_file : node :=
  Scenario.put Scenario.fs_tracked ["data"; "proj"] (File "z" 420 5).

Definition fs_root_deleted : node :=
  Scenario.remove Scenario.fs_tracked ["data"; "proj"].

(** After [track], [link] is made to point to a name that does not
    exist. *)
Definition fs_link_dangling : node :=
  Scenario.put Scenario.fs_tracked ["data"; "proj"; "link"]
               (Link false ["gone"]).

End Mishaps.

(** The line of the restore loop that reports the failed turn of one of
    the entries [l] (lines 166 and 180). *)
Definition error_line_of (l : list entry) (m : message) : Prop :=
  exists e, In e l /\ e_original e <> e_root e
            /\ (m = Could_not_prepare (e_original e)
                \/ m = Could_not_restore (e_original e)).

(** The entries that line 150 counts as directories, and line 152 as files. *)
Definition counts_as_directory (fs : node) (e : entry) : bool :=
  is_dir fs (e_backup e) && negb (is_symlink fs (e_backup e)).

Definition counts_as_file (fs : node) (e : entry) : bool :=
  negb (counts_as_directory fs e)
  && (is_file fs (e_backup e) || is_symlink fs (e_backup e)).

(** The listing of the store once the folder [/a/b] has been captured as
    [C]: the folder [a] is made when it is not there yet. *)
Definition store_add (ses : list (name * node)) (a b : name) (C : node)
  : list (name * node) :=
  match assoc a ses with
  | Some (Dir am aes) => set_child a (Dir am (set_child b C aes)) ses
  | _ => set_child a (Dir DEFAULT_DIR_MODE (set_child b C [])) ses
  end.

(** What the loop of [track] prints for the folders [l], [done] being the
    folders captured before: a folder met again is refused by [copytree]. *)
Fixpoint track_lines (store : path) (done l : list path) : list message :=
  match l with
  | [] => []
  | f :: r =>
      (if in_dec path_eq_dec f done then Failed_to_track f
       else Tracked_folder f (store ++ f))
      :: track_lines store (f :: done) r
  end.

(** Folders of two components that are real, well-formed directories of
    [fs0] lying apart from the store. *)
Definition trackable (store : path) (fs0 : node) (f : path) : Prop :=
  List.length f = 2 /\ apart f store
  /\ exists tm tes, get fs0 f = Some (Dir tm tes) /\ wfb (Dir tm tes) = true.

(** The folder names the anchor of a mapped path contributes. *)
Definition anchor_parts (pl : PathMapper.platform) (a : string) : list string :=
  match PathMapper.anchor_segment pl a with
  | EmptyString => []
  | s => [s]
  end.

(* ================================================================== *)
(** ** Basic facts on trees *)

Lemma copytree_obj_Dir cf m es src :
  copytree_obj cf (Dir m es) src =
  match copy_entries cf src es with
  | Some es' => Some (Dir m es')
  | None => None
  end.
Proof. reflexivity. Qed.

(** Induction on [node] that reaches the entries of a directory. *)
Lemma node_ind' (P : node -> Prop)
  (HF : forall d m t, P (File d m t))
  (HL : forall a t, P (Link a t))
  (HD : forall m es, Forall (fun e => P (snd e)) es -> P (Dir m es)) :
  forall n, P n.
Proof.
  fix IH 1. intros [d m t | a t | m es].
  - apply HF.
  - apply HL.
  - apply HD. induction es as [| [k c] r IHr].
    + constructor.
    + constructor; [apply IH | exact IHr].
Qed.


Lemma assoc_None_names k es : assoc k es = None <-> ~ In k (names es).
Proof.
  induction es as [| [k' c] r IH]; simpl.
  - tauto.
  - destruct (String.eqb_spec k k') as [-> | Hne].
    + split; [discriminate | intros H; exfalso; apply H; now left].
    + rewrite IH. split; intros H; [intros [E | E]; [congruence | tauto] | tauto].
Qed.

Lemma assoc_In k c es : assoc k es = Some c -> In (k, c) es.
Proof.
  induction es as [| [k' c'] r IH]; simpl; [discriminate |].
  destruct (String.eqb_spec k k') as [-> | Hne].
  - intros [= ->]. now left.
  - intros H. right. auto.
Qed.

Lemma In_assoc_NoDup k c es :
  NoDup (names es) -> In (k, c) es -> assoc k es = Some c.
Proof.
  induction es as [| [k' c'] r IH]; simpl; [tauto |].
  intros Hnd [E | Hin]; inversion Hnd; subst.
  - injection E as -> ->. now rewrite String.eqb_refl.
  - destruct (String.eqb_spec k k') as [-> | Hne]; [| auto].
    exfalso. apply H1. change k' with (fst (k', c)). now apply in_map.
Qed.

Lemma assoc_set_child_same k v es : assoc k (set_child k v es) = Some v.
Proof.
  induction es as [| [k' c] r IH]; simpl.
  - now rewrite String.eqb_refl.
  - destruct (String.eqb_spec k k') as [-> | Hne]; simpl.
    + now rewrite String.eqb_refl.
    + destruct (String.eqb_spec k k'); [congruence | exact IH].
Qed.

Lemma assoc_set_child_other k k' v es :
  k <> k' -> assoc k' (set_child k v es) = assoc k' es.
Proof.
  intros Hne. induction es as [| [k0 c] r IH]; simpl.
  - destruct (String.eqb_spec k' k); [congruence | reflexivity].
  - destruct (String.eqb_spec k k0) as [-> | Hne0]; simpl.
    + destruct (String.eqb_spec k' k0); [congruence | reflexivity].
    + destruct (String.eqb_spec k' k0); [reflexivity | exact IH].
Qed.

Lemma assoc_del_child_other k k' es :
  k <> k' -> assoc k' (del_child k es) = assoc k' es.
Proof.
  intros Hne. induction es as [| [k0 c] r IH]; simpl; [reflexivity |].
  destruct (String.eqb_spec k k0) as [-> | Hne0]; simpl.
  - destruct (String.eqb_spec k' k0); [congruence | exact IH].
  - destruct (String.eqb_spec k' k0); [reflexivity | exact IH].
Qed.

Lemma del_child_absent k es : assoc k es = None -> del_child k es = es.
Proof.
  induction es as [| [k0 c] r IH]; simpl; [reflexivity |].
  destruct (String.eqb_spec k k0); [discriminate |].
  intros H. now rewrite IH.
Qed.

Lemma set_child_absent k v es :
  assoc k es = None -> set_child k v es = es ++ [(k, v)].
Proof.
  induction es as [| [k0 c] r IH]; simpl; [reflexivity |].
  destruct (String.eqb_spec k k0); [discriminate |].
  intros H. now rewrite IH.
Qed.

Lemma set_child_set_child k v v' es :
  set_child k v' (set_child k v es) = set_child k v' es.
Proof.
  induction es as [| [k0 c] r IH]; simpl.
  - now rewrite String.eqb_refl.
  - destruct (String.eqb_spec k k0) as [-> | Hne]; simpl.
    + now rewrite String.eqb_refl.
    + destruct (String.eqb_spec k k0); [congruence | now rewrite IH].
Qed.

Lemma assoc_del_child_same k es : assoc k (del_child k es) = None.
Proof.
  induction es as [| [k0 c] r IH]; simpl; [reflexivity |].
  destruct (String.eqb_spec k k0) as [-> | Hne]; simpl; [exact IH |].
  destruct (String.eqb_spec k k0); [congruence | exact IH].
Qed.

(** *** [get] *)

Lemma get_app n p q :
  get n (p ++ q) = match get n p with Some c => get c q | None => None end.
Proof.
  revert n. induction p as [| k p IH]; intros n; simpl; [reflexivity |].
  destruct n; try reflexivity.
  destruct (assoc k entries); [apply IH | reflexivity].
Qed.

Lemma get_snoc n p k :
  get n (p ++ [k]) =
  match get n p with
  | Some (Dir _ es) => assoc k es
  | _ => None
  end.
Proof.
  rewrite get_app. destruct (get n p) as [[| |m es] |]; simpl; try reflexivity.
  destruct (assoc k es); reflexivity.
Qed.


Lemma is_prefix_app p q : is_prefix p (p ++ q) = true.
Proof. induction p; simpl; [reflexivity |]. now rewrite String.eqb_refl. Qed.

Lemma is_prefix_spec p q : is_prefix p q = true <-> exists r, q = p ++ r.
Proof.
  split.
  - revert q. induction p as [| x p IH]; intros q H; simpl in *.
    + now exists q.
    + destruct q as [| y q]; [discriminate |].
      apply andb_true_iff in H as [E H]. apply String.eqb_eq in E as ->.
      destruct (IH _ H) as [r ->]. now exists r.
  - intros [r ->]. apply is_prefix_app.
Qed.

Lemma is_prefix_trans p q r :
  is_prefix p q = true -> is_prefix q r = true -> is_prefix p r = true.
Proof.
  rewrite !is_prefix_spec. intros [a ->] [b ->]. exists (a ++ b).
  now rewrite app_assoc.
Qed.

Lemma apart_sym p q : apart p q -> apart q p.
Proof. unfold apart. tauto. Qed.

Lemma apart_app_l p q r : apart p q -> apart (p ++ r) q.
Proof.
  intros [H1 H2]. split.
  - destruct (is_prefix (p ++ r) q) eqn:E; [| reflexivity].
    rewrite <- H1. symmetry.
    apply (is_prefix_trans p (p ++ r) q); [apply is_prefix_app | exact E].
  - revert q H1 H2. induction p as [| x p IH]; intros q H1 H2; simpl in *.
    + discriminate.
    + destruct q as [| y q]; [discriminate |]. simpl in *.
      destruct (String.eqb_spec y x) as [-> | Hne]; simpl in *.
      * rewrite String.eqb_refl in H1. simpl in H1. auto.
      * reflexivity.
Qed.

Lemma apart_app_r p q r : apart p q -> apart p (q ++ r).
Proof. intros H. apply apart_sym, apart_app_l, apart_sym, H. Qed.

Lemma apart_cons x p q : apart p q -> apart (x :: p) (x :: q).
Proof. unfold apart. simpl. rewrite String.eqb_refl. simpl. tauto. Qed.

Lemma apart_cons_inv x p q : apart (x :: p) (x :: q) -> apart p q.
Proof. unfold apart. simpl. rewrite String.eqb_refl. simpl. tauto. Qed.

Lemma apart_siblings p k k' : k <> k' -> apart (p ++ [k]) (p ++ [k']).
Proof.
  intros Hne. induction p as [| x p IH]; simpl.
  - unfold apart. simpl.
    destruct (String.eqb_spec k k'), (String.eqb_spec k' k); try congruence.
    now split.
  - now apply apart_cons.
Qed.

(** *** [set_at] and [del_at] *)

Lemma set_at_snoc n d k v m es :
  get n d = Some (Dir m es) ->
  exists n', set_at n (d ++ [k]) v = Some n'.
Proof.
  revert n. induction d as [| x d IH]; intros n H; simpl in *.
  - injection H as ->. eauto.
  - destruct n as [| | m0 es0]; try discriminate.
    destruct (assoc x es0) as [c |] eqn:E; [| discriminate].
    destruct (IH _ H) as [c' Hc']. rewrite Hc'.
    destruct (d ++ [k]) eqn:Ed; [now destruct d | eauto].
Qed.

Lemma get_set_at_same n p v n' : set_at n p v = Some n' -> get n' p = Some v.
Proof.
  revert n n'. induction p as [| k p IH]; intros n n' H; simpl in *.
  - congruence.
  - destruct n as [| | m es]; try discriminate.
    destruct p as [| k2 p].
    + injection H as <-. simpl. now rewrite assoc_set_child_same.
    + destruct (assoc k es) as [c |]; [| discriminate].
      destruct (set_at c (k2 :: p) v) as [c' |] eqn:E; [| discriminate].
      injection H as <-. cbn [get]. rewrite assoc_set_child_same.
      now apply (IH c).
Qed.

Lemma get_set_at_apart n p v n' q :
  set_at n p v = Some n' -> apart p q -> get n' q = get n q.
Proof.
  revert n n' q. induction p as [| k p IH]; intros n n' q H Hap.
  - destruct Hap as [Hap _]. discriminate.
  - destruct q as [| x q]; [destruct Hap as [_ Hap]; discriminate |].
    simpl in H. destruct n as [| | m es]; try discriminate.
    destruct (String.eqb_spec k x) as [-> | Hne].
    + apply apart_cons_inv in Hap.
      destruct p as [| k2 p]; [destruct Hap as [Hap _]; discriminate |].
      destruct (assoc x es) as [c |] eqn:Ec; [| discriminate].
      destruct (set_at c (k2 :: p) v) as [c' |] eqn:E; [| discriminate].
      injection H as <-. cbn [get]. rewrite assoc_set_child_same, Ec.
      now apply (IH c).
    + assert (Hx : forall l, get (Dir m (set_child k l es)) (x :: q)
                             = get (Dir m es) (x :: q)).
      { intros l. cbn [get]. now rewrite assoc_set_child_other. }
      destruct p as [| k2 p].
      * injection H as <-. apply Hx.
      * destruct (assoc k es) as [c |]; [| discriminate].
        destruct (set_at c (k2 :: p) v) as [c' |]; [| discriminate].
        injection H as <-. apply Hx.
Qed.

(** A strict prefix of the place written stays the directory it was. *)
Lemma get_set_at_above n p v n' q r :
  set_at n p v = Some n' -> p = q ++ r -> r <> [] ->
  exists m es es', get n q = Some (Dir m es) /\ get n' q = Some (Dir m es').
Proof.
  revert n n' p. induction q as [| x q IH]; intros n n' p H -> Hr.
  - simpl in *. destruct r as [| k r]; [congruence |]. simpl in H.
    destruct n as [| | m es]; try discriminate.
    destruct r.
    + injection H as <-. eauto.
    + destruct (assoc k es); [| discriminate].
      destruct (set_at _ _ _); [| discriminate]. injection H as <-. eauto.
  - simpl in H. destruct n as [| | m es]; try discriminate.
    destruct (q ++ r) as [| y l] eqn:Eq; [destruct q; simpl in Eq; congruence |].
    destruct (assoc x es) as [c |] eqn:Ec; [| discriminate].
    destruct (set_at c (y :: l) v) as [c' |] eqn:E; [| discriminate].
    injection H as <-. cbn [get]. rewrite assoc_set_child_same, Ec.
    rewrite <- Eq in E. eapply IH; eauto.
Qed.

Lemma set_at_child n o m l fs1 k v fs2 :
  set_at n o (Dir m l) = Some fs1 ->
  set_at fs1 (o ++ [k]) v = Some fs2 ->
  set_at n o (Dir m (set_child k v l)) = Some fs2.
Proof.
  revert n fs1 fs2. induction o as [| x o IH]; intros n fs1 fs2 H1 H2.
  - simpl in *. injection H1 as <-. exact H2.
  - simpl in H1. destruct n as [| | m0 es]; try discriminate.
    destruct o as [| y o].
    + injection H1 as <-. cbn in H2. rewrite assoc_set_child_same in H2.
      injection H2 as <-. cbn. now rewrite set_child_set_child.
    + destruct (assoc x es) as [c |] eqn:Ec; [| discriminate].
      destruct (set_at c (y :: o) (Dir m l)) as [c' |] eqn:E; [| discriminate].
      injection H1 as <-.
      change ((x :: y :: o) ++ [k]) with (x :: (y :: o) ++ [k]) in H2.
      cbn [set_at] in H2.
      destruct ((y :: o) ++ [k]) as [| z w] eqn:Ew; [discriminate |].
      rewrite assoc_set_child_same in H2.
      destruct (set_at c' (z :: w) v) as [c'' |] eqn:E2; [| discriminate].
      injection H2 as <-. rewrite set_child_set_child.
      cbn [set_at]. rewrite Ec.
      rewrite <- Ew in E2, IH. pose proof (IH _ _ _ E E2) as E3.
      cbn [set_at] in E3 |- *. now rewrite E3.
Qed.

Lemma set_at_same_value n p c : get n p = Some c -> exists n', set_at n p c = Some n'.
Proof.
  revert n. induction p as [| k p IH]; intros n H; simpl in *; [eauto |].
  destruct n as [| | m es]; try discriminate.
  destruct (assoc k es) as [c0 |]; [| discriminate].
  destruct p; [eauto |]. destruct (IH _ H) as [n' ->]. eauto.
Qed.

Lemma set_at_defined n p c v :
  get n p = Some c -> exists n', set_at n p v = Some n'.
Proof.
  revert n. induction p as [| k p IH]; intros n H; simpl in *; [eauto |].
  destruct n as [| | m es]; try discriminate.
  destruct (assoc k es) as [c0 |]; [| discriminate].
  destruct p; [eauto |]. destruct (IH _ H) as [n' ->]. eauto.
Qed.

Lemma set_at_twice n p v n1 w :
  set_at n p v = Some n1 -> set_at n1 p w = set_at n p w.
Proof.
  revert n n1. induction p as [| k p IH]; intros n n1 H; simpl in *; [reflexivity |].
  destruct n as [| | m es]; try discriminate.
  destruct p as [| k2 p].
  - injection H as <-. now rewrite set_child_set_child.
  - destruct (assoc k es) as [c |] eqn:Ec; [| discriminate].
    destruct (set_at c (k2 :: p) v) as [c' |] eqn:E; [| discriminate].
    injection H as <-. rewrite assoc_set_child_same.
    rewrite (IH _ _ E). destruct (set_at c (k2 :: p) w); [| reflexivity].
    now rewrite set_child_set_child.
Qed.

(** Writing or removing the entry [k] of the directory at [d] is a write at
    [d] itself. *)
Lemma set_at_parent n d k v m es :
  get n d = Some (Dir m es) ->
  set_at n (d ++ [k]) v = set_at n d (Dir m (set_child k v es)).
Proof.
  revert n. induction d as [| x d IH]; intros n H; simpl in *.
  - now injection H as ->.
  - destruct n as [| | m0 es0]; try discriminate.
    destruct (assoc x es0) as [c |] eqn:E; [| discriminate].
    rewrite (IH _ H).
    destruct (d ++ [k]) eqn:Ed; [now destruct d |].
    destruct d as [| y d]; [| reflexivity].
    simpl in *. now injection H as ->.
Qed.

Lemma del_at_parent n d k c m es :
  get n d = Some (Dir m es) -> assoc k es = Some c ->
  del_at n (d ++ [k]) = set_at n d (Dir m (del_child k es)).
Proof.
  revert n. induction d as [| x d IH]; intros n H Hk; simpl in *.
  - injection H as ->. now rewrite Hk.
  - destruct n as [| | m0 es0]; try discriminate.
    destruct (assoc x es0) as [c0 |] eqn:E; [| discriminate].
    rewrite (IH _ H Hk).
    destruct (d ++ [k]) eqn:Ed; [now destruct d |].
    destruct d as [| y d]; [| reflexivity].
    simpl in *. now injection H as ->.
Qed.

Lemma get_prefix_dir n q r c :
  get n (q ++ r) = Some c -> r <> [] ->
  exists m es, get n q = Some (Dir m es).
Proof.
  rewrite get_app. destruct (get n q) as [[| | m es] |]; try discriminate.
  - destruct r; [congruence | discriminate].
  - destruct r; [congruence | discriminate].
  - eauto.
Qed.

(* ================================================================== *)
(** ** Resolution along real directories *)

Lemma walk_eq fuel fs b cur rest :
  walk (S fuel) fs b cur rest =
  match rest with
  | [] => Some cur
  | c :: rest' =>
      match get fs (cur ++ [c]) with
      | None =>
          match rest' with
          | [] => if b
                  then (if is_Dir (match get fs cur with
                                   | Some d => d
                                   | None => File "" 0 0
                                   end)
                        then Some (cur ++ [c]) else None)
                  else None
          | _ => None
          end
      | Some (Dir _ _) => walk (S fuel) fs b (cur ++ [c]) rest'
      | Some (File _ _ _) =>
          match rest' with
          | [] => Some (cur ++ [c])
          | _ => None
          end
      | Some (Link a t) =>
          walk fuel fs b (if a then [] else cur) (t ++ rest')
      end
  end.
Proof. destruct rest; reflexivity. Qed.

Lemma walk_dirs fuel fs b cur d rest m es :
  get fs (cur ++ d) = Some (Dir m es) ->
  walk (S fuel) fs b cur (d ++ rest) = walk (S fuel) fs b (cur ++ d) rest.
Proof.
  revert cur. induction d as [| x d IH]; intros cur H.
  - now rewrite app_nil_r.
  - change ((x :: d) ++ rest) with (x :: (d ++ rest)). rewrite walk_eq.
    replace (cur ++ x :: d) with ((cur ++ [x]) ++ d) in *
      by now rewrite <- app_assoc.
    assert (exists m1 es1, get fs (cur ++ [x]) = Some (Dir m1 es1))
      as (m1 & es1 & E).
    { destruct d as [| y d].
      - rewrite app_nil_r in H. eauto.
      - eapply get_prefix_dir; [exact H | discriminate]. }
    rewrite E. now apply IH.
Qed.

Lemma removelast_snoc (d : path) k : removelast (d ++ [k]) = d.
Proof. now rewrite removelast_app, app_nil_r by discriminate. Qed.

Lemma last_snoc (d : path) k x : last (d ++ [k]) x = k.
Proof. now rewrite last_last. Qed.

Lemma snoc_not_nil (d : path) k : d ++ [k] <> [].
Proof. now destruct d. Qed.

Section Resolve.

Variable fs : node.
Variables (d : path) (m : Z) (es : list (name * node)).
Hypothesis Hd : get fs d = Some (Dir m es).

Lemma realpath_dir : realpath fs d = Some d.
Proof.
  unfold realpath.
  rewrite <- (app_nil_r d) at 1.
  rewrite (walk_dirs _ _ _ [] d [] _ _ Hd). now rewrite walk_eq.
Qed.

Lemma walk_child b k :
  walk (S MAXSYMLINKS) fs b [] (d ++ [k]) =
  match assoc k es with
  | None => if b then Some (d ++ [k]) else None
  | Some (Link a t) => walk MAXSYMLINKS fs b (if a then [] else d) (t ++ [])
  | Some _ => Some (d ++ [k])
  end.
Proof.
  rewrite (walk_dirs _ _ _ [] d [k] _ _ Hd). rewrite walk_eq. simpl app.
  rewrite get_snoc, Hd.
  destruct (assoc k es) as [[| |] |]; reflexivity.
Qed.

Lemma canon_child k : canon fs (d ++ [k]) = Some (d ++ [k]).
Proof.
  unfold canon. destruct (d ++ [k]) eqn:E; [now destruct d |].
  rewrite <- E, removelast_snoc, realpath_dir, Hd. now rewrite last_snoc.
Qed.

Lemma lstat_child k : lstat fs (d ++ [k]) = assoc k es.
Proof. unfold lstat. now rewrite canon_child, get_snoc, Hd. Qed.

Lemma stat_child k c :
  assoc k es = Some c -> is_Link c = false -> stat fs (d ++ [k]) = Some c.
Proof.
  intros Hc Hl. unfold stat, realpath. rewrite walk_child, Hc.
  destruct c; try discriminate; now rewrite get_snoc, Hd.
Qed.

Lemma stat_child_absent k : assoc k es = None -> stat fs (d ++ [k]) = None.
Proof. intros Hc. unfold stat, realpath. now rewrite walk_child, Hc. Qed.

Lemma is_symlink_child k :
  is_symlink fs (d ++ [k]) =
  match assoc k es with Some c => is_Link c | None => false end.
Proof.
  unfold is_symlink. rewrite lstat_child.
  destruct (assoc k es) as [[| |] |]; reflexivity.
Qed.

Lemma unlink_child k c :
  assoc k es = Some c -> is_Dir c = false ->
  unlink fs (d ++ [k]) = set_at fs d (Dir m (del_child k es)).
Proof.
  intros Hc Hn. unfold unlink. rewrite canon_child, get_snoc, Hd, Hc.
  destruct (d ++ [k]) eqn:E; [now destruct d |]. rewrite <- E.
  destruct c; try discriminate; eapply del_at_parent; eauto.
Qed.

Lemma rmtree_child k c :
  assoc k es = Some c -> is_Dir c = true ->
  rmtree fs (d ++ [k]) = set_at fs d (Dir m (del_child k es)).
Proof.
  intros Hc Hn. unfold rmtree. rewrite canon_child, get_snoc, Hd, Hc.
  destruct (d ++ [k]) eqn:E; [now destruct d |]. rewrite <- E.
  destruct c; try discriminate. eapply del_at_parent; eauto.
Qed.

Lemma os_mkdir_child k :
  assoc k es = None ->
  os_mkdir fs (d ++ [k]) =
  set_at fs d (Dir m (set_child k (Dir DEFAULT_DIR_MODE []) es)).
Proof.
  intros Hc. unfold os_mkdir. rewrite canon_child, get_snoc, Hd, Hc.
  destruct (d ++ [k]) eqn:E; [now destruct d |]. rewrite <- E.
  now apply set_at_parent.
Qed.

Lemma os_symlink_child k a t :
  assoc k es = None ->
  os_symlink fs a t (d ++ [k]) =
  set_at fs d (Dir m (set_child k (Link a t) es)).
Proof.
  intros Hc. unfold os_symlink. rewrite canon_child, get_snoc, Hd, Hc.
  destruct (d ++ [k]) eqn:E; [now destruct d |]. rewrite <- E.
  now apply set_at_parent.
Qed.

End Resolve.

Lemma stat_get fs p n :
  get fs p = Some n -> is_Link n = false -> stat fs p = Some n.
Proof.
  intros H Hl. destruct p as [| x p] using rev_ind.
  - simpl in H. injection H as ->.
    unfold stat, realpath. now rewrite walk_eq.
  - destruct (get_prefix_dir fs p [x] _ H) as (m & es & Hd); [discriminate |].
    rewrite get_snoc, Hd in H. now apply (stat_child _ _ _ _ Hd).
Qed.

Lemma is_dir_get fs p m es : get fs p = Some (Dir m es) -> is_dir fs p = true.
Proof. intros H. unfold is_dir. now rewrite (stat_get _ _ _ H). Qed.

Lemma exists_get fs p n :
  get fs p = Some n -> is_Link n = false -> exists_ fs p = true.
Proof. intros H Hl. unfold exists_. now rewrite (stat_get _ _ _ H Hl). Qed.

Lemma mkdir_from_dirs fs done todo rest m es :
  get fs (done ++ todo) = Some (Dir m es) ->
  mkdir_from fs done (todo ++ rest) = mkdir_from fs (done ++ todo) rest.
Proof.
  revert done. induction todo as [| x todo IH]; intros done H.
  - now rewrite app_nil_r.
  - replace (done ++ x :: todo) with ((done ++ [x]) ++ todo) in *
      by now rewrite <- app_assoc.
    assert (exists m1 es1, get fs (done ++ [x]) = Some (Dir m1 es1))
      as (m1 & es1 & E).
    { destruct todo as [| y todo].
      - rewrite app_nil_r in H. eauto.
      - eapply get_prefix_dir; [exact H | discriminate]. }
    simpl. rewrite (is_dir_get _ _ _ _ E). now apply IH.
Qed.

Lemma mkdir_parents_dir fs d m es :
  get fs d = Some (Dir m es) -> mkdir_parents fs d = Some fs.
Proof.
  intros H. unfold mkdir_parents.
  rewrite <- (app_nil_r d) at 1.
  now rewrite (mkdir_from_dirs fs [] d [] m es H).
Qed.

Lemma mkdir_parents_child fs d m es k :
  get fs d = Some (Dir m es) -> assoc k es = None ->
  mkdir_parents fs (d ++ [k]) =
  set_at fs d (Dir m (set_child k (Dir DEFAULT_DIR_MODE []) es)).
Proof.
  intros H Hk. unfold mkdir_parents.
  rewrite (mkdir_from_dirs fs [] d [k] m es H). simpl.
  unfold is_dir. rewrite (stat_child_absent _ _ _ _ H _ Hk).
  rewrite (lstat_child _ _ _ _ H), Hk.
  rewrite (os_mkdir_child _ _ _ _ H _ Hk).
  destruct (set_at fs d _); reflexivity.
Qed.

(* ================================================================== *)
(** ** PathMapper: the round trip *)

Module PathMapperFacts.
Import PathMapper.



Lemma rstrip_drive d :
  string_exists bad_in_segment d = false ->
  rstrip [colon; backslash] (drive_anchor d) = d.
Proof.
  unfold drive_anchor. induction d as [| c r IH]; intros H.
  - reflexivity.
  - simpl in H. apply orb_false_iff in H as [Hc Hr].
    cbn [append rstrip]. rewrite (IH Hr).
    destruct r; [| reflexivity].
    unfold bad_in_segment, is_sep in Hc.
    apply orb_false_iff in Hc as [Hc1 Hc2].
    apply orb_false_iff in Hc1 as [Hc1 _].
    unfold mem_ascii. simpl. now rewrite Hc1, Hc2.
Qed.

Lemma join_plain store d :
  plain_segment d = true ->
  join_segment Windows store d =
  Some (mk_ppath (anchor store) (parts store ++ [d])).
Proof.
  unfold plain_segment. intros H. apply andb_true_iff in H as [Hne Hb].
  apply negb_true_iff in Hb.
  destruct d as [| c r]; [discriminate |].
  unfold join_segment.
  change (string_exists _ (String c r))
    with (string_exists bad_in_segment (String c r)) in *.
  rewrite Hb. simpl in Hb. apply orb_false_iff in Hb as [Hc _].
  unfold bad_in_segment in Hc. apply orb_false_iff in Hc as [Hc _].
  now rewrite Hc.
Qed.

Lemma strip_prefix_app pre l : strip_prefix pre (pre ++ l) = Some l.
Proof.
  induction pre as [| x pre IH]; simpl; [reflexivity |].
  now rewrite String.eqb_refl.
Qed.

(** C2 (as amended): on a single-root platform every absolute path, and on
    a drive-letter platform every path under a drive anchor [X:\], is
    mapped into the store and back to itself. *)
Theorem roundtrip_mapped_anchor pl store p :
  mapped_anchor pl (anchor p) -> roundtrip pl store p = Some p.
Proof.
  destruct p as [a ps]. simpl. intros H.
  inversion H as [Hpl Ha | d Hd Hpl Ha]; subst.
  - unfold roundtrip, toBackupPath, toOriginalPath, relative_to. simpl.
    rewrite String.eqb_refl, strip_prefix_app. reflexivity.
  - unfold roundtrip, toBackupPath. simpl anchor.
    unfold anchor_segment. rewrite rstrip_drive.
    2:{ unfold plain_segment in Hd. apply andb_true_iff in Hd as [_ Hd].
        now apply negb_true_iff in Hd. }
    rewrite (join_plain store d Hd).
    unfold toOriginalPath, relative_to, join_parts. simpl.
    rewrite String.eqb_refl, <- app_assoc, strip_prefix_app. reflexivity.
Qed.


Lemma roundtrip_mapped_anchor_witness :
  mapped_anchor Windows (anchor (mk_ppath (drive_anchor "D") ["work"; "proj"]))
  /\ roundtrip Windows store_C (mk_ppath (drive_anchor "D") ["work"; "proj"])
     = Some (mk_ppath (drive_anchor "D") ["work"; "proj"]).
Proof.
  split.
  - apply windows_drive. reflexivity.
  - apply roundtrip_mapped_anchor. apply windows_drive. reflexivity.
Defined.


(** C2, counterexample: a path on a network share is a legal absolute
    path of a drive-letter platform; its stripped anchor is not a folder
    name, line 85 lands outside the store and nothing maps back. *)
Lemma roundtrip_fails_on_share :
  toBackupPath Windows store_C (mk_ppath unc_anchor ["dir"])
    = Some (mk_ppath unc_anchor ["dir"])
  /\ roundtrip Windows store_C (mk_ppath unc_anchor ["dir"])
     <> Some (mk_ppath unc_anchor ["dir"]).
Proof. split; [reflexivity | discriminate]. Qed.

End PathMapperFacts.

(* ================================================================== *)
(** ** The scenario of the spec, and a few others, run on the model *)

Module Run.
Import Scenario.









Lemma scenario_restores :
  get (fs_of (reset home fs_mutated [])) ["data"; "proj"; "a.txt"]
    = Some (File "hi" 420 1)
  /\ get (fs_of (reset home fs_mutated [])) ["data"; "proj"; "link"]
    = Some (Link false ["a.txt"]).
Proof. split; reflexivity. Qed.

(** C4: on the scenario of the spec (one tracked root holding one regular
    file and one link, no sub-directory, no error) the summary printed by
    lines 185-190 counts [-1] directories, 2 files and no error: line 186
    subtracts the tracked roots from a set that [rglob] never put them
    in. *)
Theorem scenario_summary :
  printed (reset home fs_mutated []) = [Reset_complete (-1) 2]
  /\ fst (scan home fs_mutated) <> []
  /\ s_directories (snd (scan home fs_mutated)) = []
  /\ s_root_dirs (snd (scan home fs_mutated)) = [["data"; "proj"]].
Proof. repeat split; try reflexivity. discriminate. Qed.



(** C5: in the copy made by [track] the link is still a link and the file
    has its bytes, its time and its mode with the write bit added, but the
    directory [ro] keeps mode 555: [shutil.copytree] hands only files to
    [copy_with_permissions], never a directory, so lines 90-91 and the
    [chmod] of line 95 on a directory are not reached. *)
Theorem readonly_directory_stays_readonly :
  get fs_readonly_tracked (store ++ ["data"; "proj"; "l"])
    = Some (Link false ["ro"])
  /\ get fs_readonly_tracked (store ++ ["data"; "proj"; "ro"; "f"])
    = Some (File "x" (Z.lor 292 WRITE_PERMISSION) 1)
  /\ (exists es,
        get fs_readonly_tracked (store ++ ["data"; "proj"; "ro"])
          = Some (Dir 365 es)
        /\ Z.land 365 WRITE_PERMISSION = 0%Z).
Proof.
  split; [reflexivity | split; [reflexivity |]].
  eexists. split; reflexivity.
Qed.

(** C7, counterexample: with no store on disk, [reset] called with a
    folder says that there is nothing to reset (line 113 comes first); the
    refusal of line 117 is not printed. *)
Lemma reset_with_arguments_without_store :
  exists_ fs_initial store = false
  /\ printed (reset home fs_initial [["data"; "proj"]])
     = [No_tracked_folders_to_reset]
  /\ printed (reset home fs_initial [["data"; "proj"]])
     <> [Reset_takes_no_arguments].
Proof. repeat split; try reflexivity. discriminate. Qed.







(** Partial failure: a folder that does not exist is reported, the valid
    one is captured all the same, and [reset] restores it. *)
Lemma missing_then_valid :
  printed (track home fs_initial [["nope"]; ["data"; "proj"]])
  = [Not_a_directory ["nope"];
     Tracked_folder ["data"; "proj"] (store ++ ["data"; "proj"]);
     Folders_have_been_tracked]
  /\ fs_of (track home fs_initial [["nope"]; ["data"; "proj"]]) = fs_tracked.
Proof. split; reflexivity. Qed.

End Run.

(* ================================================================== *)
(** ** [reset] called with arguments *)

(** C7 (as amended): called with folder arguments, [reset] restores
    nothing, the filesystem (original paths and store alike) is the one it
    was given; it prints the refusal when a store exists, and reports that
    there is nothing to reset when there is none. *)
Theorem reset_with_arguments_changes_nothing home fs folders :
  folders <> [] ->
  fs_of (reset home fs folders) = fs
  /\ crashed (reset home fs folders) = false
  /\ printed (reset home fs folders) =
     [if exists_ fs (BACKUP_DIR home) then Reset_takes_no_arguments
      else No_tracked_folders_to_reset].
Proof.
  intros H. unfold reset.
  destruct (exists_ fs (BACKUP_DIR home)); simpl.
  - destruct folders; [congruence | now repeat split].
  - now repeat split.
Qed.

Lemma reset_with_arguments_changes_nothing_witness :
  [["data"; "proj"]] <> ([] : list path)
  /\ fs_of (reset Scenario.home Scenario.fs_mutated [["data"; "proj"]])
     = Scenario.fs_mutated
  /\ printed (reset Scenario.home Scenario.fs_mutated [["data"; "proj"]])
     = [Reset_takes_no_arguments].
Proof.
  split; [discriminate |].
  destruct (reset_with_arguments_changes_nothing Scenario.home
              Scenario.fs_mutated [["data"; "proj"]]) as (H1 & _ & H3).
  - discriminate.
  - split; [exact H1 | exact H3].
Defined.

(* ================================================================== *)
(** ** The store as a real directory *)

Section Store.

Variable home : path.
#[local] Abbreviation STORE := (BACKUP_DIR home).
#[local] Abbreviation dot := ".foam_backup".

Lemma store_in_home fs m es :
  get fs STORE = Some (Dir m es) ->
  exists hm hes, get fs home = Some (Dir hm hes)
                 /\ assoc dot hes = Some (Dir m es).
Proof.
  unfold BACKUP_DIR. intros H.
  destruct (get_prefix_dir fs home [dot] _ H) as (hm & hes & Hh);
    [discriminate |].
  rewrite get_snoc, Hh in H. eauto.
Qed.


Lemma emptied_defined fs m es :
  get fs STORE = Some (Dir m es) -> exists fs1, emptied home fs = Some fs1.
Proof.
  intros H. destruct (store_in_home _ _ _ H) as (hm & hes & Hh & _).
  unfold emptied. rewrite Hh. eapply set_at_defined; eauto.
Qed.

Lemma emptied_store fs fs1 :
  emptied home fs = Some fs1 -> get fs1 STORE = Some (Dir DEFAULT_DIR_MODE []).
Proof.
  unfold emptied. destruct (get fs home) as [[| | hm hes] |]; try discriminate.
  intros H. unfold BACKUP_DIR.
  rewrite get_snoc, (get_set_at_same _ _ _ _ H).
  apply assoc_set_child_same.
Qed.

Lemma emptied_apart fs fs1 q :
  emptied home fs = Some fs1 -> apart home q -> get fs1 q = get fs q.
Proof.
  unfold emptied. destruct (get fs home) as [[| | hm hes] |]; try discriminate.
  intros H Hq. eapply get_set_at_apart; eauto.
Qed.

(** Lines 61-68 on a store that is a real directory. *)
Lemma track_starts_empty fs m es folders :
  get fs STORE = Some (Dir m es) ->
  exists fs0 fs1,
    del_at fs STORE = Some fs0
    /\ get fs0 STORE = None
    /\ emptied home fs = Some fs1
    /\ emptied home fs0 = Some fs1
    /\ track home fs folders = track_loop home fs1 folders []
    /\ track home fs0 folders = track_loop home fs1 folders [].
Proof.
  intros H. destruct (store_in_home _ _ _ H) as (hm & hes & Hh & Hs).
  destruct (set_at_defined fs home _ (Dir hm (del_child dot hes)) Hh)
    as [fs0 H0].
  assert (Hh0 : get fs0 home = Some (Dir hm (del_child dot hes)))
    by exact (get_set_at_same _ _ _ _ H0).
  assert (Hnone : assoc dot (del_child dot hes) = None)
    by apply assoc_del_child_same.
  destruct (set_at_defined fs0 home _
              (Dir hm (set_child dot (Dir DEFAULT_DIR_MODE [])
                                 (del_child dot hes))) Hh0) as [fs1 H1].
  assert (Hdel : del_at fs STORE = Some fs0).
  { unfold BACKUP_DIR. rewrite (del_at_parent _ _ _ _ _ _ Hh Hs). exact H0. }
  assert (Hex0 : exists_ fs0 STORE = false).
  { unfold exists_, BACKUP_DIR.
    now rewrite (stat_child_absent _ _ _ _ Hh0 _ Hnone). }
  assert (Hens : ensure_backup_dir home fs0 = Some fs1).
  { unfold ensure_backup_dir. rewrite Hex0.
    rewrite (mkdir_parents_dir _ _ _ _ Hh0). unfold BACKUP_DIR.
    now rewrite (os_mkdir_child _ _ _ _ Hh0 _ Hnone). }
  assert (Hdd : del_child dot (del_child dot hes) = del_child dot hes)
    by now apply del_child_absent.
  exists fs0, fs1. repeat split.
  - exact Hdel.
  - unfold BACKUP_DIR. now rewrite get_snoc, Hh0.
  - unfold emptied. rewrite Hh. now rewrite <- (set_at_twice _ _ _ _ _ H0).
  - unfold emptied. rewrite Hh0, Hdd. exact H1.
  - unfold track. rewrite (exists_get _ _ _ H eq_refl).
    unfold rmtree_remove_readonly, BACKUP_DIR.
    rewrite (lstat_child _ _ _ _ Hh), Hs.
    rewrite (rmtree_child _ _ _ _ Hh _ _ Hs eq_refl), H0.
    fold STORE. now rewrite Hens.
  - unfold track. rewrite Hex0. now rewrite Hens.
Qed.

End Store.

Lemma del_child_set_child k v es :
  del_child k (set_child k v es) = del_child k es.
Proof.
  induction es as [| [k0 c] r IH]; simpl.
  - now rewrite String.eqb_refl.
  - destruct (String.eqb_spec k k0) as [-> | Hne]; simpl.
    + now rewrite String.eqb_refl.
    + destruct (String.eqb_spec k k0); [congruence | now rewrite IH].
Qed.

Section Generations.

Variable home : path.
#[local] Abbreviation STORE := (BACKUP_DIR home).

Lemma emptied_forgets fs m es v fs' :
  get fs STORE = Some (Dir m es) ->
  set_at fs STORE v = Some fs' ->
  emptied home fs' = emptied home fs.
Proof.
  intros H Hset.
  destruct (store_in_home _ _ _ _ H) as (hm & hes & Hh & _).
  unfold BACKUP_DIR in Hset. rewrite (set_at_parent _ _ _ _ _ _ Hh) in Hset.
  unfold emptied. rewrite (get_set_at_same _ _ _ _ Hset), Hh.
  rewrite del_child_set_child. exact (set_at_twice _ _ _ _ _ Hset).
Qed.




End Generations.



(* ================================================================== *)
(** ** What [reset] and [list] enumerate *)

Lemma rglob_node_In b n p :
  In p (rglob_node b n) -> exists rel, rel <> [] /\ p = b ++ rel.
Proof.
  revert b p. induction n as [| | m es IH] using node_ind'; intros b p H;
    try contradiction.
  cbn [rglob_node] in H. apply in_app_or in H as [H | H].
  - apply in_map_iff in H as ([k c] & <- & _). exists [k]. now split.
  - apply in_flat_map in H as ([k c] & Hin & Hp).
    rewrite Forall_forall in IH. specialize (IH _ Hin). simpl in IH.
    destruct c; try contradiction.
    destruct (IH _ _ Hp) as (rel & Hrel & ->).
    exists (k :: rel). split; [discriminate | now rewrite <- app_assoc].
Qed.

Lemma rglob_In fs b p :
  In p (rglob fs b) -> exists rel, rel <> [] /\ p = b ++ rel.
Proof.
  unfold rglob. destruct (stat fs b) as [[| |] |]; try contradiction.
  apply rglob_node_In.
Qed.

Lemma iterdir_In fs p q :
  In q (iterdir fs p) ->
  exists k m es c, q = p ++ [k] /\ stat fs p = Some (Dir m es) /\ In (k, c) es.
Proof.
  unfold iterdir. destruct (stat fs p) as [[| | m es] |]; try contradiction.
  intros H. apply in_map_iff in H as ([k c] & <- & Hin).
  exists k, m, es, c. auto.
Qed.

Lemma In_iterdir fs p k c m es :
  stat fs p = Some (Dir m es) -> In (k, c) es -> In (p ++ [k]) (iterdir fs p).
Proof.
  intros H Hin. unfold iterdir. rewrite H.
  apply in_map_iff. exists (k, c). auto.
Qed.

Section Enumeration.

Variable home : path.
#[local] Abbreviation STORE := (BACKUP_DIR home).

Lemma root_of_two_levels a b : root_of home ((STORE ++ [a]) ++ [b]) = Some [a; b].
Proof.
  unfold root_of, PathMapper.toOriginalPath, PathMapper.relative_to. simpl.
  rewrite <- app_assoc. now rewrite PathMapperFacts.strip_prefix_app.
Qed.

(** The tracked roots are the directories two levels below the store. *)
Lemma tracked_roots_In fs R B :
  In (R, B) (tracked_roots home fs) <->
  exists a b,
    R = [a; b] /\ B = STORE ++ [a; b]
    /\ In (STORE ++ [a]) (iterdir fs STORE)
    /\ is_dir fs (STORE ++ [a]) = true
    /\ In ((STORE ++ [a]) ++ [b]) (iterdir fs (STORE ++ [a]))
    /\ is_dir fs B = true.
Proof.
  unfold tracked_roots. rewrite in_flat_map. split.
  - intros (dp & Hdp & H).
    destruct (is_dir fs dp) eqn:Ed; [| contradiction].
    apply in_flat_map in H as (fp & Hfp & H).
    destruct (is_dir fs fp) eqn:Ef; [| contradiction].
    destruct (iterdir_In _ _ _ Hdp) as (a & _ & _ & _ & -> & _).
    destruct (iterdir_In _ _ _ Hfp) as (b & _ & _ & _ & -> & _).
    rewrite root_of_two_levels in H. destruct H as [H | []].
    injection H as <- <-. exists a, b.
    repeat split; auto.
    now rewrite <- app_assoc.
  - intros (a & b & -> & -> & Ha & Hda & Hb & Hdb).
    assert (E : STORE ++ [a; b] = (STORE ++ [a]) ++ [b])
      by now rewrite <- app_assoc.
    rewrite E in *.
    exists (STORE ++ [a]). split; [exact Ha |]. rewrite Hda.
    apply in_flat_map. exists ((STORE ++ [a]) ++ [b]). split; [exact Hb |].
    rewrite Hdb, root_of_two_levels. now left.
Qed.


Lemma scan_entry_fst fs R B acc bp :
  fst (scan_entry fs R B acc bp) = fst acc ++ [entry_for R B bp].
Proof.
  destruct acc as [paths st]. unfold scan_entry, entry_for. simpl.
  destruct (is_dir fs bp && negb (is_symlink fs bp)); [reflexivity |].
  destruct (is_file fs bp || is_symlink fs bp); reflexivity.
Qed.

Lemma fold_scan_entry_fst fs R B l acc :
  fst (fold_left (scan_entry fs R B) l acc)
  = fst acc ++ map (entry_for R B) l.
Proof.
  revert acc. induction l as [| bp l IH]; intros acc; simpl.
  - now rewrite app_nil_r.
  - rewrite IH, scan_entry_fst, <- app_assoc. reflexivity.
Qed.


Lemma scan_root_fst fs acc r :
  fst (scan_root fs acc r) = fst acc ++ entries_of_root fs r.
Proof.
  destruct r as [R B], acc as [paths st]. unfold scan_root, entries_of_root.
  now rewrite fold_scan_entry_fst.
Qed.

Lemma fold_scan_root_fst fs l acc :
  fst (fold_left (scan_root fs) l acc)
  = fst acc ++ flat_map (entries_of_root fs) l.
Proof.
  revert acc. induction l as [| r l IH]; intros acc; simpl.
  - now rewrite app_nil_r.
  - rewrite IH, scan_root_fst, <- app_assoc. reflexivity.
Qed.

Lemma scan_fst fs :
  fst (scan home fs) = flat_map (entries_of_root fs) (tracked_roots home fs).
Proof. unfold scan. now rewrite fold_scan_root_fst. Qed.

(** Every entry of [paths_to_reset] lies strictly below a tracked root,
    at the same relative place in the store and in the original tree. *)
Lemma scan_entries_below_roots fs e :
  In e (fst (scan home fs)) ->
  exists a b rel,
    In ([a; b], STORE ++ [a; b]) (tracked_roots home fs)
    /\ rel <> []
    /\ e = mk_entry [a; b] ([a; b] ++ rel) ((STORE ++ [a; b]) ++ rel).
Proof.
  rewrite scan_fst. intros H.
  apply in_flat_map in H as ([R B] & Hr & He).
  pose proof Hr as Hr'.
  apply tracked_roots_In in Hr' as (a & b & -> & -> & _).
  unfold entries_of_root in He. simpl in He.
  apply in_map_iff in He as (bp & <- & Hbp).
  destruct (rglob_In _ _ _ Hbp) as (rel & Hrel & ->).
  exists a, b, rel. repeat split; auto.
  unfold entry_for. now rewrite PathMapperFacts.strip_prefix_app.
Qed.

End Enumeration.

Section OneComponent.

Variable home : path.
#[local] Abbreviation STORE := (BACKUP_DIR home).

(** C9: the tracked roots of [reset] and [list] are exactly the
    directories two levels below the store.  A tracked folder with a
    single component [/d] is therefore no root itself; each sub-directory
    captured from it is a root of its own, and a regular file lying
    directly inside it is neither a root nor an entry of
    [paths_to_reset]. *)
Theorem one_component_folder_is_split fs d m es m1 es1 :
  get fs STORE = Some (Dir m es) ->
  assoc d es = Some (Dir m1 es1) ->
  (forall R B,
      In (R, B) (tracked_roots home fs) <->
      exists a b,
        R = [a; b] /\ B = STORE ++ [a; b]
        /\ In (STORE ++ [a]) (iterdir fs STORE)
        /\ is_dir fs (STORE ++ [a]) = true
        /\ In ((STORE ++ [a]) ++ [b]) (iterdir fs (STORE ++ [a]))
        /\ is_dir fs B = true)
  /\ ~ In [d] (map fst (tracked_roots home fs))
  /\ (forall k c,
         assoc k es1 = Some c -> is_Dir c = true ->
         In ([d; k], STORE ++ [d; k]) (tracked_roots home fs)
         /\ In [d; k] (map fst (tracked_roots home fs)))
  /\ (forall k c,
         assoc k es1 = Some c -> is_File c = true ->
         ~ In [d; k] (map fst (tracked_roots home fs))
         /\ forall e, In e (fst (scan home fs)) ->
                      e_original e <> [d; k]
                      /\ e_backup e <> STORE ++ [d; k]).
Proof.
  intros Hs Hd.
  assert (Hdd : get fs (STORE ++ [d]) = Some (Dir m1 es1))
    by now rewrite get_snoc, Hs.
  split; [apply tracked_roots_In | split; [| split]].
  - intros H. apply in_map_iff in H as ([R B] & HR & Hin).
    simpl in HR. subst R.
    apply tracked_roots_In in Hin as (a & b & E & _). discriminate.
  - intros k c Hk Hc.
    assert (Hin : In ([d; k], STORE ++ [d; k]) (tracked_roots home fs)).
    { apply tracked_roots_In. exists d, k.
      assert (Hkk : get fs (STORE ++ [d; k]) = Some c).
      { replace (STORE ++ [d; k]) with ((STORE ++ [d]) ++ [k])
          by now rewrite <- app_assoc.
        now rewrite get_snoc, Hdd. }
      repeat split.
      - eapply In_iterdir; [exact (stat_get _ _ _ Hs eq_refl) |].
        eapply assoc_In; eauto.
      - eapply is_dir_get; eauto.
      - eapply In_iterdir; [exact (stat_get _ _ _ Hdd eq_refl) |].
        eapply assoc_In; eauto.
      - destruct c; try discriminate. eapply is_dir_get; eauto. }
    split; [exact Hin |].
    apply in_map_iff. now exists ([d; k], STORE ++ [d; k]).
  - intros k c Hk Hc. split.
    + intros H. apply in_map_iff in H as ([R B] & HR & Hin).
      simpl in HR. subst R.
      apply tracked_roots_In in Hin as (a & b & E & -> & _ & _ & _ & Hdir).
      injection E as <- <-.
      assert (Hkk : get fs (STORE ++ [d; k]) = Some c).
      { replace (STORE ++ [d; k]) with ((STORE ++ [d]) ++ [k])
          by now rewrite <- app_assoc.
        now rewrite get_snoc, Hdd. }
      unfold is_dir in Hdir.
      rewrite (stat_get _ _ _ Hkk) in Hdir by now destruct c.
      destruct c; discriminate.
    + intros e He.
      destruct (scan_entries_below_roots home fs e He)
        as (a & b & rel & _ & Hrel & ->). simpl.
      destruct rel as [| x rel]; [congruence |].
      split; [discriminate |].
      rewrite <- app_assoc. intros E. apply app_inv_head in E.
      discriminate.
Qed.

End OneComponent.

Lemma one_component_folder_is_split_witness :
  get Scenario.fs_data_tracked Scenario.store
    = Some (Dir DEFAULT_DIR_MODE
              [("data", Dir 493 [("proj", Scenario.proj);
                                 ("top.txt", File "t" 420 1)])])
  /\ ~ In ["data"] (map fst (tracked_roots Scenario.home Scenario.fs_data_tracked))
  /\ In ["data"; "proj"]
        (map fst (tracked_roots Scenario.home Scenario.fs_data_tracked))
  /\ ~ In ["data"; "top.txt"]
         (map fst (tracked_roots Scenario.home Scenario.fs_data_tracked)).
Proof.
  split; [reflexivity |].
  destruct (one_component_folder_is_split Scenario.home
              Scenario.fs_data_tracked "data" DEFAULT_DIR_MODE
              [("data", Dir 493 [("proj", Scenario.proj);
                                 ("top.txt", File "t" 420 1)])]
              493 [("proj", Scenario.proj); ("top.txt", File "t" 420 1)]
              eq_refl eq_refl)
    as (_ & H2 & H3 & H4).
  split; [exact H2 | split].
  - exact (proj2 (H3 "proj" Scenario.proj eq_refl eq_refl)).
  - exact (proj1 (H4 "top.txt" (File "t" 420 1) eq_refl eq_refl)).
Defined.

(* ================================================================== *)
(** ** Failures stay local *)


Lemma keeps_refl fs : keeps fs fs.
Proof. intros q c H. eauto. Qed.

Lemma keeps_trans a b c : keeps a b -> keeps b c -> keeps a c.
Proof.
  intros H1 H2 q x Hx.
  destruct (H1 _ _ Hx) as (y & Hy & Hy1 & Hy2).
  destruct (H2 _ _ Hy) as (z & Hz & Hz1 & Hz2).
  exists z. repeat split; [exact Hz | | congruence].
  intros Hd. rewrite Hz1 by congruence. auto.
Qed.

Lemma set_at_fresh_keeps fs p v fs' :
  set_at fs p v = Some fs' -> get fs p = None -> keeps fs fs'.
Proof.
  intros Hset Hnone q c Hq.
  destruct (is_prefix p q) eqn:Epq.
  - apply is_prefix_spec in Epq as [r ->].
    rewrite get_app, Hnone in Hq. discriminate.
  - destruct (is_prefix q p) eqn:Eqp.
    + apply is_prefix_spec in Eqp as [r ->].
      assert (Hr : r <> []).
      { intros ->. rewrite app_nil_r in Epq.
        pose proof (is_prefix_app q []) as X. rewrite app_nil_r in X.
        congruence. }
      destruct (get_set_at_above _ _ _ _ q r Hset eq_refl Hr)
        as (m & es & es' & H1 & H2).
      rewrite H1 in Hq. injection Hq as <-.
      exists (Dir m es'). repeat split; [exact H2 | discriminate].
    + exists c. rewrite (get_set_at_apart _ _ _ _ q Hset); [auto |].
      now split.
Qed.

Lemma os_mkdir_keeps fs p fs' : os_mkdir fs p = Some fs' -> keeps fs fs'.
Proof.
  unfold os_mkdir. destruct p; [discriminate |].
  destruct (canon fs _) as [q |]; [| discriminate].
  destruct (get fs q) eqn:E; [discriminate |].
  intros H. eapply set_at_fresh_keeps; eauto.
Qed.

Lemma mkdir_from_keeps todo : forall fs done fs',
  mkdir_from fs done todo = Some fs' -> keeps fs fs'.
Proof.
  induction todo as [| k t IH]; intros fs done fs' H; simpl in H.
  - injection H as <-. apply keeps_refl.
  - destruct (is_dir fs (done ++ [k])); [eauto |].
    destruct (lstat fs (done ++ [k])); [discriminate |].
    destruct (os_mkdir fs (done ++ [k])) as [fs1 |] eqn:E; [| discriminate].
    eapply keeps_trans; [eapply os_mkdir_keeps; eauto | eauto].
Qed.


Section Containment.

Variable home : path.


Lemma restore_all_app s l1 l2 :
  restore_all s (l1 ++ l2) = restore_all (restore_all s l1) l2.
Proof. unfold restore_all. apply fold_left_app. Qed.

(** The three ways a turn of the restore loop ends. *)
Lemma restore_entry_counts s e :
  (r_errors (restore_entry s e) = r_errors s
   /\ r_out (restore_entry s e) = r_out s)
  \/ (r_errors (restore_entry s e) = S (r_errors s)
      /\ r_fs (restore_entry s e) = r_fs s
      /\ r_out (restore_entry s e)
         = r_out s ++ [Could_not_prepare (e_original e)])
  \/ (r_errors (restore_entry s e) = S (r_errors s)
      /\ r_out (restore_entry s e)
         = r_out s ++ [Could_not_restore (e_original e)]).
Proof.
  unfold restore_entry.
  destruct (path_eq_dec (e_original e) (e_root e)); [now left |].
  destruct (prepare (r_fs s) (e_original e)) as [fs1 |];
    [| right; left; now repeat split].
  destruct (is_file fs1 (e_backup e) || is_symlink fs1 (e_backup e)).
  - destruct (mkdir_parents fs1 _) as [fs2 |]; [| right; right; now split].
    destruct (is_symlink fs2 (e_backup e)).
    + destruct (readlink fs2 (e_backup e)) as [[a t] |];
        [| right; right; now split].
      destruct (os_symlink fs2 a t (e_original e));
        [now left | right; right; now split].
    + destruct (copy2 fs2 (e_backup e) (e_original e));
        [now left | right; right; now split].
  - destruct (mkdir_parents fs1 (e_original e));
      [now left | right; right; now split].
Qed.


End Containment.


(* ================================================================== *)
(** ** What the restore loop leaves behind *)





Lemma restored_Dir m es : restored (Dir m es) = Dir DEFAULT_DIR_MODE (merged [] es).
Proof. reflexivity. Qed.




Lemma nodupb_NoDup l : nodupb l = true -> NoDup l.
Proof.
  induction l as [| x r IH]; simpl; intros H; constructor.
  - apply andb_true_iff in H as [H _]. apply negb_true_iff in H.
    intros Hin. apply not_true_iff_false in H. apply H.
    apply existsb_exists. exists x. split; [exact Hin | apply String.eqb_refl].
  - apply andb_true_iff in H as [_ H]. auto.
Qed.

Lemma wfb_Dir m es :
  wfb (Dir m es) = true ->
  NoDup (names es) /\ Forall (fun e => wfb (snd e) = true) es.
Proof.
  simpl. intros H. apply andb_true_iff in H as [H1 H2]. split.
  - now apply nodupb_NoDup.
  - apply Forall_forall. intros e He.
    rewrite forallb_forall in H2. auto.
Qed.

(** *** Listings *)

Lemma set_child_present_comm k v k' v' Y :
  k <> k' -> assoc k Y <> None ->
  set_child k v (set_child k' v' (del_child k' Y))
  = set_child k' v' (del_child k' (set_child k v Y)).
Proof.
  intros Hne. induction Y as [| [k0 c] r IH]; simpl; intros Hk.
  - congruence.
  - destruct (String.eqb k k0) eqn:E1; destruct (String.eqb k' k0) eqn:E2;
      simpl; rewrite ?E1, ?E2; simpl; rewrite ?E1, ?E2.
    + apply String.eqb_eq in E1, E2. congruence.
    + reflexivity.
    + now apply IH.
    + f_equal. now apply IH.
Qed.

Lemma assoc_replace_entry_other f L e k :
  k <> fst e -> assoc k (replace_entry f L e) = assoc k L.
Proof.
  intros H. unfold replace_entry.
  rewrite assoc_set_child_other by congruence.
  apply assoc_del_child_other. congruence.
Qed.

Lemma assoc_fold_replace_other f es : forall L k,
  ~ In k (names es) ->
  assoc k (fold_left (replace_entry f) es L) = assoc k L.
Proof.
  induction es as [| e r IH]; intros L k H; simpl; [reflexivity |].
  rewrite IH by (intros X; apply H; now right).
  apply assoc_replace_entry_other. intros ->. apply H. now left.
Qed.

Lemma assoc_fold_replace_In f es : forall L k c,
  NoDup (names es) -> In (k, c) es ->
  assoc k (fold_left (replace_entry f) es L) = Some (f c).
Proof.
  induction es as [| e r IH]; intros L k c Hnd Hin; simpl; [contradiction |].
  inversion Hnd as [| ? ? Hnot Hnd']; subst.
  destruct Hin as [-> | Hin].
  - rewrite assoc_fold_replace_other by exact Hnot.
    unfold replace_entry. simpl. apply assoc_set_child_same.
  - now apply IH.
Qed.

Lemma fill_comm_replace k c es : forall Y,
  ~ In k (names es) -> assoc k Y <> None ->
  set_child k c (fold_left (replace_entry shallow) es Y)
  = fold_left (replace_entry shallow) es (set_child k c Y).
Proof.
  induction es as [| e r IH]; intros Y Hnot Hk; simpl; [reflexivity |].
  assert (Hne : k <> fst e) by (intros ->; apply Hnot; now left).
  rewrite IH.
  - f_equal. unfold replace_entry. now apply set_child_present_comm.
  - intros X. apply Hnot. now right.
  - rewrite assoc_replace_entry_other; auto.
Qed.

Lemma shallow_not_Dir c : is_Dir c = false -> shallow c = c /\ restored c = c.
Proof. destruct c; try discriminate; now split. Qed.

(** Two passes (every entry shallow, then every directory filled) give the
    listing of a single pass with the complete trees. *)
Lemma two_passes es : forall L,
  NoDup (names es) ->
  fold_left fill_entry es (fold_left (replace_entry shallow) es L)
  = merged L es.
Proof.
  unfold merged.
  induction es as [| [k c] r IH]; intros L Hnd; simpl; [reflexivity |].
  inversion Hnd as [| ? ? Hnot Hnd']; subst.
  rewrite <- (IH _ Hnd'). f_equal.
  unfold fill_entry at 1. simpl.
  destruct (is_Dir c) eqn:Ec.
  - rewrite fill_comm_replace; auto.
    + f_equal. unfold replace_entry. simpl. apply set_child_set_child.
    + unfold replace_entry. simpl. rewrite assoc_set_child_same. discriminate.
  - unfold replace_entry. simpl.
    destruct (shallow_not_Dir c Ec) as [-> ->]. reflexivity.
Qed.

(** *** One turn of the loop on an entry whose parents are real *)

Lemma apart_irrefl p : ~ apart p p.
Proof.
  intros [H _]. pose proof (is_prefix_app p []) as X.
  rewrite app_nil_r in X. congruence.
Qed.

Section Turn.

Variables (fs : node) (errs : nat) (out : list message).
Variables (R o b : path) (k : name).
Variables (bm : Z) (bes : list (name * node)) (c : node).
Variables (m : Z) (L : list (name * node)).

Hypothesis Hb : get fs b = Some (Dir bm bes).
Hypothesis Hc : assoc k bes = Some c.
Hypothesis Ho : get fs o = Some (Dir m L).
Hypothesis Hnolink : forall a t, assoc k L <> Some (Link a t).
Hypothesis Hapart : apart o b.
Hypothesis Hroot : o ++ [k] <> R.

Lemma turn_prepared :
  exists fs1,
    prepare fs (o ++ [k]) = Some fs1
    /\ get fs1 o = Some (Dir m (del_child k L))
    /\ get fs1 b = Some (Dir bm bes)
    /\ (forall v, set_at fs1 o v = set_at fs o v).
Proof.
  unfold prepare, exists_, is_file.
  destruct (assoc k L) as [x |] eqn:Ek.
  - assert (Hx : is_Link x = false).
    { destruct x; try reflexivity. exfalso. eapply Hnolink; eauto. }
    rewrite (stat_child _ _ _ _ Ho _ _ Ek Hx).
    rewrite (is_symlink_child _ _ _ _ Ho), Ek, Hx.
    destruct (set_at_defined fs o _ (Dir m (del_child k L)) Ho) as [fs1 H1].
    exists fs1.
    assert (Hprep : (if match x with File _ _ _ => true | _ => false end || false
                     then unlink fs (o ++ [k]) else rmtree fs (o ++ [k]))
                    = Some fs1).
    { destruct x; try discriminate; simpl.
      - now rewrite (unlink_child _ _ _ _ Ho _ _ Ek eq_refl).
      - now rewrite (rmtree_child _ _ _ _ Ho _ _ Ek eq_refl). }
    repeat split.
    + exact Hprep.
    + exact (get_set_at_same _ _ _ _ H1).
    + rewrite (get_set_at_apart _ _ _ _ b H1 Hapart). exact Hb.
    + intros v. exact (set_at_twice _ _ _ _ v H1).
  - rewrite (stat_child_absent _ _ _ _ Ho _ Ek).
    exists fs. rewrite (del_child_absent _ _ Ek). now repeat split.
Qed.

Lemma turn_restores :
  exists fs2,
    restore_entry (mk_rstate fs errs out)
                  (mk_entry R (o ++ [k]) (b ++ [k]))
    = mk_rstate fs2 errs out
    /\ set_at fs o (Dir m (replace_entry shallow L (k, c))) = Some fs2.
Proof.
  destruct turn_prepared as (fs1 & Hprep & Ho1 & Hb1 & Hset).
  unfold restore_entry. cbn [r_fs r_errors r_out e_root e_original e_backup].
  destruct (path_eq_dec (o ++ [k]) R) as [E | _]; [contradiction |].
  rewrite Hprep.
  assert (Hk1 : assoc k (del_child k L) = None) by apply assoc_del_child_same.
  unfold replace_entry. cbn [fst snd].
  destruct (set_at_defined fs1 o _
              (Dir m (set_child k (shallow c) (del_child k L))) Ho1)
    as [fs2 H2].
  exists fs2. split; [| now rewrite <- Hset].
  rewrite removelast_snoc.
  rewrite (mkdir_parents_dir _ _ _ _ Ho1).
  rewrite (is_symlink_child _ _ _ _ Hb1), Hc.
  destruct c as [d fm t | a t | cm ces]; cbn [is_Link shallow] in *.
  - unfold is_file. rewrite (stat_child _ _ _ _ Hb1 _ _ Hc eq_refl).
    cbn [orb]. unfold copy2.
    rewrite (stat_child _ _ _ _ Hb1 _ _ Hc eq_refl).
    unfold is_dir. rewrite (stat_child_absent _ _ _ _ Ho1 _ Hk1).
    rewrite (walk_child _ _ _ _ Ho1), Hk1.
    unfold realpath. rewrite (walk_child _ _ _ _ Hb1), Hc.
    destruct (path_eq_dec (b ++ [k]) (o ++ [k])) as [E | _].
    { apply app_inj_tail in E as [E _]. subst b.
      exfalso. exact (apart_irrefl _ Hapart). }
    rewrite get_snoc, Ho1, Hk1.
    rewrite (set_at_parent _ _ _ _ _ _ Ho1), H2. reflexivity.
  - rewrite orb_true_r. unfold readlink.
    rewrite (lstat_child _ _ _ _ Hb1), Hc.
    rewrite (os_symlink_child _ _ _ _ Ho1 _ _ _ Hk1), H2. reflexivity.
  - unfold is_file. rewrite (stat_child _ _ _ _ Hb1 _ _ Hc eq_refl).
    cbn [orb].
    rewrite (mkdir_parents_child _ _ _ _ _ Ho1 Hk1), H2. reflexivity.
Qed.

End Turn.

Lemma set_child_same k v es : assoc k es = Some v -> set_child k v es = es.
Proof.
  induction es as [| [k0 c] r IH]; simpl; [discriminate |].
  destruct (String.eqb_spec k k0) as [-> | Hne].
  - now intros [= ->].
  - intros H. now rewrite IH.
Qed.

Lemma set_at_get_id n p v : get n p = Some v -> set_at n p v = Some n.
Proof.
  revert n. induction p as [| k p IH]; intros n H; simpl in *; [congruence |].
  destruct n as [| | m es]; try discriminate.
  destruct (assoc k es) as [c |] eqn:E; [| discriminate].
  destruct p as [| k2 p].
  - simpl in H. injection H as ->. now rewrite set_child_same.
  - rewrite (IH _ H). now rewrite set_child_same.
Qed.


Lemma map_entry_for_rglob_node R B n : forall x,
  map (entry_for R B) (rglob_node (B ++ x) n) = rentries R (R ++ x) (B ++ x) n.
Proof.
  induction n as [| | m es IH] using node_ind'; intros x; try reflexivity.
  cbn [rglob_node rentries]. rewrite map_app. f_equal.
  - rewrite map_map. apply map_ext. intros [k c]. unfold entry_for. simpl.
    rewrite <- !app_assoc, PathMapperFacts.strip_prefix_app. reflexivity.
  - induction es as [| [k c] r IHr]; [reflexivity |].
    inversion IH as [| ? ? Hc Hr]; subst. simpl. rewrite map_app.
    f_equal; [| now apply IHr].
    destruct c; try reflexivity.
    simpl in Hc. specialize (Hc (x ++ [k])).
    now rewrite !app_assoc in Hc.
Qed.

Section Phases.

Variable R : path.


Section OneDirectory.

Variables (errs : nat) (out : list message).
Variables (o b : path) (bm : Z) (bes : list (name * node)) (m : Z).
Hypothesis Hapart : apart o b.
Hypothesis Hroot : forall x, x <> [] -> o ++ x <> R.

Lemma phase_children l : forall fs L,
  (forall k c, In (k, c) l -> assoc k bes = Some c) ->
  NoDup (names l) ->
  get fs b = Some (Dir bm bes) ->
  get fs o = Some (Dir m L) ->
  (forall k, In k (names l) -> forall a t, assoc k L <> Some (Link a t)) ->
  exists fs',
    restore_all (mk_rstate fs errs out)
                (map (fun e => mk_entry R (o ++ [fst e]) (b ++ [fst e])) l)
    = mk_rstate fs' errs out
    /\ set_at fs o (Dir m (fold_left (replace_entry shallow) l L)) = Some fs'.
Proof.
  induction l as [| [k c] r IH]; intros fs L Hin Hnd Hb Ho Hnl.
  - exists fs. split; [reflexivity |]. simpl. now apply set_at_get_id.
  - inversion Hnd as [| ? ? Hnot Hnd']; subst.
    destruct (turn_restores fs errs out R o b k bm bes c m L Hb
                (Hin k c (or_introl eq_refl)) Ho
                (Hnl k (or_introl eq_refl)) Hapart
                (Hroot [k] ltac:(discriminate)))
      as (fs2 & Hstep & Hset).
    destruct (IH fs2 (replace_entry shallow L (k, c))) as (fs' & Hrest & Hset').
    + intros k' c' H. apply Hin. now right.
    + exact Hnd'.
    + rewrite (get_set_at_apart _ _ _ _ b Hset Hapart). exact Hb.
    + exact (get_set_at_same _ _ _ _ Hset).
    + intros k' Hk' a t.
      rewrite assoc_replace_entry_other.
      * apply Hnl. now right.
      * simpl. intros ->. contradiction.
    + exists fs'. split.
      * cbn [map restore_all fold_left]. cbn [fst].
        unfold restore_all in Hrest. now rewrite Hstep.
      * simpl. now rewrite <- (set_at_twice _ _ _ _ _ Hset).
Qed.

Lemma phase_fill l :
  Forall (fun e => restores_dir R (snd e)) l ->
  forall fs X,
    (forall k c, In (k, c) l -> assoc k bes = Some c) ->
    (forall k c, In (k, c) l -> wfb c = true) ->
    NoDup (names l) ->
    get fs b = Some (Dir bm bes) ->
    get fs o = Some (Dir m X) ->
    (forall k c, In (k, c) l -> is_Dir c = true ->
                 assoc k X = Some (Dir DEFAULT_DIR_MODE [])) ->
    exists fs',
      restore_all (mk_rstate fs errs out)
        (flat_map (fun e => let '(k, c) := e in
                            match c with
                            | Dir _ _ => rentries R (o ++ [k]) (b ++ [k]) c
                            | _ => []
                            end) l)
      = mk_rstate fs' errs out
      /\ set_at fs o (Dir m (fold_left fill_entry l X)) = Some fs'.
Proof.
  induction l as [| [k c] r IH]; intros HP fs X Hin Hwf Hnd Hb Ho Hempty.
  - exists fs. split; [reflexivity |]. simpl. now apply set_at_get_id.
  - inversion Hnd as [| ? ? Hnot Hnd']; subst.
    inversion HP as [| ? ? Hc HPr]; subst. simpl in Hc.
    assert (Hstep : exists fs1,
               restore_all (mk_rstate fs errs out)
                 (match c with
                  | Dir _ _ => rentries R (o ++ [k]) (b ++ [k]) c
                  | _ => []
                  end) = mk_rstate fs1 errs out
               /\ set_at fs o (Dir m (fill_entry X (k, c))) = Some fs1).
    { unfold fill_entry. simpl.
      destruct c as [| | cm ces]; simpl;
        try (exists fs; split; [reflexivity | now apply set_at_get_id]).
      destruct (Hc fs errs out (o ++ [k]) (b ++ [k]) DEFAULT_DIR_MODE [])
        as (fs1 & H1 & H2).
      - apply (Hwf k). now left.
      - rewrite get_snoc, Hb. apply Hin. now left.
      - rewrite get_snoc, Ho. apply (Hempty k (Dir cm ces)); [now left | reflexivity].
      - intros k' _ a t. discriminate.
      - apply apart_app_l, apart_app_r, Hapart.
      - intros x Hx. rewrite <- app_assoc. apply Hroot. discriminate.
      - exists fs1. split; [exact H1 |].
        rewrite <- (set_at_parent _ _ _ _ _ _ Ho). exact H2. }
    destruct Hstep as (fs1 & Hstep & Hset).
    assert (Hap1 : forall v fsx, set_at fs o v = Some fsx ->
                                 get fsx b = Some (Dir bm bes)).
    { intros v fsx H. rewrite (get_set_at_apart _ _ _ _ b H Hapart).
      exact Hb. }
    destruct (IH HPr fs1 (fill_entry X (k, c))) as (fs' & Hrest & Hset').
    + intros k' c' H. apply Hin. now right.
    + intros k' c' H. apply (Hwf k'). now right.
    + exact Hnd'.
    + eapply Hap1; eauto.
    + exact (get_set_at_same _ _ _ _ Hset).
    + intros k' c' Hk' Hd. unfold fill_entry. simpl.
      assert (Hne : k <> k').
      { intros ->. apply Hnot. change k' with (fst (k', c')).
        now apply in_map. }
      destruct (is_Dir c).
      * rewrite assoc_set_child_other by exact Hne.
        apply (Hempty k' c'); [now right | exact Hd].
      * apply (Hempty k' c'); [now right | exact Hd].
    + exists fs'. split.
      * cbn [flat_map]. rewrite restore_all_app, Hstep. exact Hrest.
      * simpl. now rewrite <- (set_at_twice _ _ _ _ _ Hset).
Qed.

End OneDirectory.

Lemma restores_every_dir n : restores_dir R n.
Proof.
  induction n as [| | bm bes IH] using node_ind';
    intros fs errs out o b mo L Hwf Hb Ho Hnl Hapart Hroot.
  - exists fs. split; [reflexivity | now apply set_at_get_id].
  - exists fs. split; [reflexivity | now apply set_at_get_id].
  - destruct (wfb_Dir _ _ Hwf) as [Hnd Hwfc].
    assert (Hin : forall k c, In (k, c) bes -> assoc k bes = Some c)
      by (intros; now apply In_assoc_NoDup).
    destruct (phase_children errs out o b bm bes mo Hapart Hroot bes fs L
                Hin Hnd Hb Ho Hnl) as (fs1 & H1 & Hset1).
    destruct (phase_fill errs out o b bm bes mo Hapart Hroot bes IH fs1
                (fold_left (replace_entry shallow) bes L))
      as (fs2 & H2 & Hset2).
    + exact Hin.
    + intros k c H. rewrite Forall_forall in Hwfc. exact (Hwfc _ H).
    + exact Hnd.
    + rewrite (get_set_at_apart _ _ _ _ b Hset1 Hapart). exact Hb.
    + exact (get_set_at_same _ _ _ _ Hset1).
    + intros k c H Hd.
      rewrite (assoc_fold_replace_In shallow bes L k c Hnd H).
      destruct c; try discriminate. reflexivity.
    + exists fs2. split.
      * cbn [rentries]. rewrite restore_all_app, H1. exact H2.
      * rewrite <- (two_passes bes L Hnd).
        now rewrite <- (set_at_twice _ _ _ _ _ Hset1).
Qed.

End Phases.

(* ================================================================== *)
(** ** The whole restore pass *)



Lemma apartb_apart p q : apartb p q = true <-> apart p q.
Proof.
  unfold apartb, apart. rewrite andb_true_iff, !negb_true_iff. tauto.
Qed.

Lemma apart_same_length p : forall q,
  List.length p = List.length q -> p <> q -> apart p q.
Proof.
  induction p as [| x p IH]; intros [| y q] Hlen Hne; simpl in Hlen;
    try discriminate; try congruence.
  destruct (String.eqb_spec x y) as [-> | Hxy].
  - apply apart_cons, IH; [lia | congruence].
  - unfold apart. simpl.
    destruct (String.eqb_spec x y), (String.eqb_spec y x); try congruence.
    now split.
Qed.

Section Pass.

Variable home : path.
#[local] Abbreviation STORE := (BACKUP_DIR home).


Lemma ready_spec fs r :
  ready home fs r = true ->
  exists bm bes rm L,
    get fs (snd r) = Some (Dir bm bes)
    /\ wfb (Dir bm bes) = true
    /\ get fs (fst r) = Some (Dir rm L)
    /\ (forall k, In k (names bes) ->
                  forall a t, assoc k L <> Some (Link a t))
    /\ apart (fst r) STORE.
Proof.
  unfold ready.
  destruct (get fs (snd r)) as [[| | bm bes] |]; try discriminate.
  destruct (get fs (fst r)) as [[| | rm L] |]; try discriminate.
  intros H. apply andb_true_iff in H as [H H3].
  apply andb_true_iff in H as [H1 H2].
  exists bm, bes, rm, L.
  split; [reflexivity | split; [exact H1 | split; [reflexivity | split]]].
  - intros k Hk a t E. rewrite forallb_forall in H2.
    specialize (H2 _ Hk). unfold no_link_at in H2. rewrite E in H2.
    discriminate.
  - now apply apartb_apart.
Qed.


Lemma entries_of_root_planned fs r :
  ready home fs r = true -> entries_of_root fs r = planned fs r.
Proof.
  intros H. destruct (ready_spec _ _ H) as (bm & bes & _ & _ & Hb & _).
  unfold entries_of_root, planned, rglob.
  rewrite (stat_get _ _ _ Hb eq_refl), Hb.
  pose proof (map_entry_for_rglob_node (fst r) (snd r) (Dir bm bes) []) as X.
  now rewrite !app_nil_r in X.
Qed.

Lemma restore_roots fs0 l : forall fs errs out,
  (forall r, In r l -> ready home fs r = true) ->
  (forall r, In r l -> get fs (snd r) = get fs0 (snd r)) ->
  (forall r, In r l -> List.length (fst r) = 2 /\ snd r = STORE ++ fst r) ->
  NoDup (map fst l) ->
  exists fs',
    restore_all (mk_rstate fs errs out) (flat_map (planned fs0) l)
    = mk_rstate fs' errs out
    /\ (forall q, (forall r, In r l -> apart (fst r) q) ->
                  get fs' q = get fs q)
    /\ (forall r, In r l ->
          exists bm bes rm L,
            get fs (snd r) = Some (Dir bm bes)
            /\ get fs (fst r) = Some (Dir rm L)
            /\ get fs' (fst r) = Some (Dir rm (merged L bes))).
Proof.
  induction l as [| [R B] l IH]; intros fs errs out Hready Hsame Hshape Hnd.
  - exists fs. repeat split; auto. intros r [].
  - inversion Hnd as [| ? ? Hnot Hnd']; subst.
    destruct (ready_spec _ _ (Hready _ (or_introl eq_refl)))
      as (bm & bes & rm & L & Hb & Hwf & Ho & Hnl & Hap).
    simpl in Hb, Ho, Hap, Hnl.
    destruct (Hshape _ (or_introl eq_refl)) as [Hlen HB]. simpl in Hlen, HB.
    assert (HapB : forall x, apart R (STORE ++ x))
      by (intros x; now apply apart_app_r).
    destruct (restores_every_dir R (Dir bm bes) fs errs out R B rm L)
      as (fs1 & H1 & Hset); auto.
    { rewrite HB. apply HapB. }
    { intros x Hx E. apply (f_equal (@List.length _)) in E.
      rewrite length_app in E. destruct x; [congruence | simpl in E; lia]. }
    assert (Hother : forall r, In r l -> apart R (fst r)).
    { intros r Hr. apply apart_same_length.
      - destruct (Hshape r (or_intror Hr)) as [-> _]. exact Hlen.
      - intros ->. apply Hnot. now apply in_map. }
    assert (Hkeep : forall r, In r l ->
              get fs1 (fst r) = get fs (fst r)
              /\ get fs1 (snd r) = get fs (snd r)).
    { intros r Hr. split.
      - apply (get_set_at_apart _ _ _ _ _ Hset), Hother, Hr.
      - destruct (Hshape r (or_intror Hr)) as [_ ->].
        apply (get_set_at_apart _ _ _ _ _ Hset), HapB. }
    destruct (IH fs1 errs out) as (fs' & Hrest & Hframe & Hroots); auto.
    { intros r Hr. destruct (Hkeep r Hr) as [E1 E2].
      unfold ready. rewrite E1, E2. apply Hready. now right. }
    { intros r Hr. destruct (Hkeep r Hr) as [_ ->]. apply Hsame. now right. }
    { intros r Hr. apply Hshape. now right. }
    exists fs'. split; [| split].
    + cbn [flat_map]. rewrite restore_all_app.
      unfold planned at 1. cbn [fst snd].
      pose proof (Hsame (R, B) (or_introl eq_refl)) as HS. cbn [snd] in HS.
      rewrite <- HS, Hb, H1. exact Hrest.
    + intros q Hq. rewrite Hframe by (intros r Hr; apply Hq; now right).
      apply (get_set_at_apart _ _ _ _ _ Hset).
      apply (Hq (R, B)). now left.
    + intros r [<- | Hr].
      * exists bm, bes, rm, L. cbn [fst snd]. repeat split; auto.
        rewrite Hframe.
        -- exact (get_set_at_same _ _ _ _ Hset).
        -- intros r Hr. apply apart_sym, Hother, Hr.
      * destruct (Hroots r Hr) as (bm' & bes' & rm' & L' & E1 & E2 & E3).
        destruct (Hkeep r Hr) as [K1 K2].
        exists bm', bes', rm', L'. rewrite <- K1, <- K2. auto.
Qed.

Lemma reset_outcome fs :
  is_dir fs STORE = true ->
  reset home fs []
  = let s := restore_all (mk_rstate fs 0 []) (fst (scan home fs)) in
    mk_outcome (r_fs s)
               (r_out s ++ summary (snd (scan home fs)) (r_errors s))
               false.
Proof.
  intros H. unfold reset.
  assert (E : exists_ fs STORE = true).
  { unfold exists_. unfold is_dir in H. now destruct (stat fs STORE). }
  rewrite E, H. simpl. now destruct (scan home fs).
Qed.

(** The pass as a whole, on a filesystem whose tracked roots are ready
    and distinct. *)
Lemma reset_pass fs :
  is_dir fs STORE = true ->
  forallb (ready home fs) (tracked_roots home fs) = true ->
  NoDup (map fst (tracked_roots home fs)) ->
  exists fs',
    reset home fs []
    = mk_outcome fs' (summary (snd (scan home fs)) 0) false
    /\ (forall q, (forall r, In r (tracked_roots home fs) -> apart (fst r) q) ->
                  get fs' q = get fs q)
    /\ (forall r, In r (tracked_roots home fs) ->
          exists bm bes rm L,
            get fs (snd r) = Some (Dir bm bes)
            /\ get fs (fst r) = Some (Dir rm L)
            /\ get fs' (fst r) = Some (Dir rm (merged L bes))).
Proof.
  intros Hdir Hready Hnd. rewrite forallb_forall in Hready.
  destruct (restore_roots fs (tracked_roots home fs) fs 0 [])
    as (fs' & Hrun & Hframe & Hroots); auto.
  { intros [R B] Hr. apply tracked_roots_In in Hr as (a & b & -> & -> & _).
    now split. }
  exists fs'. split; [| split; assumption].
  rewrite (reset_outcome fs Hdir), scan_fst.
  replace (flat_map (entries_of_root fs) (tracked_roots home fs))
    with (flat_map (planned fs) (tracked_roots home fs)).
  - rewrite Hrun. reflexivity.
  - rewrite !flat_map_concat_map. f_equal. apply map_ext_in.
    intros r Hr. symmetry. apply entries_of_root_planned. now apply Hready.
Qed.

End Pass.

Section Guarantees.

Variable home : path.
#[local] Abbreviation STORE := (BACKUP_DIR home).


(** What [reset] leaves in the tracked roots, under the same conditions:
    no error, every captured name holds the restored tree, every other
    name directly inside a root is left alone. *)
Lemma reset_restores_roots fs :
  is_dir fs STORE = true ->
  forallb (ready home fs) (tracked_roots home fs) = true ->
  NoDup (map fst (tracked_roots home fs)) ->
  printed (reset home fs []) = summary (snd (scan home fs)) 0
  /\ forall R B bm bes,
       In (R, B) (tracked_roots home fs) ->
       get fs B = Some (Dir bm bes) ->
       (forall k c, assoc k bes = Some c ->
                    get (fs_of (reset home fs [])) (R ++ [k])
                    = Some (restored c))
       /\ (forall k, assoc k bes = None ->
                     get (fs_of (reset home fs [])) (R ++ [k])
                     = get fs (R ++ [k])).
Proof.
  intros Hdir Hready Hnd.
  destruct (reset_pass home fs Hdir Hready Hnd) as (fs' & -> & _ & Hroots).
  split; [reflexivity |]. intros R B bm bes Hr Hb. simpl.
  destruct (Hroots _ Hr) as (bm' & bes' & rm & L & Hb' & Ho & Ho').
  simpl in Hb', Ho, Ho'. rewrite Hb in Hb'. injection Hb' as <- <-.
  rewrite forallb_forall in Hready.
  destruct (ready_spec _ _ _ (Hready _ Hr))
    as (bm2 & bes2 & _ & _ & Hb2 & Hwf & _).
  simpl in Hb2. rewrite Hb in Hb2. injection Hb2 as <- <-.
  destruct (wfb_Dir _ _ Hwf) as [Hnd' _].
  split.
  - intros k c Hk. rewrite get_snoc, Ho'. unfold merged.
    apply assoc_fold_replace_In; [exact Hnd' | now apply assoc_In].
  - intros k Hk. rewrite !get_snoc, Ho', Ho. unfold merged.
    apply assoc_fold_replace_other. now apply assoc_None_names.
Qed.

End Guarantees.


(* ================================================================== *)
(** ** What [track] captures *)


Lemma copy_with_permissions_file fs p d m t :
  get fs p = Some (File d m t) ->
  copy_with_permissions fs p = Some (File d (Z.lor m WRITE_PERMISSION) t).
Proof.
  intros H. unfold copy_with_permissions, is_dir, copy2_obj.
  now rewrite (stat_get _ _ _ H eq_refl).
Qed.

Lemma copytree_obj_captured fs T : forall P,
  wfb T = true -> get fs P = Some T -> is_Dir T = true ->
  copytree_obj (copy_with_permissions fs) T P = Some (captured T).
Proof.
  induction T as [| | m es IH] using node_ind'; intros P Hwf HP Hd;
    try discriminate.
  rewrite copytree_obj_Dir. cbn [captured].
  destruct (wfb_Dir _ _ Hwf) as [Hnd Hwfc].
  assert (Hin : forall k c, In (k, c) es -> get fs (P ++ [k]) = Some c).
  { intros k c H. rewrite get_snoc, HP. now apply In_assoc_NoDup. }
  clear HP Hwf Hnd Hd.
  assert (E : copy_entries (copy_with_permissions fs) P es
              = Some (map (fun e => (fst e, captured (snd e))) es));
    [| now rewrite E].
  induction es as [| [k c] r IHr]; [reflexivity |].
  inversion IH as [| ? ? Hc Hr]; subst.
  inversion Hwfc as [| ? ? Hwc Hwr]; subst.
  simpl in Hc, Hwc. cbn [copy_entries map fst snd].
  fold (copy_entries (copy_with_permissions fs) P).
  rewrite IHr; auto.
  2:{ intros k' c' H. apply Hin. now right. }
  pose proof (Hin k c (or_introl eq_refl)) as Hk.
  destruct c as [d fm t | a t | cm ces].
  - now rewrite (copy_with_permissions_file _ _ _ _ _ Hk).
  - reflexivity.
  - now rewrite (Hc (P ++ [k]) Hwc Hk eq_refl).
Qed.

Lemma get_parent_write_apart fs d m es es' fs' k q :
  get fs d = Some (Dir m es) ->
  set_at fs d (Dir m es') = Some fs' ->
  (forall k', k' <> k -> assoc k' es' = assoc k' es) ->
  apart q (d ++ [k]) ->
  get fs' q = get fs q.
Proof.
  intros Hd Hset Hsame [Hq1 Hq2].
  destruct (is_prefix d q) eqn:Edq.
  - apply is_prefix_spec in Edq as [r ->].
    destruct r as [| k' r].
    + rewrite app_nil_r in Hq1. rewrite is_prefix_app in Hq1. discriminate.
    + assert (Hne : k' <> k).
      { intros ->.
        replace (d ++ k :: r) with ((d ++ [k]) ++ r) in Hq2
          by now rewrite <- app_assoc.
        rewrite is_prefix_app in Hq2. discriminate. }
      rewrite !get_app, (get_set_at_same _ _ _ _ Hset), Hd.
      cbn [get]. now rewrite Hsame.
  - apply (get_set_at_apart _ _ _ _ _ Hset). split; [exact Edq |].
    destruct (is_prefix q d) eqn:Eqd; [| reflexivity].
    rewrite <- Hq1. symmetry.
    apply (is_prefix_trans q d (d ++ [k])); [exact Eqd | apply is_prefix_app].
Qed.

Section Capture.

Variable home : path.
#[local] Abbreviation STORE := (BACKUP_DIR home).
#[local] Abbreviation dot := ".foam_backup".


Lemma emptied_frame fs fs1 q :
  emptied home fs = Some fs1 -> apart q STORE -> get fs1 q = get fs q.
Proof.
  unfold emptied.
  destruct (get fs home) as [[| | hm hes] |] eqn:Hh; try discriminate.
  intros H Hq. eapply get_parent_write_apart; eauto.
  intros k' Hk'. rewrite assoc_set_child_other by congruence.
  apply assoc_del_child_other. congruence.
Qed.

Lemma track_start fs folders :
  store_usable home fs = true ->
  exists fs1, emptied home fs = Some fs1
              /\ track home fs folders = track_loop home fs1 folders [].
Proof.
  unfold store_usable.
  destruct (get fs home) as [[| | hm hes] |] eqn:Hh; try discriminate.
  destruct (assoc dot hes) as [[| | sm ses] |] eqn:Hs; try discriminate;
    intros _.
  - assert (H : get fs STORE = Some (Dir sm ses))
      by (unfold BACKUP_DIR; now rewrite get_snoc, Hh).
    destruct (track_starts_empty home fs sm ses folders H)
      as (fs0 & fs1 & _ & _ & He & _ & Ht & _).
    eauto.
  - destruct (set_at_defined fs home _
                (Dir hm (set_child dot (Dir DEFAULT_DIR_MODE [])
                                   (del_child dot hes))) Hh) as [fs1 H1].
    exists fs1. split.
    + unfold emptied. now rewrite Hh.
    + unfold track.
      assert (Hex : exists_ fs STORE = false).
      { unfold exists_, BACKUP_DIR.
        now rewrite (stat_child_absent _ _ _ _ Hh _ Hs). }
      rewrite Hex. unfold ensure_backup_dir. rewrite Hex.
      rewrite (mkdir_parents_dir _ _ _ _ Hh). unfold BACKUP_DIR.
      rewrite (os_mkdir_child _ _ _ _ Hh _ Hs).
      rewrite (del_child_absent _ _ Hs) in H1. now rewrite H1.
Qed.

End Capture.

Lemma assoc_app k l1 l2 :
  assoc k (l1 ++ l2) = match assoc k l1 with Some c => Some c | None => assoc k l2 end.
Proof.
  induction l1 as [| [k0 c] r IH]; simpl; [reflexivity |].
  destruct (String.eqb k k0); [reflexivity | exact IH].
Qed.

Lemma fold_replace_fresh f es : forall L,
  NoDup (names es) ->
  (forall k, In k (names es) -> assoc k L = None) ->
  fold_left (replace_entry f) es L = L ++ map (fun e => (fst e, f (snd e))) es.
Proof.
  induction es as [| [k c] r IH]; intros L Hnd Hfree; simpl.
  - now rewrite app_nil_r.
  - inversion Hnd as [| ? ? Hnot Hnd']; subst.
    assert (Hk : assoc k L = None) by (apply Hfree; now left).
    unfold replace_entry at 2. cbn [fst snd].
    rewrite (del_child_absent _ _ Hk), (set_child_absent _ _ _ Hk).
    rewrite IH; auto.
    + now rewrite <- app_assoc.
    + intros k' Hk'. rewrite assoc_app, (Hfree k' (or_intror Hk')). simpl.
      destruct (String.eqb_spec k' k) as [-> | _]; [contradiction | reflexivity].
Qed.


Lemma names_captured es :
  names (map (fun e => (fst e, captured (snd e))) es) = names es.
Proof. unfold names. rewrite map_map. now apply map_ext. Qed.

Lemma wfb_captured c : wfb c = true -> wfb (captured c) = true.
Proof.
  induction c as [| | m es IH] using node_ind'; intros H; try reflexivity.
  cbn [captured wfb] in *. apply andb_true_iff in H as [H1 H2].
  apply andb_true_iff. split.
  - rewrite map_map. simpl.
    erewrite map_ext; [exact H1 | reflexivity].
  - rewrite forallb_forall in *. intros e He.
    apply in_map_iff in He as (e0 & <- & He0). simpl.
    rewrite Forall_forall in IH. apply IH; auto.
Qed.

Lemma assoc_captured k es :
  assoc k (map (fun e => (fst e, captured (snd e))) es)
  = match assoc k es with Some c => Some (captured c) | None => None end.
Proof.
  induction es as [| [k0 c] r IH]; simpl; [reflexivity |].
  destruct (String.eqb k k0); [reflexivity | exact IH].
Qed.

(** Captured by [track], then built again by [reset]: the tree is the one
    that was there, permission bits aside. *)
Lemma content_restored_captured c :
  wfb c = true -> content (restored (captured c)) = content c.
Proof.
  induction c as [| | m es IH] using node_ind'; intros H; try reflexivity.
  destruct (wfb_Dir _ _ H) as [Hnd Hwf].
  cbn [captured]. rewrite restored_Dir. unfold merged.
  rewrite fold_replace_fresh.
  - cbn [app content]. f_equal. rewrite !map_map. cbn [fst snd].
    apply map_ext_in. intros e He. f_equal.
    rewrite Forall_forall in IH, Hwf. apply IH; auto.
  - now rewrite names_captured.
  - reflexivity.
Qed.

Section RoundTrip.

Variable home : path.
#[local] Abbreviation STORE := (BACKUP_DIR home).

Lemma dest_posix p :
  PathMapper.toBackupPath PathMapper.Posix (as_ppath STORE) (as_ppath p)
  = Some (PathMapper.mk_ppath "/" (STORE ++ p)).
Proof. reflexivity. Qed.

Lemma two_levels a b : STORE ++ [a; b] = (STORE ++ [a]) ++ [b].
Proof. now rewrite <- app_assoc. Qed.

(** [track] of one folder [/a/b]. *)
Lemma track_single fs0 a b tm tes :
  store_usable home fs0 = true ->
  get fs0 [a; b] = Some (Dir tm tes) ->
  wfb (Dir tm tes) = true ->
  apart [a; b] STORE ->
  exists fs3,
    track home fs0 [[a; b]]
    = mk_outcome fs3 [Tracked_folder [a; b] (STORE ++ [a; b]);
                      Folders_have_been_tracked] false
    /\ get fs3 STORE
       = Some (Dir DEFAULT_DIR_MODE
                 [(a, Dir DEFAULT_DIR_MODE [(b, captured (Dir tm tes))])])
    /\ (forall q, apart q STORE -> get fs3 q = get fs0 q).
Proof.
  intros Hus HP Hwf Hap.
  destruct (track_start home fs0 [[a; b]] Hus) as (fs1 & He & ->).
  pose proof (emptied_store _ _ _ He) as Hs1.
  assert (HP1 : get fs1 [a; b] = Some (Dir tm tes))
    by (rewrite (emptied_frame _ _ _ _ He Hap); exact HP).
  (* the parent of the destination *)
  destruct (set_at_defined fs1 STORE _
              (Dir DEFAULT_DIR_MODE
                 (set_child a (Dir DEFAULT_DIR_MODE []) [])) Hs1) as [fs2 H2].
  assert (Hs2 : get fs2 (STORE ++ [a]) = Some (Dir DEFAULT_DIR_MODE [])).
  { rewrite get_snoc, (get_set_at_same _ _ _ _ H2).
    apply assoc_set_child_same. }
  assert (HP2 : get fs2 [a; b] = Some (Dir tm tes)).
  { rewrite (get_set_at_apart _ _ _ _ _ H2 (apart_sym _ _ Hap)). exact HP1. }
  (* the copy *)
  destruct (set_at_defined fs2 (STORE ++ [a]) _
              (Dir DEFAULT_DIR_MODE
                 (set_child b (captured (Dir tm tes)) [])) Hs2) as [fs3 H3].
  assert (Hcopy : copytree fs2 (copy_with_permissions fs2) [a; b]
                           ((STORE ++ [a]) ++ [b]) = Some fs3).
  { unfold copytree. rewrite (realpath_dir _ _ _ _ HP2), HP2.
    rewrite removelast_snoc, (mkdir_parents_dir _ _ _ _ Hs2).
    destruct ((STORE ++ [a]) ++ [b]) as [| x rest] eqn:E;
      [now apply snoc_not_nil in E |].
    rewrite <- E. rewrite (canon_child _ _ _ _ Hs2), get_snoc, Hs2.
    cbn [assoc].
    assert (Hpre : is_prefix [a; b] ((STORE ++ [a]) ++ [b]) = false).
    { rewrite <- two_levels. exact (proj1 (apart_app_r _ _ [a; b] Hap)). }
    rewrite Hpre, (copytree_obj_captured _ _ _ Hwf HP2 eq_refl).
    rewrite (set_at_parent _ _ _ _ _ _ Hs2). exact H3. }
  exists fs3. split; [| split].
  - cbn [track_loop]. unfold track_folder, resolve.
    rewrite (realpath_dir _ _ _ _ HP1).
    rewrite (exists_get _ _ _ HP1 eq_refl), (is_dir_get _ _ _ _ HP1).
    cbn [andb]. rewrite dest_posix. cbn [PathMapper.parts].
    rewrite two_levels, removelast_snoc.
    rewrite (mkdir_parents_child _ _ _ _ _ Hs1 eq_refl), H2, Hcopy.
    reflexivity.
  - pose proof (set_at_child _ _ _ _ _ _ _ _ H2 H3) as H13.
    rewrite (get_set_at_same _ _ _ _ H13).
    cbn [set_child]. now rewrite String.eqb_refl.
  - intros q Hq.
    pose proof (set_at_child _ _ _ _ _ _ _ _ H2 H3) as H13.
    rewrite (get_set_at_apart _ _ _ _ _ H13 (apart_sym _ _ Hq)).
    exact (emptied_frame _ _ _ _ He Hq).
Qed.

Lemma tracked_roots_single fs a b m0 m1 X :
  get fs STORE = Some (Dir m0 [(a, Dir m1 [(b, X)])]) ->
  is_Dir X = true ->
  tracked_roots home fs = [([a; b], STORE ++ [a; b])].
Proof.
  intros Hs HX.
  assert (Ha : get fs (STORE ++ [a]) = Some (Dir m1 [(b, X)])).
  { rewrite get_snoc, Hs. cbn [assoc]. now rewrite String.eqb_refl. }
  assert (Hb : get fs ((STORE ++ [a]) ++ [b]) = Some X).
  { rewrite get_snoc, Ha. cbn [assoc]. now rewrite String.eqb_refl. }
  unfold tracked_roots, iterdir.
  rewrite (stat_get _ _ _ Hs eq_refl). cbn [map flat_map fst].
  rewrite (is_dir_get _ _ _ _ Ha), (stat_get _ _ _ Ha eq_refl).
  cbn [map flat_map fst]. destruct X as [| | xm xes]; try discriminate.
  rewrite (is_dir_get _ _ _ _ Hb), root_of_two_levels, two_levels.
  reflexivity.
Qed.

End RoundTrip.

Section RoundTripTheorem.

Variable home : path.
#[local] Abbreviation STORE := (BACKUP_DIR home).


End RoundTripTheorem.


(* ================================================================== *)
(** ** The error lines of [reset] *)

Lemma restore_all_errors l : forall s,
  exists lines,
    r_out (restore_all s l) = r_out s ++ lines
    /\ r_errors (restore_all s l) = r_errors s + List.length lines
    /\ List.length lines <= List.length l
    /\ Forall (error_line_of l) lines.
Proof.
  induction l as [| e l IH] using rev_ind; intros s.
  - exists []. simpl. rewrite app_nil_r. repeat split; auto.
  - rewrite restore_all_app. cbn [restore_all fold_left].
    destruct (IH s) as (lines & Hout & Herr & Hlen & Hall).
    fold (restore_all s l).
    assert (Hmono : Forall (error_line_of (l ++ [e])) lines).
    { eapply Forall_impl; [| exact Hall].
      intros m0 (e0 & Hin & Hm). exists e0. split; [| exact Hm].
      apply in_or_app. now left. }
    assert (Hroot : e_original e = e_root e ->
                    restore_entry (restore_all s l) e = restore_all s l).
    { intros E. unfold restore_entry.
      destruct (path_eq_dec (e_original e) (e_root e)); [reflexivity | contradiction]. }
    destruct (path_eq_dec (e_original e) (e_root e)) as [E | NE].
    { rewrite (Hroot E). exists lines. rewrite length_app. simpl.
      repeat split; auto; lia. }
    destruct (restore_entry_counts (restore_all s l) e)
      as [(E1 & E2) | [(E1 & _ & E2) | (E1 & E2)]].
    + exists lines. rewrite E1, E2, length_app. simpl.
      repeat split; auto; lia.
    + exists (lines ++ [Could_not_prepare (e_original e)]).
      rewrite E1, E2, Hout, Herr, !length_app. simpl.
      repeat split; try lia.
      * now rewrite app_assoc.
      * apply Forall_app. split; [exact Hmono |].
        constructor; [| constructor]. exists e. split; [| split; auto].
        apply in_or_app. right. now left.
    + exists (lines ++ [Could_not_restore (e_original e)]).
      rewrite E1, E2, Hout, Herr, !length_app. simpl.
      repeat split; try lia.
      * now rewrite app_assoc.
      * apply Forall_app. split; [exact Hmono |].
        constructor; [| constructor]. exists e. split; [| split; auto].
        apply in_or_app. right. now left.
Qed.

(** X8: whatever the state of the original folders, a [reset] that finds
    the store runs to its end; what it prints is the error lines of the
    restore loop followed by the summary, the number in the summary's
    error line is the number of error lines printed, there is at most one
    error line per entry of [paths_to_reset], and each names the original
    path of an entry other than a root. *)
Theorem reset_counts_its_error_lines home fs :
  is_dir fs (BACKUP_DIR home) = true ->
  exists lines,
    printed (reset home fs [])
    = lines ++ summary (snd (scan home fs)) (List.length lines)
    /\ crashed (reset home fs []) = false
    /\ List.length lines <= List.length (fst (scan home fs))
    /\ Forall (error_line_of (fst (scan home fs))) lines.
Proof.
  intros H. rewrite (reset_outcome home fs H). cbn [printed crashed].
  destruct (restore_all_errors (fst (scan home fs)) (mk_rstate fs 0 []))
    as (lines & Hout & Herr & Hlen & Hall).
  exists lines. cbn [r_out r_errors] in Hout, Herr. simpl in Hout, Herr.
  rewrite Hout, Herr. repeat split; auto.
Qed.

Lemma reset_counts_its_error_lines_witness :
  is_dir Scenario.fs_mutated Scenario.store = true
  /\ exists lines,
       printed (reset Scenario.home Scenario.fs_mutated [])
       = lines ++ summary (snd (scan Scenario.home Scenario.fs_mutated))
                          (List.length lines).
Proof.
  split; [reflexivity |].
  destruct (reset_counts_its_error_lines Scenario.home Scenario.fs_mutated
              eq_refl) as (lines & H1 & _).
  exists lines. exact H1.
Defined.

(* ================================================================== *)
(** ** What the scan counts *)

Lemma set_add_path_In p s q : In q (set_add_path p s) <-> q = p \/ In q s.
Proof.
  unfold set_add_path. destruct (in_dec path_eq_dec p s) as [H | H].
  - split; [auto | intros [-> | ?]; auto].
  - rewrite in_app_iff. simpl. split; [intros [?|[->|[]]]; auto | intros [->|?]; auto].
Qed.

Lemma set_add_path_NoDup p s : NoDup s -> NoDup (set_add_path p s).
Proof.
  intros H. unfold set_add_path. destruct (in_dec path_eq_dec p s) as [Hin | Hin].
  - exact H.
  - apply NoDup_app; auto.
    + constructor; [intros [] | constructor].
    + intros a Ha [<- | []]. contradiction.
Qed.

Lemma scan_entry_snd fs R B acc bp :
  snd (scan_entry fs R B acc bp)
  = let e := entry_for R B bp in
    mk_stats (if counts_as_directory fs e
              then set_add_path (e_original e) (s_directories (snd acc))
              else s_directories (snd acc))
             (s_root_dirs (snd acc))
             (if counts_as_file fs e then S (s_files (snd acc))
              else s_files (snd acc)).
Proof.
  destruct acc as [paths [ds rs n]]. unfold scan_entry, entry_for, counts_as_file, counts_as_directory.
  cbn [e_backup e_original snd s_directories s_root_dirs s_files].
  destruct (is_dir fs bp && negb (is_symlink fs bp)); [reflexivity |].
  destruct (is_file fs bp || is_symlink fs bp); reflexivity.
Qed.

Lemma fold_scan_entry_snd fs R B l : forall acc,
  let st := snd (fold_left (scan_entry fs R B) l acc) in
  s_root_dirs st = s_root_dirs (snd acc)
  /\ s_files st
     = s_files (snd acc)
       + List.length (filter (counts_as_file fs) (map (entry_for R B) l))
  /\ (NoDup (s_directories (snd acc)) -> NoDup (s_directories st))
  /\ (forall p, In p (s_directories st) <->
                In p (s_directories (snd acc))
                \/ exists e, In e (map (entry_for R B) l)
                             /\ counts_as_directory fs e = true
                             /\ e_original e = p).
Proof.
  induction l as [| bp l IH]; intros acc; cbn [fold_left map].
  - simpl. repeat split; auto; try lia.
    intros [H | (e & [] & _)]. exact H.
  - destruct (IH (scan_entry fs R B acc bp)) as (H1 & H2 & H3 & H4).
    cbv zeta. rewrite H1, H2. rewrite scan_entry_snd in *.
    cbv zeta in *. cbn [s_root_dirs s_files s_directories] in *.
    split; [reflexivity | split; [| split]].
    + cbn [filter]. destruct (counts_as_file fs (entry_for R B bp)); simpl; lia.
    + intros Hnd. apply H3.
      destruct (counts_as_directory fs (entry_for R B bp)); auto.
      now apply set_add_path_NoDup.
    + intros p. rewrite H4. split.
      * intros [H | (e & He & Hd & Ho)].
        -- destruct (counts_as_directory fs (entry_for R B bp)) eqn:E.
           ++ apply set_add_path_In in H as [-> | H]; [| now left].
              right. exists (entry_for R B bp). repeat split; auto. now left.
           ++ now left.
        -- right. exists e. repeat split; auto. now right.
      * intros [H | (e & [<- | He] & Hd & Ho)].
        -- left. destruct (counts_as_directory fs (entry_for R B bp)); auto.
           apply set_add_path_In. now right.
        -- left. rewrite Hd. apply set_add_path_In. now left.
        -- right. exists e. auto.
Qed.

Lemma scan_root_snd fs acc r :
  let st := snd (scan_root fs acc r) in
  s_root_dirs st = set_add_path (fst r) (s_root_dirs (snd acc))
  /\ s_files st
     = s_files (snd acc)
       + List.length (filter (counts_as_file fs) (entries_of_root fs r))
  /\ (NoDup (s_directories (snd acc)) -> NoDup (s_directories st))
  /\ (forall p, In p (s_directories st) <->
                In p (s_directories (snd acc))
                \/ exists e, In e (entries_of_root fs r)
                             /\ counts_as_directory fs e = true
                             /\ e_original e = p).
Proof.
  destruct r as [R B], acc as [paths st0]. unfold scan_root, entries_of_root.
  cbn [fst snd].
  exact (fold_scan_entry_snd fs R B (rglob fs B)
           (paths, mk_stats (s_directories st0)
                            (set_add_path R (s_root_dirs st0)) (s_files st0))).
Qed.

Lemma fold_scan_root_snd fs l : forall acc,
  let st := snd (fold_left (scan_root fs) l acc) in
  (NoDup (s_root_dirs (snd acc)) -> NoDup (s_root_dirs st))
  /\ (forall R, In R (s_root_dirs st) <->
                In R (s_root_dirs (snd acc)) \/ In R (map fst l))
  /\ s_files st
     = s_files (snd acc)
       + List.length (filter (counts_as_file fs) (flat_map (entries_of_root fs) l))
  /\ (NoDup (s_directories (snd acc)) -> NoDup (s_directories st))
  /\ (forall p, In p (s_directories st) <->
                In p (s_directories (snd acc))
                \/ exists e, In e (flat_map (entries_of_root fs) l)
                             /\ counts_as_directory fs e = true
                             /\ e_original e = p).
Proof.
  induction l as [| r l IH]; intros acc; cbn [fold_left map flat_map].
  - simpl. repeat split; auto; try lia; try tauto.
    intros [H | (e & [] & _)]. exact H.
  - destruct (IH (scan_root fs acc r)) as (H1 & H2 & H3 & H4 & H5).
    destruct (scan_root_snd fs acc r) as (G1 & G2 & G3 & G4).
    cbv zeta in *.
    split; [| split; [| split; [| split]]].
    + intros Hnd. apply H1. rewrite G1. now apply set_add_path_NoDup.
    + intros R. rewrite H2, G1, set_add_path_In. simpl.
      intuition (auto; congruence).
    + rewrite H3, G2, filter_app, length_app. lia.
    + auto.
    + intros p. rewrite H5, G4. split.
      * intros [[H | (e & He & Hd)] | (e & He & Hd)]; auto.
        -- right. exists e. split; [apply in_or_app; now left | exact Hd].
        -- right. exists e. split; [apply in_or_app; now right | exact Hd].
      * intros [H | (e & He & Hd)]; auto.
        apply in_app_or in He as [He | He]; [left; right | right]; eauto.
Qed.

(** X9: what the counters of lines 135-153 hold after the scan, for every
    filesystem: [root_dirs] holds each tracked root once; [directories]
    holds, once each, the original paths of the entries whose backup is a
    real directory; no tracked root is ever among them (all lie strictly
    below a root), so the difference of line 186 is the number of restored
    sub-directories less the number of roots; [files] counts the entries
    whose backup is a file or a link. *)
Theorem summary_counts home fs :
  let st := snd (scan home fs) in
  let entries := fst (scan home fs) in
  NoDup (s_root_dirs st)
  /\ (forall R, In R (s_root_dirs st) <-> In R (map fst (tracked_roots home fs)))
  /\ NoDup (s_directories st)
  /\ (forall p, In p (s_directories st) <->
                exists e, In e entries /\ counts_as_directory fs e = true
                          /\ e_original e = p)
  /\ (forall p, In p (s_directories st) -> ~ In p (s_root_dirs st))
  /\ s_files st = List.length (filter (counts_as_file fs) entries)
  /\ (forall errors, exists tail,
        summary st errors
        = Reset_complete (Z.of_nat (List.length (s_directories st))
                          - Z.of_nat (List.length (s_root_dirs st)))
                         (s_files st) :: tail).
Proof.
  cbv zeta.
  assert (Hlast : forall errors, exists tail,
            summary (snd (scan home fs)) errors
            = Reset_complete
                (Z.of_nat (List.length (s_directories (snd (scan home fs))))
                 - Z.of_nat (List.length (s_root_dirs (snd (scan home fs)))))
                (s_files (snd (scan home fs))) :: tail)
    by (intros errors; eexists; reflexivity).
  rewrite scan_fst. unfold scan.
  destruct (fold_scan_root_snd fs (tracked_roots home fs) ([], mk_stats [] [] 0))
    as (H1 & H2 & H3 & H4 & H5). cbv zeta in *. cbn [snd s_root_dirs s_directories s_files] in *.
  assert (Hd : forall p,
    In p (s_directories (snd (fold_left (scan_root fs) (tracked_roots home fs)
                                        ([], mk_stats [] [] 0)))) <->
    exists e, In e (flat_map (entries_of_root fs) (tracked_roots home fs))
              /\ counts_as_directory fs e = true /\ e_original e = p).
  { intros p. rewrite H5. simpl. tauto. }
  split; [apply H1; constructor |].
  split; [intros R; rewrite H2; simpl; tauto |].
  split; [apply H4; constructor |].
  split; [exact Hd |].
  split; [| split; [exact H3 | exact Hlast]].
  intros p Hp Hr. apply Hd in Hp as (e & He & _ & Ho).
  apply H2 in Hr as [[] | Hr].
  rewrite <- scan_fst in He.
  destruct (scan_entries_below_roots home fs e He) as (a & b & rel & _ & Hrel & ->).
  cbn [e_original] in Ho. subst p.
  apply in_map_iff in Hr as ([R B] & HR & Hin). cbn [fst] in HR. subst R.
  apply tracked_roots_In in Hin as (a' & b' & E & _).
  apply (f_equal (@List.length _)) in E. rewrite length_app in E. simpl in E.
  destruct rel; [congruence | simpl in E; lia].
Qed.

Lemma summary_counts_witness :
  NoDup (s_root_dirs (snd (scan Scenario.home Scenario.fs_mutated)))
  /\ forall p,
       In p (s_directories (snd (scan Scenario.home Scenario.fs_mutated))) ->
       ~ In p (s_root_dirs (snd (scan Scenario.home Scenario.fs_mutated))).
Proof.
  destruct (summary_counts Scenario.home Scenario.fs_mutated)
    as (H1 & _ & _ & _ & H5 & _).
  split; [exact H1 | exact H5].
Defined.

(* ================================================================== *)
(** ** The copy made by [copytree] *)

Lemma get_captured T : forall p,
  get (captured T) p = option_map captured (get T p).
Proof.
  induction T as [| | m es IH] using node_ind'; intros p.
  - destruct p; reflexivity.
  - destruct p; reflexivity.
  - destruct p as [| k p]; [reflexivity |].
    cbn [captured get]. rewrite assoc_captured.
    destruct (assoc k es) as [c |] eqn:E; [| reflexivity].
    rewrite Forall_forall in IH.
    exact (IH (k, c) (assoc_In _ _ _ E) p).
Qed.

Lemma content_captured T : content (captured T) = content T.
Proof.
  induction T as [| | m es IH] using node_ind'; try reflexivity.
  cbn [captured content]. f_equal. rewrite map_map. cbn [fst snd].
  apply map_ext_in. intros e He. f_equal.
  rewrite Forall_forall in IH. now apply IH.
Qed.

Lemma lor_write_bit m : Z.testbit (Z.lor m WRITE_PERMISSION) 7 = true.
Proof. rewrite Z.lor_spec. unfold WRITE_PERMISSION. apply orb_true_r. Qed.

(** X2: the copy [shutil.copytree] makes with [copy_with_permissions] of
    a well-formed directory: the same names everywhere, every link with
    the text it had, every regular file with its bytes and time and its
    mode with the owner's write bit set, every directory with the mode of
    the source (the write bit is not forced on directories), and nothing
    else: the copy and the source have the same content. *)
Theorem snapshot_differs_in_write_bits_only fs P T :
  get fs P = Some T -> is_Dir T = true -> wfb T = true ->
  exists S,
    copytree_obj (copy_with_permissions fs) T P = Some S
    /\ content S = content T
    /\ (forall p d m t, get T p = Some (File d m t) ->
                        get S p = Some (File d (Z.lor m WRITE_PERMISSION) t)
                        /\ Z.testbit (Z.lor m WRITE_PERMISSION) 7 = true)
    /\ (forall p a t, get T p = Some (Link a t) -> get S p = Some (Link a t))
    /\ (forall p m es, get T p = Some (Dir m es) ->
                       exists es', get S p = Some (Dir m es')
                                   /\ names es' = names es)
    /\ (forall p, get T p = None -> get S p = None).
Proof.
  intros HP Hd Hwf. exists (captured T).
  split; [now apply copytree_obj_captured |].
  split; [apply content_captured |].
  repeat split.
  - now rewrite get_captured, H.
  - apply lor_write_bit.
  - intros p a t H. now rewrite get_captured, H.
  - intros p m es H. rewrite get_captured, H. cbn [option_map captured].
    eexists. split; [reflexivity | apply names_captured].
  - intros p H. now rewrite get_captured, H.
Qed.

Lemma snapshot_differs_in_write_bits_only_witness :
  get (Scenario.root_with Scenario.proj_readonly) ["data"; "proj"]
    = Some Scenario.proj_readonly
  /\ exists S,
       copytree_obj
         (copy_with_permissions (Scenario.root_with Scenario.proj_readonly))
         Scenario.proj_readonly ["data"; "proj"] = Some S
       /\ get S ["ro"; "f"] = Some (File "x" (Z.lor 292 WRITE_PERMISSION) 1).
Proof.
  split; [reflexivity |].
  destruct (snapshot_differs_in_write_bits_only
              (Scenario.root_with Scenario.proj_readonly) ["data"; "proj"]
              Scenario.proj_readonly eq_refl eq_refl eq_refl)
    as (S & H1 & _ & H3 & _).
  exists S. split; [exact H1 |].
  exact (proj1 (H3 ["ro"; "f"] "x" 292%Z 1%Z eq_refl)).
Defined.

(* ================================================================== *)
(** ** [track] over several folders *)

Lemma copytree_into fs P T D dm des k :
  get fs P = Some T -> is_Dir T = true -> wfb T = true ->
  get fs D = Some (Dir dm des) ->
  is_prefix P (D ++ [k]) = false ->
  copytree fs (copy_with_permissions fs) P (D ++ [k])
  = match assoc k des with
    | None => set_at fs D (Dir dm (set_child k (captured T) des))
    | Some _ => None
    end.
Proof.
  intros HP HT Hwf HD Hpre. destruct T as [| | tm tes]; try discriminate.
  unfold copytree. rewrite (realpath_dir _ _ _ _ HP), HP.
  rewrite removelast_snoc, (mkdir_parents_dir _ _ _ _ HD).
  destruct (D ++ [k]) as [| x rest] eqn:E; [now apply snoc_not_nil in E |].
  rewrite <- E in Hpre |- *. rewrite (canon_child _ _ _ _ HD), get_snoc, HD.
  destruct (assoc k des); [reflexivity |].
  rewrite Hpre, (copytree_obj_captured _ _ _ Hwf HP eq_refl).
  now rewrite (set_at_parent _ _ _ _ _ _ HD).
Qed.

Lemma store_add_get ses a b C a' b' :
  (forall x c, assoc x ses = Some c -> is_Dir c = true) ->
  get (Dir 0 (store_add ses a b C)) [a'; b']
  = if path_eq_dec [a'; b'] [a; b] then Some C
    else get (Dir 0 ses) [a'; b'].
Proof.
  intros Hdirs. unfold store_add. cbn [get].
  destruct (String.eqb_spec a a') as [<- | Hne].
  - destruct (assoc a ses) as [c |] eqn:Ea.
    + pose proof (Hdirs _ _ Ea) as Hc. destruct c as [| | am aes]; try discriminate.
      rewrite assoc_set_child_same.
      destruct (String.eqb_spec b b') as [<- | Hb].
      * rewrite assoc_set_child_same.
        destruct (path_eq_dec [a; b] [a; b]); [reflexivity | congruence].
      * rewrite assoc_set_child_other by exact Hb.
        destruct (path_eq_dec [a; b'] [a; b]); [congruence | reflexivity].
    + rewrite assoc_set_child_same.
      destruct (String.eqb_spec b b') as [<- | Hb].
      * rewrite assoc_set_child_same.
        destruct (path_eq_dec [a; b] [a; b]); [reflexivity | congruence].
      * rewrite assoc_set_child_other by exact Hb.
        destruct (path_eq_dec [a; b'] [a; b]); [congruence | reflexivity].
  - destruct (path_eq_dec [a'; b'] [a; b]); [congruence |].
    destruct (assoc a ses) as [[| | am aes] |];
      now rewrite assoc_set_child_other by exact Hne.
Qed.

Lemma store_add_dirs ses a b C :
  (forall x c, assoc x ses = Some c -> is_Dir c = true) ->
  forall x c, assoc x (store_add ses a b C) = Some c -> is_Dir c = true.
Proof.
  intros Hdirs x c. unfold store_add.
  destruct (String.eqb_spec a x) as [<- | Hne].
  - destruct (assoc a ses) as [[| | am aes] |]; rewrite assoc_set_child_same;
      now intros [= <-].
  - destruct (assoc a ses) as [[| | am aes] |];
      rewrite assoc_set_child_other by exact Hne; apply Hdirs.
Qed.

Lemma names_set_child k v es :
  names (set_child k v es)
  = if existsb (String.eqb k) (names es) then names es else names es ++ [k].
Proof.
  induction es as [| [k0 c] r IH]; cbn [set_child names map fst existsb];
    [reflexivity |].
  destruct (String.eqb k k0) eqn:E; cbn [orb names map fst]; [reflexivity |].
  fold (names r). fold (names (set_child k v r)). rewrite IH.
  now destruct (existsb (String.eqb k) (names r)).
Qed.

Lemma nodupb_snoc l k :
  nodupb l = true -> existsb (String.eqb k) l = false -> nodupb (l ++ [k]) = true.
Proof.
  induction l as [| x r IH]; cbn [nodupb existsb app]; intros H Hk;
    [reflexivity |].
  apply andb_true_iff in H as [H1 H2]. apply orb_false_iff in Hk as [Hk1 Hk2].
  rewrite (IH H2 Hk2), andb_true_r, existsb_app. cbn [existsb].
  apply negb_true_iff in H1. rewrite H1, orb_false_r. cbn [orb].
  now rewrite String.eqb_sym, Hk1.
Qed.

Lemma wfb_set_child m es k v :
  wfb (Dir m es) = true -> wfb v = true ->
  wfb (Dir m (set_child k v es)) = true.
Proof.
  cbn [wfb]. intros H Hv. apply andb_true_iff in H as [H1 H2].
  apply andb_true_iff. split.
  - fold (names (set_child k v es)). rewrite names_set_child.
    fold (names es) in H1.
    destruct (existsb (String.eqb k) (names es)) eqn:E; [exact H1 |].
    now apply nodupb_snoc.
  - clear H1. induction es as [| [k0 c] r IH]; cbn [set_child forallb snd].
    + now rewrite Hv.
    + cbn [forallb snd] in H2. apply andb_true_iff in H2 as [Hc Hr].
      destruct (String.eqb k k0); cbn [forallb snd].
      * now rewrite Hv, Hr.
      * now rewrite Hc, IH.
Qed.

Lemma wfb_child m es k c :
  wfb (Dir m es) = true -> assoc k es = Some c -> wfb c = true.
Proof.
  intros H Hk. destruct (wfb_Dir _ _ H) as [_ Hall].
  rewrite Forall_forall in Hall. exact (Hall _ (assoc_In _ _ _ Hk)).
Qed.

Lemma store_add_wfb sm ses a b C :
  wfb (Dir sm ses) = true -> wfb C = true ->
  wfb (Dir sm (store_add ses a b C)) = true.
Proof.
  intros H HC. unfold store_add.
  destruct (assoc a ses) as [[| | am aes] |] eqn:Ea;
    apply wfb_set_child; auto;
    try (apply (wfb_set_child _ [] b C); [reflexivity | exact HC]).
  apply wfb_set_child; [| exact HC].
  exact (wfb_child _ _ _ _ H Ea).
Qed.

Section TrackPairs.

Variable home : path.
#[local] Abbreviation STORE := (BACKUP_DIR home).

(** One turn of the loop on a folder [/a/b], the store being a real
    directory whose entries are real directories. *)
Lemma track_folder_pair fs sm ses a b tm tes :
  get fs STORE = Some (Dir sm ses) ->
  (forall x c, assoc x ses = Some c -> is_Dir c = true) ->
  get fs [a; b] = Some (Dir tm tes) ->
  wfb (Dir tm tes) = true ->
  apart [a; b] STORE ->
  match get (Dir 0 ses) [a; b] with
  | None =>
      exists fs',
        track_folder home fs [a; b]
        = Some (fs', Tracked_folder [a; b] (STORE ++ [a; b]))
        /\ set_at fs STORE
             (Dir sm (store_add ses a b (captured (Dir tm tes)))) = Some fs'
  | Some _ =>
      track_folder home fs [a; b] = Some (fs, Failed_to_track [a; b])
  end.
Proof.
  intros Hs Hdirs HP Hwf Hap.
  assert (Hpre : is_prefix [a; b] ((STORE ++ [a]) ++ [b]) = false).
  { rewrite <- (two_levels home). exact (proj1 (apart_app_r _ _ [a; b] Hap)). }
  assert (Hstart : track_folder home fs [a; b]
            = match mkdir_parents fs (STORE ++ [a]) with
              | None => None
              | Some fs1 =>
                  match copytree fs1 (copy_with_permissions fs1) [a; b]
                                 ((STORE ++ [a]) ++ [b]) with
                  | Some fs2 => Some (fs2, Tracked_folder [a; b] (STORE ++ [a; b]))
                  | None => Some (fs1, Failed_to_track [a; b])
                  end
              end).
  { unfold track_folder, resolve.
    rewrite (realpath_dir _ _ _ _ HP).
    rewrite (exists_get _ _ _ HP eq_refl), (is_dir_get _ _ _ _ HP).
    cbn [andb]. rewrite dest_posix. cbn [PathMapper.parts].
    rewrite (two_levels home), removelast_snoc. reflexivity. }
  rewrite Hstart. clear Hstart. cbn [get].
  destruct (assoc a ses) as [c |] eqn:Ea.
  - pose proof (Hdirs _ _ Ea) as Hc. destruct c as [| | am aes]; try discriminate.
    assert (Ha : get fs (STORE ++ [a]) = Some (Dir am aes))
      by now rewrite get_snoc, Hs.
    rewrite (mkdir_parents_dir _ _ _ _ Ha).
    rewrite (copytree_into fs [a; b] (Dir tm tes) (STORE ++ [a]) am aes b
               HP eq_refl Hwf Ha Hpre).
    cbn [get]. destruct (assoc b aes) as [x |] eqn:Eb; [reflexivity |].
    destruct (set_at_defined fs (STORE ++ [a]) _
                (Dir am (set_child b (captured (Dir tm tes)) aes)) Ha)
      as [fs' H']. rewrite H'. exists fs'. split; [reflexivity |].
    unfold store_add. rewrite Ea.
    apply (set_at_child fs STORE sm ses fs a _ fs'); [| exact H'].
    now apply set_at_get_id.
  - rewrite (mkdir_parents_child _ _ _ _ _ Hs Ea).
    destruct (set_at_defined fs STORE _
                (Dir sm (set_child a (Dir DEFAULT_DIR_MODE []) ses)) Hs)
      as [fs1 H1]. rewrite H1.
    assert (Ha : get fs1 (STORE ++ [a]) = Some (Dir DEFAULT_DIR_MODE [])).
    { rewrite get_snoc, (get_set_at_same _ _ _ _ H1).
      apply assoc_set_child_same. }
    assert (HP1 : get fs1 [a; b] = Some (Dir tm tes)).
    { rewrite (get_set_at_apart _ _ _ _ _ H1 (apart_sym _ _ Hap)). exact HP. }
    rewrite (copytree_into fs1 [a; b] (Dir tm tes) (STORE ++ [a]) _ [] b
               HP1 eq_refl Hwf Ha Hpre).
    cbn [assoc].
    destruct (set_at_defined fs1 (STORE ++ [a]) _
                (Dir DEFAULT_DIR_MODE (set_child b (captured (Dir tm tes)) []))
                Ha) as [fs' H']. rewrite H'. exists fs'. split; [reflexivity |].
    unfold store_add. rewrite Ea.
    pose proof (set_at_child _ _ _ _ _ _ _ _ H1 H') as H13.
    now rewrite set_child_set_child in H13.
Qed.

(** The loop of [track] over folders of two components. *)
Lemma track_loop_pairs fs0 sm l : forall fs ses done out,
  (forall f, In f l ->
     List.length f = 2 /\ apart f STORE
     /\ exists tm tes, get fs0 f = Some (Dir tm tes)
                       /\ wfb (Dir tm tes) = true) ->
  get fs STORE = Some (Dir sm ses) ->
  (forall q, apart q STORE -> get fs q = get fs0 q) ->
  (forall x c, assoc x ses = Some c -> is_Dir c = true) ->
  wfb (Dir sm ses) = true ->
  (forall a b, get (Dir 0 ses) [a; b]
               = if in_dec path_eq_dec [a; b] done
                 then option_map captured (get fs0 [a; b]) else None) ->
  exists fs' ses',
    track_loop home fs l out
    = mk_outcome fs' (out ++ track_lines STORE done l
                          ++ [Folders_have_been_tracked]) false
    /\ set_at fs STORE (Dir sm ses') = Some fs'
    /\ (forall x c, assoc x ses' = Some c -> is_Dir c = true)
    /\ wfb (Dir sm ses') = true
    /\ (forall a b, get (Dir 0 ses') [a; b]
                    = if in_dec path_eq_dec [a; b] (rev l ++ done)
                      then option_map captured (get fs0 [a; b]) else None).
Proof.
  induction l as [| f l IH]; intros fs ses done out Hl Hs Hframe Hdirs Hwfs Hget.
  - exists fs, ses. cbn [track_loop track_lines rev app].
    repeat split; auto. now apply set_at_get_id.
  - destruct (Hl f (or_introl eq_refl)) as (Hlen & Hap & tm & tes & HP0 & Hwf).
    destruct f as [| a [| b [| ? ?]]]; try discriminate. clear Hlen.
    assert (HP : get fs [a; b] = Some (Dir tm tes))
      by (rewrite (Hframe _ Hap); exact HP0).
    pose proof (track_folder_pair fs sm ses a b tm tes Hs Hdirs HP Hwf Hap) as Hstep.
    rewrite (Hget a b) in Hstep. cbn [track_loop track_lines].
    assert (Hl' : forall f, In f l ->
              List.length f = 2 /\ apart f STORE
              /\ exists tm tes, get fs0 f = Some (Dir tm tes)
                                /\ wfb (Dir tm tes) = true)
      by (intros f Hf; apply Hl; now right).
    destruct (in_dec path_eq_dec [a; b] done) as [Hin | Hnin].
    + rewrite HP0 in Hstep. cbn [option_map] in Hstep. rewrite Hstep.
      destruct (IH fs ses ([a; b] :: done) (out ++ [Failed_to_track [a; b]])
                   Hl' Hs Hframe Hdirs Hwfs) as (fs' & ses' & H1 & H2 & H3 & H5 & H4).
      { intros a' b'. rewrite (Hget a' b').
        destruct (in_dec path_eq_dec [a'; b'] done) as [H | H];
          destruct (in_dec path_eq_dec [a'; b'] ([a; b] :: done)) as [H' | H'];
          try reflexivity.
        - exfalso. apply H'. now right.
        - destruct H' as [E | H']; [| contradiction]. rewrite <- E in H.
          contradiction. }
      exists fs', ses'. rewrite H1, <- app_assoc. cbn [app].
      repeat split; auto.
      intros a' b'. rewrite (H4 a' b'). cbn [rev].
      rewrite <- app_assoc. reflexivity.
    + destruct Hstep as (fs1 & Hstep & Hset). rewrite Hstep.
      assert (Hs1 : get fs1 STORE
                = Some (Dir sm (store_add ses a b (captured (Dir tm tes)))))
        by exact (get_set_at_same _ _ _ _ Hset).
      destruct (IH fs1 _ ([a; b] :: done)
                   (out ++ [Tracked_folder [a; b] (STORE ++ [a; b])])
                   Hl' Hs1) as (fs' & ses' & H1 & H2 & H3 & H5 & H4).
      { intros q Hq. rewrite (get_set_at_apart _ _ _ _ _ Hset (apart_sym _ _ Hq)).
        now apply Hframe. }
      { now apply store_add_dirs. }
      { apply store_add_wfb; [exact Hwfs | now apply wfb_captured]. }
      { intros a' b'. rewrite (store_add_get _ _ _ _ _ _ Hdirs), (Hget a' b').
        destruct (path_eq_dec [a'; b'] [a; b]) as [E | NE].
        - rewrite E, HP0.
          destruct (in_dec path_eq_dec [a; b] ([a; b] :: done)) as [H | H];
            [reflexivity | exfalso; apply H; now left].
        - destruct (in_dec path_eq_dec [a'; b'] done) as [H | H];
            destruct (in_dec path_eq_dec [a'; b'] ([a; b] :: done)) as [H' | H'];
            try reflexivity.
          + exfalso. apply H'. now right.
          + destruct H' as [E | H']; [congruence | contradiction]. }
      exists fs', ses'. rewrite H1, <- app_assoc. cbn [app].
      repeat split; auto.
      * rewrite <- H2. symmetry. exact (set_at_twice _ _ _ _ _ Hset).
      * intros a' b'. rewrite (H4 a' b'). cbn [rev].
        rewrite <- app_assoc. reflexivity.
Qed.

End TrackPairs.

Lemma NoDup_flat_map_disjoint {A B} (f : A -> list B) l :
  NoDup l ->
  (forall x, In x l -> NoDup (f x)) ->
  (forall x y b, In x l -> In y l -> In b (f x) -> In b (f y) -> x = y) ->
  NoDup (flat_map f l).
Proof.
  induction l as [| x l IH]; intros Hnd Hf Hinj; cbn [flat_map];
    [constructor |].
  inversion Hnd as [| ? ? Hnot Hnd']; subst.
  apply NoDup_app.
  - apply Hf. now left.
  - apply IH; auto.
    + intros y Hy. apply Hf. now right.
    + intros y z b Hy Hz. apply Hinj; now right.
  - intros b Hb Hb'. apply in_flat_map in Hb' as (y & Hy & Hby).
    apply Hnot. rewrite (Hinj x y b); auto; [now left | now right].
Qed.

Lemma map_over_flat_map {A B C} (g : B -> C) (f : A -> list B) l :
  map g (flat_map f l) = flat_map (fun x => map g (f x)) l.
Proof.
  induction l as [| x l IH]; cbn [flat_map map]; [reflexivity |].
  now rewrite map_app, IH.
Qed.

Lemma NoDup_map_snoc (p : path) l :
  NoDup l -> NoDup (map (fun k => p ++ [k]) l).
Proof.
  induction 1 as [| x l Hx Hnd IH]; cbn [map]; constructor; [| exact IH].
  intros H. apply in_map_iff in H as (y & E & Hy).
  apply app_inv_head in E. congruence.
Qed.

Lemma iterdir_NoDup fs p m es :
  get fs p = Some (Dir m es) -> wfb (Dir m es) = true -> NoDup (iterdir fs p).
Proof.
  intros H Hwf. unfold iterdir. rewrite (stat_get _ _ _ H eq_refl).
  destruct (wfb_Dir _ _ Hwf) as [Hnd _]. unfold names in Hnd.
  replace (map (fun e : name * node => p ++ [fst e]) es)
    with (map (fun k => p ++ [k]) (map fst es)) by now rewrite map_map.
  now apply NoDup_map_snoc.
Qed.

Lemma is_dir_child_some fs d m es k :
  get fs d = Some (Dir m es) -> is_dir fs (d ++ [k]) = true ->
  assoc k es <> None.
Proof.
  intros Hd H E. unfold is_dir in H.
  now rewrite (stat_child_absent _ _ _ _ Hd _ E) in H.
Qed.

Section Roots.

Variable home : path.
#[local] Abbreviation STORE := (BACKUP_DIR home).

(** The tracked roots found in a store whose entries are real
    directories. *)
Lemma tracked_roots_of_store fs sm ses :
  get fs STORE = Some (Dir sm ses) ->
  (forall x c, assoc x ses = Some c -> is_Dir c = true) ->
  wfb (Dir sm ses) = true ->
  NoDup (map fst (tracked_roots home fs))
  /\ forall a b,
       In [a; b] (map fst (tracked_roots home fs)) <->
       exists c, get (Dir 0 ses) [a; b] = Some c
                 /\ is_dir fs (STORE ++ [a; b]) = true.
Proof.
  intros Hs Hdirs Hwf. split.
  - unfold tracked_roots. rewrite map_over_flat_map.
    apply NoDup_flat_map_disjoint.
    + eapply iterdir_NoDup; eauto.
    + intros x Hx.
      destruct (iterdir_In _ _ _ Hx) as (a & m' & es' & c & -> & Hst & Hin).
      rewrite (stat_get _ _ _ Hs eq_refl) in Hst. injection Hst as <- <-.
      destruct (is_dir fs (STORE ++ [a])) eqn:Ed; [| constructor].
      destruct (assoc a ses) as [ca |] eqn:Ea;
        [| now destruct (is_dir_child_some _ _ _ _ _ Hs Ed)].
      pose proof (Hdirs _ _ Ea) as Hca. destruct ca as [| | am aes]; try discriminate.
      assert (Ha : get fs (STORE ++ [a]) = Some (Dir am aes))
        by now rewrite get_snoc, Hs.
      rewrite map_over_flat_map. apply NoDup_flat_map_disjoint.
      * eapply iterdir_NoDup; [exact Ha |]. exact (wfb_child _ _ _ _ Hwf Ea).
      * intros y Hy. destruct (is_dir fs y); [| constructor].
        destruct (root_of home y); repeat constructor. intros [].
      * intros y z r Hy Hz Hry Hrz.
        destruct (iterdir_In _ _ _ Hy) as (k & _ & _ & _ & -> & _).
        destruct (iterdir_In _ _ _ Hz) as (k' & _ & _ & _ & -> & _).
        rewrite root_of_two_levels in Hry, Hrz.
        destruct (is_dir fs ((STORE ++ [a]) ++ [k])); [| contradiction].
        destruct (is_dir fs ((STORE ++ [a]) ++ [k'])); [| contradiction].
        cbn [map fst In] in Hry, Hrz.
        destruct Hry as [<- | []]. destruct Hrz as [E | []]. congruence.
    + intros x y r Hx Hy Hrx Hry.
      destruct (iterdir_In _ _ _ Hx) as (a & _ & _ & _ & -> & _).
      destruct (iterdir_In _ _ _ Hy) as (a' & _ & _ & _ & -> & _).
      destruct (is_dir fs (STORE ++ [a])); [| contradiction].
      destruct (is_dir fs (STORE ++ [a'])); [| contradiction].
      apply in_map_iff in Hrx as ([R B] & <- & Hrx).
      apply in_map_iff in Hry as ([R' B'] & E & Hry). cbn [fst] in E. subst R'.
      apply in_flat_map in Hrx as (q & Hq & Hrx).
      apply in_flat_map in Hry as (q' & Hq' & Hry).
      destruct (iterdir_In _ _ _ Hq) as (k & _ & _ & _ & -> & _).
      destruct (iterdir_In _ _ _ Hq') as (k' & _ & _ & _ & -> & _).
      rewrite root_of_two_levels in Hrx, Hry.
      destruct (is_dir fs ((STORE ++ [a]) ++ [k])); [| contradiction].
      destruct (is_dir fs ((STORE ++ [a']) ++ [k'])); [| contradiction].
      destruct Hrx as [E1 | []]. destruct Hry as [E2 | []]. congruence.
  - intros a b. split.
    + intros H. apply in_map_iff in H as ([R B] & E & Hin). cbn [fst] in E.
      subst R. apply tracked_roots_In in Hin
        as (a' & b' & E & -> & _ & Hda & _ & Hdb).
      injection E as <- <-.
      destruct (assoc a ses) as [ca |] eqn:Ea;
        [| now destruct (is_dir_child_some _ _ _ _ _ Hs Hda)].
      pose proof (Hdirs _ _ Ea) as Hca. destruct ca as [| | am aes]; try discriminate.
      assert (Ha : get fs (STORE ++ [a]) = Some (Dir am aes))
        by now rewrite get_snoc, Hs.
      pose proof Hdb as Hdb'. rewrite (two_levels home) in Hdb'.
      destruct (assoc b aes) as [cb |] eqn:Eb;
        [| now destruct (is_dir_child_some _ _ _ _ _ Ha Hdb')].
      exists cb. cbn [get]. rewrite Ea. cbn [get]. now rewrite Eb.
    + intros (c & Hc & Hd). cbn [get] in Hc.
      destruct (assoc a ses) as [ca |] eqn:Ea; [| discriminate].
      pose proof (Hdirs _ _ Ea) as Hca. destruct ca as [| | am aes]; try discriminate.
      cbn [get] in Hc. destruct (assoc b aes) as [cb |] eqn:Eb; [| discriminate].
      assert (Ha : get fs (STORE ++ [a]) = Some (Dir am aes))
        by now rewrite get_snoc, Hs.
      apply in_map_iff. exists ([a; b], STORE ++ [a; b]). split; [reflexivity |].
      apply tracked_roots_In. exists a, b. repeat split; auto.
      * eapply In_iterdir; [exact (stat_get _ _ _ Hs eq_refl) |].
        eapply assoc_In; eauto.
      * eapply is_dir_get; eauto.
      * eapply In_iterdir; [exact (stat_get _ _ _ Ha eq_refl) |].
        eapply assoc_In; eauto.
Qed.

End Roots.

Lemma track_lines_fresh store l : forall done,
  NoDup l -> (forall f, In f l -> ~ In f done) ->
  track_lines store done l = map (fun f => Tracked_folder f (store ++ f)) l.
Proof.
  induction l as [| f l IH]; intros done Hnd Hfresh; cbn [track_lines map];
    [reflexivity |].
  inversion Hnd as [| ? ? Hnot Hnd']; subst.
  destruct (in_dec path_eq_dec f done) as [H | _];
    [now destruct (Hfresh f (or_introl eq_refl)) |].
  f_equal. apply IH; [exact Hnd' |].
  intros g Hg [<- | H]; [contradiction |].
  exact (Hfresh g (or_intror Hg) H).
Qed.

Section TrackMany.

Variable home : path.
#[local] Abbreviation STORE := (BACKUP_DIR home).
#[local] Abbreviation dot := ".foam_backup".

Lemma track_pairs fs0 l :
  store_usable home fs0 = true ->
  (forall f, In f l -> trackable STORE fs0 f) ->
  exists fs1 fs' ses',
    emptied home fs0 = Some fs1
    /\ track home fs0 l
       = mk_outcome fs' (track_lines STORE [] l ++ [Folders_have_been_tracked])
                    false
    /\ set_at fs1 STORE (Dir DEFAULT_DIR_MODE ses') = Some fs'
    /\ (forall x c, assoc x ses' = Some c -> is_Dir c = true)
    /\ wfb (Dir DEFAULT_DIR_MODE ses') = true
    /\ (forall a b, get (Dir 0 ses') [a; b]
                    = if in_dec path_eq_dec [a; b] l
                      then option_map captured (get fs0 [a; b]) else None).
Proof.
  intros Hus Hl.
  destruct (track_start home fs0 l Hus) as (fs1 & He & Ht).
  pose proof (emptied_store _ _ _ He) as Hs1.
  destruct (track_loop_pairs home fs0 DEFAULT_DIR_MODE l fs1 [] [] [])
    as (fs' & ses' & H1 & H2 & H3 & H4 & H5); auto.
  - intros q Hq. exact (emptied_frame _ _ _ _ He Hq).
  - intros x c. discriminate.
  - exists fs1, fs', ses'. rewrite Ht, H1. cbn [app].
    repeat split; auto.
    intros a b. rewrite (H5 a b), app_nil_r.
    destruct (in_dec path_eq_dec [a; b] (rev l)) as [H | H];
      destruct (in_dec path_eq_dec [a; b] l) as [H' | H']; try reflexivity.
    + apply in_rev in H. contradiction.
    + apply in_rev in H'. contradiction.
Qed.

(** A filesystem whose store is the one [track] left. *)
Lemma snapshot_in fs0 l ses' fs :
  (forall f, In f l -> trackable STORE fs0 f) ->
  (forall x c, assoc x ses' = Some c -> is_Dir c = true) ->
  wfb (Dir DEFAULT_DIR_MODE ses') = true ->
  (forall a b, get (Dir 0 ses') [a; b]
               = if in_dec path_eq_dec [a; b] l
                 then option_map captured (get fs0 [a; b]) else None) ->
  get fs STORE = Some (Dir DEFAULT_DIR_MODE ses') ->
  (forall f rel, In f l ->
     get fs (STORE ++ f ++ rel) = option_map captured (get fs0 (f ++ rel)))
  /\ NoDup (map fst (tracked_roots home fs))
  /\ (forall R, In R (map fst (tracked_roots home fs)) <-> In R l).
Proof.
  intros Hl Hdirs Hwf Hget Hs.
  assert (Hcap : forall f rel, In f l ->
            get fs (STORE ++ f ++ rel) = option_map captured (get fs0 (f ++ rel))).
  { intros f rel Hf.
    destruct (Hl f Hf) as (Hlen & _ & tm & tes & HP & _).
    destruct f as [| a [| b [| ? ?]]]; try discriminate.
    rewrite (get_app fs), Hs, (get_app _ [a; b]).
    change (get (Dir DEFAULT_DIR_MODE ses') [a; b])
      with (get (Dir 0 ses') [a; b]).
    rewrite (Hget a b), (get_app fs0), HP.
    destruct (in_dec path_eq_dec [a; b] l); [| contradiction].
    cbn [option_map]. apply get_captured. }
  destruct (tracked_roots_of_store home fs _ _ Hs Hdirs Hwf) as [Hnd Hroots].
  split; [exact Hcap | split; [exact Hnd |]].
  intros R. split.
  - intros H. pose proof H as H'.
    apply in_map_iff in H' as ([R' B] & E & Hin). cbn [fst] in E. subst R'.
    apply tracked_roots_In in Hin as (a & b & -> & _).
    apply Hroots in H as (c & Hc & _). rewrite (Hget a b) in Hc.
    destruct (in_dec path_eq_dec [a; b] l); [assumption | discriminate].
  - intros H. destruct (Hl R H) as (Hlen & _ & tm & tes & HP & _).
    destruct R as [| a [| b [| ? ?]]]; try discriminate.
    apply Hroots. exists (captured (Dir tm tes)). split.
    + rewrite (Hget a b), HP.
      destruct (in_dec path_eq_dec [a; b] l); [reflexivity | contradiction].
    + pose proof (Hcap [a; b] [] H) as Hc. rewrite !app_nil_r, HP in Hc.
      eapply is_dir_get. exact Hc.
Qed.

(** X1: [track] of several folders of the form [/a/b], each a real,
    well-formed directory away from the store, the store's place being
    free or holding a real directory: the run ends normally; every folder
    met for the first time is reported as tracked and a folder given again
    as failed (its place in the store is taken), then comes the completion
    line; the store holds below [STORE/a/b] the copy of every path of
    [/a/b] and nothing else; nothing outside the store has changed. *)
Theorem track_captures_every_folder fs0 l :
  store_usable home fs0 = true ->
  (forall f, In f l -> trackable STORE fs0 f) ->
  let o := track home fs0 l in
  crashed o = false
  /\ printed o = track_lines STORE [] l ++ [Folders_have_been_tracked]
  /\ (NoDup l ->
      printed o = map (fun f => Tracked_folder f (STORE ++ f)) l
                  ++ [Folders_have_been_tracked])
  /\ (forall f rel, In f l ->
        get (fs_of o) (STORE ++ f ++ rel)
        = option_map captured (get fs0 (f ++ rel)))
  /\ (forall q, apart q STORE -> get (fs_of o) q = get fs0 q).
Proof.
  intros Hus Hl.
  destruct (track_pairs fs0 l Hus Hl)
    as (fs1 & fs' & ses' & He & Ht & Hset & Hdirs & Hwf & Hget).
  destruct (snapshot_in fs0 l ses' fs' Hl Hdirs Hwf Hget
              (get_set_at_same _ _ _ _ Hset)) as (Hcap & _).
  cbv zeta. rewrite Ht. cbn [fs_of printed crashed].
  repeat split; auto.
  - intros Hnd. f_equal. apply track_lines_fresh; auto.
  - intros q Hq.
    rewrite (get_set_at_apart _ _ _ _ _ Hset (apart_sym _ _ Hq)).
    exact (emptied_frame _ _ _ _ He Hq).
Qed.

(** X3: after such a [track], [list_tracked_folders] prints exactly the
    folders that were given, each once. *)
Theorem list_shows_what_track_captured fs0 l :
  store_usable home fs0 = true ->
  (forall f, In f l -> trackable STORE fs0 f) ->
  exists roots,
    list_tracked_folders home (fs_of (track home fs0 l))
    = mk_outcome (fs_of (track home fs0 l)) [Currently_tracked roots] false
    /\ NoDup roots
    /\ (forall R, In R roots <-> In R l).
Proof.
  intros Hus Hl.
  destruct (track_pairs fs0 l Hus Hl)
    as (fs1 & fs' & ses' & He & Ht & Hset & Hdirs & Hwf & Hget).
  pose proof (get_set_at_same _ _ _ _ Hset) as Hs.
  destruct (snapshot_in fs0 l ses' fs' Hl Hdirs Hwf Hget Hs)
    as (_ & Hnd & Hroots).
  rewrite Ht. cbn [fs_of].
  exists (map fst (tracked_roots home fs')). split; [| split; assumption].
  unfold list_tracked_folders.
  now rewrite (exists_get _ _ _ Hs eq_refl), (is_dir_get _ _ _ _ Hs).
Qed.

End TrackMany.

Lemma track_captures_every_folder_witness :
  store_usable Scenario.home Scenario.fs_initial = true
  /\ printed (track Scenario.home Scenario.fs_initial [["data"; "proj"]])
     = [Tracked_folder ["data"; "proj"] (Scenario.store ++ ["data"; "proj"]);
        Folders_have_been_tracked]
  /\ get (fs_of (track Scenario.home Scenario.fs_initial [["data"; "proj"]]))
         (Scenario.store ++ ["data"; "proj"; "a.txt"])
     = Some (File "hi" 420 1).
Proof.
  split; [reflexivity |].
  assert (Ht : forall f, In f [["data"; "proj"]] ->
                         trackable Scenario.store Scenario.fs_initial f).
  { intros f [<- | []]. split; [reflexivity | split; [split; reflexivity |]].
    exists 493%Z, [("a.txt", File "hi" 420 1); ("link", Link false ["a.txt"])].
    split; reflexivity. }
  destruct (track_captures_every_folder Scenario.home Scenario.fs_initial
              [["data"; "proj"]] eq_refl Ht) as (_ & H2 & _ & H4 & _).
  split; [exact H2 |].
  exact (H4 ["data"; "proj"] ["a.txt"] (or_introl eq_refl)).
Defined.

Lemma list_shows_what_track_captured_witness :
  store_usable Scenario.home Scenario.fs_initial = true
  /\ exists roots,
       printed (list_tracked_folders Scenario.home Scenario.fs_tracked)
       = [Currently_tracked roots]
       /\ In ["data"; "proj"] roots.
Proof.
  split; [reflexivity |].
  assert (Ht : forall f, In f [["data"; "proj"]] ->
                         trackable Scenario.store Scenario.fs_initial f).
  { intros f [<- | []]. split; [reflexivity | split; [split; reflexivity |]].
    exists 493%Z, [("a.txt", File "hi" 420 1); ("link", Link false ["a.txt"])].
    split; reflexivity. }
  destruct (list_shows_what_track_captured Scenario.home Scenario.fs_initial
              [["data"; "proj"]] eq_refl Ht) as (roots & H1 & _ & H3).
  exists roots. split.
  - exact (f_equal printed H1).
  - apply H3. now left.
Defined.

Section Again.

Variable home : path.
#[local] Abbreviation STORE := (BACKUP_DIR home).
#[local] Abbreviation dot := ".foam_backup".

Lemma emptied_again fs fs1 :
  emptied home fs = Some fs1 -> emptied home fs1 = Some fs1.
Proof.
  unfold emptied.
  destruct (get fs home) as [[| | hm hes] |] eqn:Hh; try discriminate.
  intros H. rewrite (get_set_at_same _ _ _ _ H).
  rewrite del_child_set_child.
  rewrite (del_child_absent dot (del_child dot hes))
    by apply assoc_del_child_same.
  apply set_at_get_id. exact (get_set_at_same _ _ _ _ H).
Qed.

Lemma store_usable_of_store fs m es :
  get fs STORE = Some (Dir m es) -> store_usable home fs = true.
Proof.
  intros H. destruct (store_in_home _ _ _ _ H) as (hm & hes & Hh & Hs).
  unfold store_usable. now rewrite Hh, Hs.
Qed.

(** X4: tracking the same folders again, nothing having changed in
    between, prints the same lines and leaves the same filesystem: the
    earlier snapshot is dropped and the same one is made. *)
Theorem tracking_again_gives_the_same_snapshot fs0 l :
  store_usable home fs0 = true ->
  (forall f, In f l -> trackable STORE fs0 f) ->
  track home (fs_of (track home fs0 l)) l = track home fs0 l.
Proof.
  intros Hus Hl.
  destruct (track_pairs home fs0 l Hus Hl)
    as (fs1 & fs' & ses' & He & Ht & Hset & _).
  rewrite Ht at 1. cbn [fs_of].
  pose proof (emptied_store _ _ _ He) as Hs1.
  pose proof (get_set_at_same _ _ _ _ Hset) as Hs'.
  assert (He' : emptied home fs' = Some fs1).
  { rewrite (emptied_forgets home fs1 _ _ _ fs' Hs1 Hset).
    exact (emptied_again _ _ He). }
  destruct (track_start home fs' l (store_usable_of_store _ _ _ Hs'))
    as (fs1' & He1' & ->).
  destruct (track_start home fs0 l Hus) as (fs1'' & He1'' & ->).
  congruence.
Qed.

End Again.

Lemma tracking_again_gives_the_same_snapshot_witness :
  store_usable Scenario.home Scenario.fs_initial = true
  /\ track Scenario.home Scenario.fs_tracked [["data"; "proj"]]
     = track Scenario.home Scenario.fs_initial [["data"; "proj"]].
Proof.
  split; [reflexivity |].
  assert (Ht : forall f, In f [["data"; "proj"]] ->
                         trackable Scenario.store Scenario.fs_initial f).
  { intros f [<- | []]. split; [reflexivity | split; [split; reflexivity |]].
    exists 493%Z, [("a.txt", File "hi" 420 1); ("link", Link false ["a.txt"])].
    split; reflexivity. }
  exact (tracking_again_gives_the_same_snapshot Scenario.home
           Scenario.fs_initial [["data"; "proj"]] eq_refl Ht).
Defined.

(* ================================================================== *)
(** ** [undo_tracking] and [ensure_backup_dir] *)

Section Undo.

Variable home : path.
#[local] Abbreviation STORE := (BACKUP_DIR home).
#[local] Abbreviation dot := ".foam_backup".

Lemma undo_of_store fs m es :
  get fs STORE = Some (Dir m es) ->
  exists hm hes fs',
    get fs home = Some (Dir hm hes)
    /\ set_at fs home (Dir hm (del_child dot hes)) = Some fs'
    /\ del_at fs STORE = Some fs'
    /\ undo_tracking home fs = mk_outcome fs' [Cleared_all_tracked] false.
Proof.
  intros H. destruct (store_in_home _ _ _ _ H) as (hm & hes & Hh & Hs).
  destruct (set_at_defined fs home _ (Dir hm (del_child dot hes)) Hh)
    as [fs' H'].
  exists hm, hes, fs'. split; [exact Hh | split; [exact H' | split]].
  - unfold BACKUP_DIR. rewrite (del_at_parent _ _ _ _ _ _ Hh Hs). exact H'.
  - unfold undo_tracking. rewrite (exists_get _ _ _ H eq_refl). cbn [negb].
    unfold rmtree_remove_readonly, BACKUP_DIR.
    rewrite (lstat_child _ _ _ _ Hh), Hs.
    rewrite (rmtree_child _ _ _ _ Hh _ _ Hs eq_refl), H'. reflexivity.
Qed.

Lemma no_store_after fs hm hes fs' :
  get fs home = Some (Dir hm hes) ->
  set_at fs home (Dir hm (del_child dot hes)) = Some fs' ->
  get fs' STORE = None /\ exists_ fs' STORE = false.
Proof.
  intros Hh H'.
  pose proof (get_set_at_same _ _ _ _ H') as Hh'.
  split.
  - unfold BACKUP_DIR. rewrite get_snoc, Hh'. apply assoc_del_child_same.
  - unfold exists_, BACKUP_DIR.
    now rewrite (stat_child_absent _ _ _ _ Hh' _ (assoc_del_child_same _ _)).
Qed.

(** X5: [undo_tracking] on a store that is a real directory (permission
    bits are not enforced in this model: the run may delete what the store
    holds): the store is deleted with all it holds, the success line is
    printed, nothing outside the store changes; afterwards [list] and a
    second [undo] report that nothing is tracked and [reset] that there is
    nothing to reset, none of them changing anything. *)
Theorem undo_removes_the_snapshot fs m es :
  get fs STORE = Some (Dir m es) ->
  let o := undo_tracking home fs in
  crashed o = false
  /\ printed o = [Cleared_all_tracked]
  /\ del_at fs STORE = Some (fs_of o)
  /\ (forall rel, get (fs_of o) (STORE ++ rel) = None)
  /\ (forall q, apart q STORE -> get (fs_of o) q = get fs q)
  /\ list_tracked_folders home (fs_of o)
     = mk_outcome (fs_of o) [No_folders_tracked] false
  /\ reset home (fs_of o) []
     = mk_outcome (fs_of o) [No_tracked_folders_to_reset] false
  /\ undo_tracking home (fs_of o)
     = mk_outcome (fs_of o) [No_folders_tracked] false.
Proof.
  intros H.
  destruct (undo_of_store fs m es H) as (hm & hes & fs' & Hh & H' & Hdel & Hu).
  destruct (no_store_after fs hm hes fs' Hh H') as [Hnone Hex].
  cbv zeta. rewrite Hu. cbn [fs_of printed crashed].
  repeat split; auto.
  - intros rel. now rewrite get_app, Hnone.
  - intros q Hq. eapply get_parent_write_apart; eauto.
    intros k' Hk'. apply assoc_del_child_other. congruence.
  - unfold list_tracked_folders. now rewrite Hex.
  - unfold reset. now rewrite Hex.
  - unfold undo_tracking. now rewrite Hex.
Qed.

(** X6: [track] followed by [undo_tracking] leaves the filesystem
    [undo_tracking] alone would have left; when there was no store before,
    that is the filesystem [track] started from: the folders are never
    modified by [track], and the store is gone. *)
Theorem undo_reverts_track fs0 l :
  store_usable home fs0 = true ->
  (forall f, In f l -> trackable STORE fs0 f) ->
  fs_of (undo_tracking home (fs_of (track home fs0 l)))
  = fs_of (undo_tracking home fs0)
  /\ (get fs0 STORE = None ->
      fs_of (undo_tracking home (fs_of (track home fs0 l))) = fs0).
Proof.
  intros Hus Hl.
  destruct (track_pairs home fs0 l Hus Hl)
    as (fs1 & fs' & ses' & He & Ht & Hset & _).
  rewrite Ht. cbn [fs_of].
  pose proof (get_set_at_same _ _ _ _ Hset) as Hs'.
  destruct (undo_of_store fs' _ _ Hs') as (hm' & hes' & fs2 & Hh' & H2 & _ & Hu).
  rewrite Hu. cbn [fs_of].
  (* the home directory before and after *)
  unfold store_usable in Hus. unfold emptied in He.
  destruct (get fs0 home) as [[| | hm hes] |] eqn:Hh; try discriminate.
  pose proof (get_set_at_same _ _ _ _ He) as Hh1.
  unfold BACKUP_DIR in Hset. rewrite (set_at_parent _ _ _ _ _ _ Hh1) in Hset.
  rewrite (get_set_at_same _ _ _ _ Hset) in Hh'. injection Hh' as <- <-.
  rewrite !del_child_set_child in H2.
  rewrite (del_child_absent dot (del_child dot hes))
    in H2 by apply assoc_del_child_same.
  rewrite (set_at_twice _ _ _ _ _ Hset), (set_at_twice _ _ _ _ _ He) in H2.
  assert (Hno : assoc dot hes = None -> fs2 = fs0).
  { intros Hn. rewrite (del_child_absent _ _ Hn) in H2.
    rewrite (set_at_get_id _ _ _ Hh) in H2. congruence. }
  split.
  - destruct (assoc dot hes) as [[| | sm ses] |] eqn:Ed; try discriminate.
    + assert (Hs0 : get fs0 STORE = Some (Dir sm ses))
        by (unfold BACKUP_DIR; now rewrite get_snoc, Hh).
      destruct (undo_of_store fs0 _ _ Hs0) as (hm0 & hes0 & fs3 & Hh0 & H3 & _ & Hu0).
      rewrite Hu0. cbn [fs_of]. rewrite Hh in Hh0. injection Hh0 as <- <-.
      congruence.
    + rewrite (Hno eq_refl). unfold undo_tracking.
      assert (Hex : exists_ fs0 STORE = false).
      { unfold exists_, BACKUP_DIR.
        now rewrite (stat_child_absent _ _ _ _ Hh _ Ed). }
      now rewrite Hex.
  - intros Hn. apply Hno. unfold BACKUP_DIR in Hn.
    now rewrite get_snoc, Hh in Hn.
Qed.

(** X7: [ensure_backup_dir] never removes or replaces anything.  When the
    home directory is a real directory and the store's place is free or
    holds a real directory, it succeeds; afterwards the store is a
    directory; an existing store is left exactly as it is, a missing one
    is made empty; nothing outside the store changes, and a second call
    changes nothing. *)
Theorem ensure_backup_dir_makes_the_store_once fs :
  (forall fs', ensure_backup_dir home fs = Some fs' -> keeps fs fs')
  /\ (store_usable home fs = true ->
      exists fs',
        ensure_backup_dir home fs = Some fs'
        /\ is_dir fs' STORE = true
        /\ (forall m es, get fs STORE = Some (Dir m es) -> fs' = fs)
        /\ (get fs STORE = None ->
            get fs' STORE = Some (Dir DEFAULT_DIR_MODE []))
        /\ (forall q, apart q STORE -> get fs' q = get fs q)
        /\ ensure_backup_dir home fs' = Some fs').
Proof.
  split.
  - unfold ensure_backup_dir. intros fs'.
    destruct (exists_ fs STORE); [intros [= <-]; apply keeps_refl |].
    destruct (mkdir_parents fs home) as [fs1 |] eqn:E1; [| discriminate].
    intros E2. eapply keeps_trans.
    + eapply mkdir_from_keeps. exact E1.
    + eapply os_mkdir_keeps. exact E2.
  - unfold store_usable.
    destruct (get fs home) as [[| | hm hes] |] eqn:Hh; try discriminate.
    destruct (assoc dot hes) as [[| | sm ses] |] eqn:Hs; try discriminate;
      intros _.
    + assert (H : get fs STORE = Some (Dir sm ses))
        by (unfold BACKUP_DIR; now rewrite get_snoc, Hh).
      assert (E : ensure_backup_dir home fs = Some fs).
      { unfold ensure_backup_dir. now rewrite (exists_get _ _ _ H eq_refl). }
      exists fs. repeat split; auto.
      * eapply is_dir_get; eauto.
      * intros Hn. congruence.
    + destruct (set_at_defined fs home _
                  (Dir hm (set_child dot (Dir DEFAULT_DIR_MODE []) hes)) Hh)
        as [fs1 H1].
      assert (Hex : exists_ fs STORE = false).
      { unfold exists_, BACKUP_DIR.
        now rewrite (stat_child_absent _ _ _ _ Hh _ Hs). }
      assert (Hs1 : get fs1 STORE = Some (Dir DEFAULT_DIR_MODE [])).
      { unfold BACKUP_DIR. rewrite get_snoc, (get_set_at_same _ _ _ _ H1).
        apply assoc_set_child_same. }
      exists fs1. repeat split.
      * unfold ensure_backup_dir. rewrite Hex.
        rewrite (mkdir_parents_dir _ _ _ _ Hh). unfold BACKUP_DIR.
        now rewrite (os_mkdir_child _ _ _ _ Hh _ Hs).
      * eapply is_dir_get; eauto.
      * intros m es H. unfold BACKUP_DIR in H.
        rewrite get_snoc, Hh, Hs in H. discriminate.
      * intros _. exact Hs1.
      * intros q Hq. eapply get_parent_write_apart; eauto.
        intros k' Hk'. apply assoc_set_child_other. congruence.
      * unfold ensure_backup_dir. now rewrite (exists_get _ _ _ Hs1 eq_refl).
Qed.

End Undo.

Lemma undo_removes_the_snapshot_witness :
  get Scenario.fs_tracked Scenario.store
    = Some (Dir DEFAULT_DIR_MODE
              [("data", Dir DEFAULT_DIR_MODE [("proj", Scenario.proj)])])
  /\ printed (undo_tracking Scenario.home Scenario.fs_tracked)
     = [Cleared_all_tracked]
  /\ get (fs_of (undo_tracking Scenario.home Scenario.fs_tracked))
         Scenario.store = None.
Proof.
  split; [reflexivity |].
  destruct (undo_removes_the_snapshot Scenario.home Scenario.fs_tracked
              DEFAULT_DIR_MODE
              [("data", Dir DEFAULT_DIR_MODE [("proj", Scenario.proj)])]
              eq_refl) as (_ & H2 & _ & H4 & _).
  split; [exact H2 | exact (H4 [])].
Defined.

Lemma undo_reverts_track_witness :
  store_usable Scenario.home Scenario.fs_initial = true
  /\ get Scenario.fs_initial Scenario.store = None
  /\ fs_of (undo_tracking Scenario.home Scenario.fs_tracked)
     = Scenario.fs_initial.
Proof.
  split; [reflexivity | split; [reflexivity |]].
  assert (Ht : forall f, In f [["data"; "proj"]] ->
                         trackable Scenario.store Scenario.fs_initial f).
  { intros f [<- | []]. split; [reflexivity | split; [split; reflexivity |]].
    exists 493%Z, [("a.txt", File "hi" 420 1); ("link", Link false ["a.txt"])].
    split; reflexivity. }
  exact (proj2 (undo_reverts_track Scenario.home Scenario.fs_initial
                  [["data"; "proj"]] eq_refl Ht) eq_refl).
Defined.

Lemma ensure_backup_dir_makes_the_store_once_witness :
  store_usable Scenario.home Scenario.fs_initial = true
  /\ exists fs',
       ensure_backup_dir Scenario.home Scenario.fs_initial = Some fs'
       /\ is_dir fs' Scenario.store = true
       /\ ensure_backup_dir Scenario.home fs' = Some fs'.
Proof.
  split; [reflexivity |].
  destruct (proj2 (ensure_backup_dir_makes_the_store_once Scenario.home
                     Scenario.fs_initial) eq_refl)
    as (fs' & H1 & H2 & _ & _ & _ & H6).
  exists fs'. split; [exact H1 | split; [exact H2 | exact H6]].
Defined.

(* ================================================================== *)
(** ** [reset] over several roots *)

Lemma assoc_restored k es :
  assoc k (map (fun e => (fst e, restored (snd e))) es)
  = option_map restored (assoc k es).
Proof.
  induction es as [| [k0 c] r IH]; simpl; [reflexivity |].
  destruct (String.eqb k k0); [reflexivity | exact IH].
Qed.

Lemma restored_listing m es :
  NoDup (names es) ->
  restored (Dir m es)
  = Dir DEFAULT_DIR_MODE (map (fun e => (fst e, restored (snd e))) es).
Proof.
  intros Hnd. rewrite restored_Dir. unfold merged.
  rewrite fold_replace_fresh; auto.
Qed.

Lemma get_restored T : forall p,
  wfb T = true -> get (restored T) p = option_map restored (get T p).
Proof.
  induction T as [| | m es IH] using node_ind'; intros p Hwf.
  - destruct p; reflexivity.
  - destruct p; reflexivity.
  - destruct p as [| k p]; [reflexivity |].
    destruct (wfb_Dir _ _ Hwf) as [Hnd Hall].
    rewrite (restored_listing _ _ Hnd). cbn [get]. rewrite assoc_restored.
    destruct (assoc k es) as [c |] eqn:E; [| reflexivity].
    rewrite Forall_forall in IH, Hall. cbn [option_map].
    exact (IH (k, c) (assoc_In _ _ _ E) p (Hall _ (assoc_In _ _ _ E))).
Qed.

Lemma wfb_get T : forall p c, wfb T = true -> get T p = Some c -> wfb c = true.
Proof.
  induction T as [| | m es IH] using node_ind'; intros p c Hwf H.
  - destruct p; [now injection H as <- | discriminate].
  - destruct p; [now injection H as <- | discriminate].
  - destruct p as [| k p]; [now injection H as <- |].
    cbn [get] in H. destruct (assoc k es) as [c0 |] eqn:E; [| discriminate].
    destruct (wfb_Dir _ _ Hwf) as [_ Hall].
    rewrite Forall_forall in IH, Hall.
    exact (IH (k, c0) (assoc_In _ _ _ E) p c (Hall _ (assoc_In _ _ _ E)) H).
Qed.

Lemma content_restored c : wfb c = true -> content (restored c) = content c.
Proof.
  induction c as [| | m es IH] using node_ind'; intros H; try reflexivity.
  destruct (wfb_Dir _ _ H) as [Hnd Hwf].
  rewrite (restored_listing _ _ Hnd). cbn [content]. f_equal.
  rewrite map_map. cbn [fst snd]. apply map_ext_in. intros e He. f_equal.
  rewrite Forall_forall in IH, Hwf. apply IH; auto.
Qed.

Section Mirror.

Variable home : path.
#[local] Abbreviation STORE := (BACKUP_DIR home).

(** X10: [reset] over any number of tracked roots, each ready and all
    distinct: no error is reported; below every name captured directly
    inside a root the original tree is afterwards exactly the image of the
    snapshot (a path exists there if and only if the snapshot has it, so
    what was added below a captured sub-directory is gone); a name directly
    inside a root that the snapshot does not hold is left with all it
    holds; everything away from the roots, the store included, is
    unchanged. *)
Theorem reset_mirrors_the_snapshot fs :
  is_dir fs STORE = true ->
  forallb (ready home fs) (tracked_roots home fs) = true ->
  NoDup (map fst (tracked_roots home fs)) ->
  let o := reset home fs [] in
  (exists d f, printed o = [Reset_complete d f])
  /\ (forall R B k rel,
        In (R, B) (tracked_roots home fs) ->
        get (fs_of o) (R ++ k :: rel)
        = match get fs (B ++ [k]) with
          | Some _ => option_map restored (get fs (B ++ k :: rel))
          | None => get fs (R ++ k :: rel)
          end)
  /\ (forall q, (forall R, In R (map fst (tracked_roots home fs)) -> apart R q) ->
                get (fs_of o) q = get fs q).
Proof.
  intros Hdir Hready Hnd.
  destruct (reset_pass home fs Hdir Hready Hnd) as (fs' & Hreset & Hframe & _).
  destruct (reset_restores_roots home fs Hdir Hready Hnd) as [_ Hres].
  cbv zeta. rewrite Hreset in *. cbn [fs_of printed] in *.
  split; [unfold summary; cbn [Nat.ltb Nat.leb]; eauto | split].
  - intros R B k rel Hin.
    rewrite forallb_forall in Hready.
    destruct (ready_spec _ _ _ (Hready _ Hin))
      as (bm & bes & _ & _ & Hb & Hwf & _). cbn [fst snd] in Hb.
    destruct (Hres R B bm bes Hin Hb) as [Hcap Hother].
    replace (R ++ k :: rel) with ((R ++ [k]) ++ rel)
      by now rewrite <- app_assoc.
    replace (B ++ k :: rel) with ((B ++ [k]) ++ rel)
      by now rewrite <- app_assoc.
    rewrite (get_app fs'), (get_app fs (B ++ [k])), (get_app fs (R ++ [k])).
    rewrite (get_snoc fs B), Hb.
    destruct (assoc k bes) as [c |] eqn:Ek.
    + rewrite (Hcap k c Ek). apply get_restored.
      exact (wfb_child _ _ _ _ Hwf Ek).
    + now rewrite (Hother k Ek).
  - intros q Hq. apply Hframe. intros r Hr. apply Hq. now apply in_map.
Qed.

End Mirror.

Lemma reset_mirrors_the_snapshot_witness :
  is_dir Scenario.fs_mutated Scenario.store = true
  /\ forallb (ready Scenario.home Scenario.fs_mutated)
             (tracked_roots Scenario.home Scenario.fs_mutated) = true
  /\ NoDup (map fst (tracked_roots Scenario.home Scenario.fs_mutated))
  /\ get (fs_of (reset Scenario.home Scenario.fs_mutated []))
         ["data"; "proj"; "a.txt"]
     = Some (File "hi" 420 1).
Proof.
  assert (Hnd : NoDup (map fst (tracked_roots Scenario.home Scenario.fs_mutated))).
  { change (NoDup [["data"; "proj"]]). repeat constructor. simpl. tauto. }
  split; [reflexivity | split; [reflexivity | split; [exact Hnd |]]].
  destruct (reset_mirrors_the_snapshot Scenario.home Scenario.fs_mutated
              eq_refl eq_refl Hnd) as (_ & H2 & _).
  exact (H2 ["data"; "proj"] (Scenario.store ++ ["data"; "proj"]) "a.txt" []
            (or_introl eq_refl)).
Defined.

Section Many.

Variable home : path.
#[local] Abbreviation STORE := (BACKUP_DIR home).

(** Tracked, changed, reset: what stands below the captured names. *)
Lemma round_trip_exact fs0 l fs :
  store_usable home fs0 = true ->
  (forall f, In f l -> trackable STORE fs0 f) ->
  get fs STORE = get (fs_of (track home fs0 l)) STORE ->
  (forall f tm tes,
     In f l -> get fs0 f = Some (Dir tm tes) ->
     exists rm L, get fs f = Some (Dir rm L)
                  /\ forallb (no_link_at L) (names tes) = true) ->
  let o := reset home fs [] in
  crashed o = false
  /\ (exists d n, printed o = [Reset_complete d n])
  /\ (forall f k rel,
        In f l -> get fs0 (f ++ [k]) <> None ->
        get (fs_of o) (f ++ k :: rel)
        = option_map (fun c => restored (captured c))
                     (get fs0 (f ++ k :: rel)))
  /\ (forall f k rel,
        In f l -> get fs0 (f ++ [k]) = None ->
        get (fs_of o) (f ++ k :: rel) = get fs (f ++ k :: rel))
  /\ (forall q, (forall f, In f l -> apart f q) -> get (fs_of o) q = get fs q).
Proof.
  intros Hus Hl Hstore Hlive.
  destruct (track_pairs home fs0 l Hus Hl)
    as (fs1 & fst' & ses' & _ & Ht & Hset & Hdirs & Hwf & Hget).
  rewrite Ht in Hstore. cbn [fs_of] in Hstore.
  rewrite (get_set_at_same _ _ _ _ Hset) in Hstore.
  destruct (snapshot_in home fs0 l ses' fs Hl Hdirs Hwf Hget Hstore)
    as (Hcap & Hnd & Hroots).
  assert (Hdir : is_dir fs STORE = true) by (eapply is_dir_get; eauto).
  assert (Hin : forall R B, In (R, B) (tracked_roots home fs) ->
                            In R l /\ B = STORE ++ R).
  { intros R B H. split.
    - apply Hroots. apply in_map_iff. now exists (R, B).
    - apply tracked_roots_In in H as (a & b & -> & -> & _). reflexivity. }
  assert (Hready : forallb (ready home fs) (tracked_roots home fs) = true).
  { apply forallb_forall. intros [R B] Hr.
    destruct (Hin R B Hr) as [HR ->].
    destruct (Hl R HR) as (_ & Hap & tm & tes & HP & Hwft).
    destruct (Hlive R tm tes HR HP) as (rm & L & HRL & Hnl).
    pose proof (Hcap R [] HR) as HB. rewrite !app_nil_r, HP in HB.
    cbn [option_map] in HB.
    unfold ready. cbn [fst snd]. rewrite HB, HRL. cbn [captured].
    change (wfb (Dir tm (map (fun e => (fst e, captured (snd e))) tes)))
      with (wfb (captured (Dir tm tes))).
    rewrite (wfb_captured _ Hwft), names_captured, Hnl.
    now apply apartb_apart in Hap as ->. }
  destruct (reset_pass home fs Hdir Hready Hnd) as (fs' & Hreset & Hframe & _).
  destruct (reset_restores_roots home fs Hdir Hready Hnd) as [_ Hres].
  cbv zeta. rewrite Hreset in *. cbn [fs_of printed crashed] in *.
  assert (Hroot : forall f, In f l -> In (f, STORE ++ f) (tracked_roots home fs)).
  { intros f Hf. apply Hroots in Hf.
    apply in_map_iff in Hf as ([R B] & E & Hr). cbn [fst] in E. subst R.
    now destruct (Hin f B Hr) as [_ ->]. }
  assert (Hname : forall f k tm tes, In f l -> get fs0 f = Some (Dir tm tes) ->
            (forall c, assoc k tes = Some c ->
                       get fs' (f ++ [k]) = Some (restored (captured c)))
            /\ (assoc k tes = None -> get fs' (f ++ [k]) = get fs (f ++ [k]))).
  { intros f k tm tes Hf HP.
    pose proof (Hcap f [] Hf) as HB. rewrite !app_nil_r, HP in HB.
    cbn [option_map captured] in HB.
    destruct (Hres f (STORE ++ f) _ _ (Hroot f Hf) HB) as [H1 H2]. split.
    - intros c Hc. apply H1. now rewrite assoc_captured, Hc.
    - intros Hc. apply H2. now rewrite assoc_captured, Hc. }
  split; [reflexivity |].
  split; [unfold summary; cbn [Nat.ltb Nat.leb]; eauto |].
  split; [| split].
  - intros f k rel Hf Hk.
    destruct (Hl f Hf) as (_ & _ & tm & tes & HP & Hwft).
    destruct (Hname f k tm tes Hf HP) as [H1 _].
    rewrite get_snoc, HP in Hk.
    destruct (assoc k tes) as [c |] eqn:Ek; [| congruence].
    replace (f ++ k :: rel) with ((f ++ [k]) ++ rel)
      by now rewrite <- app_assoc.
    rewrite (get_app fs0), get_snoc, HP, Ek, (get_app fs'), (H1 c eq_refl).
    pose proof (wfb_child _ _ _ _ Hwft Ek) as Hwc.
    rewrite (get_restored _ _ (wfb_captured _ Hwc)), get_captured.
    now destruct (get c rel).
  - intros f k rel Hf Hk.
    destruct (Hl f Hf) as (_ & _ & tm & tes & HP & _).
    destruct (Hname f k tm tes Hf HP) as [_ H2].
    rewrite get_snoc, HP in Hk.
    replace (f ++ k :: rel) with ((f ++ [k]) ++ rel)
      by now rewrite <- app_assoc.
    now rewrite (get_app fs'), (get_app fs), (H2 Hk).
  - intros q Hq. apply Hframe. intros [R B] Hr. cbn [fst].
    apply Hq. now destruct (Hin R B Hr).
Qed.

(** X11: several folders are tracked, then anything may happen as long as
    the store is left alone, every tracked folder is still a real directory
    and none of the names captured directly inside it is a symbolic link
    when [reset] runs.  Then [reset] ends normally without error line;
    below every captured name of every folder the paths are again exactly
    those that were there at [track] time, each with the content it had
    (bytes, times, link texts, names; permission bits aside); names not
    captured are left alone; everything away from the folders is
    unchanged. *)
Theorem track_then_reset_restores_every_folder fs0 l fs :
  store_usable home fs0 = true ->
  (forall f, In f l -> trackable STORE fs0 f) ->
  get fs STORE = get (fs_of (track home fs0 l)) STORE ->
  (forall f tm tes,
     In f l -> get fs0 f = Some (Dir tm tes) ->
     exists rm L, get fs f = Some (Dir rm L)
                  /\ forallb (no_link_at L) (names tes) = true) ->
  let o := reset home fs [] in
  crashed o = false
  /\ (exists d n, printed o = [Reset_complete d n])
  /\ (forall f k rel,
        In f l -> get fs0 (f ++ [k]) <> None ->
        match get fs0 (f ++ k :: rel) with
        | Some c => exists c', get (fs_of o) (f ++ k :: rel) = Some c'
                               /\ content c' = content c
        | None => get (fs_of o) (f ++ k :: rel) = None
        end)
  /\ (forall f k rel,
        In f l -> get fs0 (f ++ [k]) = None ->
        get (fs_of o) (f ++ k :: rel) = get fs (f ++ k :: rel))
  /\ (forall q, (forall f, In f l -> apart f q) -> get (fs_of o) q = get fs q).
Proof.
  intros Hus Hl Hstore Hlive.
  destruct (round_trip_exact fs0 l fs Hus Hl Hstore Hlive)
    as (H1 & H2 & H3 & H4 & H5).
  cbv zeta. repeat split; auto.
  intros f k rel Hf Hk. rewrite (H3 f k rel Hf Hk).
  destruct (get fs0 (f ++ k :: rel)) as [c |] eqn:Ec; [| reflexivity].
  cbn [option_map]. eexists. split; [reflexivity |].
  apply content_restored_captured.
  destruct (Hl f Hf) as (_ & _ & tm & tes & HP & Hwf).
  rewrite get_app, HP in Ec. exact (wfb_get _ _ _ Hwf Ec).
Qed.

(** X16: what the round trip does to permission bits, under the
    conditions of X11: below a captured name, a regular file comes back
    with the mode it had at [track] time and the owner's write bit set, a
    link as it was, and a directory with the mode [mkdir] gives (755),
    whatever mode it had, holding the names it had. *)
Theorem reset_brings_back_other_permission_bits fs0 l fs :
  store_usable home fs0 = true ->
  (forall f, In f l -> trackable STORE fs0 f) ->
  get fs STORE = get (fs_of (track home fs0 l)) STORE ->
  (forall f tm tes,
     In f l -> get fs0 f = Some (Dir tm tes) ->
     exists rm L, get fs f = Some (Dir rm L)
                  /\ forallb (no_link_at L) (names tes) = true) ->
  forall f k rel,
    In f l -> get fs0 (f ++ [k]) <> None ->
    match get fs0 (f ++ k :: rel) with
    | Some (File d m t) =>
        get (fs_of (reset home fs [])) (f ++ k :: rel)
        = Some (File d (Z.lor m WRITE_PERMISSION) t)
    | Some (Link a t) =>
        get (fs_of (reset home fs [])) (f ++ k :: rel) = Some (Link a t)
    | Some (Dir m es) =>
        exists es',
          get (fs_of (reset home fs [])) (f ++ k :: rel)
          = Some (Dir DEFAULT_DIR_MODE es')
          /\ names es' = names es
    | None => get (fs_of (reset home fs [])) (f ++ k :: rel) = None
    end.
Proof.
  intros Hus Hl Hstore Hlive f k rel Hf Hk.
  destruct (round_trip_exact fs0 l fs Hus Hl Hstore Hlive)
    as (_ & _ & H3 & _).
  rewrite (H3 f k rel Hf Hk).
  destruct (get fs0 (f ++ k :: rel)) as [[d m t | a t | m es] |] eqn:Ec;
    try reflexivity.
  destruct (Hl f Hf) as (_ & _ & tm & tes & HP & Hwf).
  rewrite get_app, HP in Ec. pose proof (wfb_get _ _ _ Hwf Ec) as Hwc.
  destruct (wfb_Dir _ _ (wfb_captured _ Hwc)) as [Hnd _].
  cbn [option_map captured] in *. rewrite (restored_listing _ _ Hnd).
  eexists. split; [reflexivity |].
  unfold names. rewrite !map_map. now apply map_ext.
Qed.

End Many.

Lemma track_then_reset_restores_every_folder_witness :
  store_usable Scenario.home Scenario.fs_initial = true
  /\ get Scenario.fs_mutated Scenario.store
     = get Scenario.fs_tracked Scenario.store
  /\ (exists c',
        get (fs_of (reset Scenario.home Scenario.fs_mutated []))
            ["data"; "proj"; "link"] = Some c'
        /\ content c' = content (Link false ["a.txt"]))
  /\ get (fs_of (reset Scenario.home Scenario.fs_mutated [])) Scenario.store
     = get Scenario.fs_mutated Scenario.store.
Proof.
  split; [reflexivity | split; [reflexivity |]].
  assert (Ht : forall f, In f [["data"; "proj"]] ->
                         trackable Scenario.store Scenario.fs_initial f).
  { intros f [<- | []]. split; [reflexivity | split; [split; reflexivity |]].
    exists 493%Z, [("a.txt", File "hi" 420 1); ("link", Link false ["a.txt"])].
    split; reflexivity. }
  destruct (track_then_reset_restores_every_folder Scenario.home
              Scenario.fs_initial [["data"; "proj"]] Scenario.fs_mutated
              eq_refl Ht eq_refl) as (_ & _ & H3 & _ & H5).
  - intros f tm tes [<- | []] HP. injection HP as <- <-.
    exists 493%Z, [("a.txt", File "bye" 420 2)]. split; reflexivity.
  - split.
    + exact (H3 ["data"; "proj"] "link" [] (or_introl eq_refl)
                ltac:(discriminate)).
    + apply H5. intros f [<- | []]. split; reflexivity.
Defined.

Lemma reset_brings_back_other_permission_bits_witness :
  store_usable Scenario.home Scenario.fs_initial = true
  /\ get Scenario.fs_mutated Scenario.store
     = get Scenario.fs_tracked Scenario.store
  /\ get (fs_of (reset Scenario.home Scenario.fs_mutated []))
         ["data"; "proj"; "a.txt"]
     = Some (File "hi" (Z.lor 420 WRITE_PERMISSION) 1).
Proof.
  split; [reflexivity | split; [reflexivity |]].
  assert (Ht : forall f, In f [["data"; "proj"]] ->
                         trackable Scenario.store Scenario.fs_initial f).
  { intros f [<- | []]. split; [reflexivity | split; [split; reflexivity |]].
    exists 493%Z, [("a.txt", File "hi" 420 1); ("link", Link false ["a.txt"])].
    split; reflexivity. }
  refine (reset_brings_back_other_permission_bits Scenario.home
            Scenario.fs_initial [["data"; "proj"]] Scenario.fs_mutated
            eq_refl Ht eq_refl _ ["data"; "proj"] "a.txt" []
            (or_introl eq_refl) ltac:(discriminate)).
  intros f tm tes [<- | []] HP. injection HP as <- <-.
  exists 493%Z, [("a.txt", File "bye" 420 2)]. split; reflexivity.
Defined.

(* ================================================================== *)
(** ** [reset] when a tracked folder is gone *)

Lemma stat_below_file fs P b d m t rel :
  get fs (P ++ [b]) = Some (File d m t) -> rel <> [] ->
  stat fs ((P ++ [b]) ++ rel) = None.
Proof.
  intros H Hrel.
  destruct (get_prefix_dir fs P [b] _ H) as (pm & pes & HP); [discriminate |].
  unfold stat, realpath. rewrite <- app_assoc.
  rewrite (walk_dirs _ _ _ [] P ([b] ++ rel) _ _ HP). cbn [app].
  rewrite walk_eq, H. destruct rel; [congruence | reflexivity].
Qed.

Lemma mkdir_parents_below_file fs P b d m t x :
  get fs (P ++ [b]) = Some (File d m t) ->
  mkdir_parents fs ((P ++ [b]) ++ x) = None.
Proof.
  intros H.
  destruct (get_prefix_dir fs P [b] _ H) as (pm & pes & HP); [discriminate |].
  unfold mkdir_parents. rewrite <- app_assoc.
  rewrite (mkdir_from_dirs fs [] P ([b] ++ x) _ _ HP). cbn [app mkdir_from].
  unfold is_dir. rewrite (stat_get _ _ _ H eq_refl).
  rewrite (lstat_child _ _ _ _ HP). rewrite get_snoc, HP in H. now rewrite H.
Qed.

(** One turn of the restore loop below a root that is a regular file. *)
Lemma restore_entry_blocked s e P b d m t rel :
  get (r_fs s) (P ++ [b]) = Some (File d m t) ->
  e_original e = (P ++ [b]) ++ rel -> rel <> [] ->
  e_original e <> e_root e ->
  restore_entry s e
  = mk_rstate (r_fs s) (S (r_errors s))
              (r_out s ++ [Could_not_restore (e_original e)]).
Proof.
  intros H Ho Hrel Hroot. unfold restore_entry.
  destruct (path_eq_dec (e_original e) (e_root e)); [contradiction |].
  unfold prepare, exists_. rewrite Ho at 1.
  rewrite (stat_below_file _ _ _ _ _ _ _ H Hrel).
  destruct (is_file (r_fs s) (e_backup e) || is_symlink (r_fs s) (e_backup e)).
  - rewrite Ho at 1. rewrite removelast_app by exact Hrel.
    now rewrite (mkdir_parents_below_file _ _ _ _ _ _ _ H).
  - rewrite Ho at 1. now rewrite (mkdir_parents_below_file _ _ _ _ _ _ _ H).
Qed.

Section Blocked.

Variable home : path.
#[local] Abbreviation STORE := (BACKUP_DIR home).

Lemma restore_all_blocked fs l : forall errs out,
  (forall e, In e l ->
     exists P b d m t rel,
       get fs (P ++ [b]) = Some (File d m t)
       /\ e_original e = (P ++ [b]) ++ rel /\ rel <> []
       /\ e_original e <> e_root e) ->
  restore_all (mk_rstate fs errs out) l
  = mk_rstate fs (errs + List.length l)
              (out ++ map (fun e => Could_not_restore (e_original e)) l).
Proof.
  induction l as [| e l IH]; intros errs out Hl.
  - cbn. now rewrite Nat.add_0_r, app_nil_r.
  - destruct (Hl e (or_introl eq_refl)) as (P & b & d & m & t & rel & H1 & H2 & H3 & H4).
    cbn [restore_all fold_left].
    rewrite (restore_entry_blocked (mk_rstate fs errs out) e P b d m t rel H1 H2 H3 H4).
    cbn [r_fs r_errors r_out]. fold (restore_all (mk_rstate fs (S errs)
      (out ++ [Could_not_restore (e_original e)])) l).
    rewrite IH by (intros e' He'; apply Hl; now right).
    cbn [List.length map]. f_equal; [lia |]. now rewrite <- app_assoc.
Qed.

(** X14: when every tracked folder has been replaced by a regular file,
    [reset] restores nothing and removes nothing: the filesystem is left
    as it is, one line [Could not restore] is printed for every entry of
    [paths_to_reset], in their order, and the summary counts as many
    errors as there are entries. *)
Theorem reset_fails_entry_by_entry_when_roots_are_files fs :
  is_dir fs STORE = true ->
  (forall R B, In (R, B) (tracked_roots home fs) ->
               exists d m t, get fs R = Some (File d m t)) ->
  reset home fs []
  = mk_outcome fs
      (map (fun e => Could_not_restore (e_original e)) (fst (scan home fs))
       ++ summary (snd (scan home fs)) (List.length (fst (scan home fs))))
      false.
Proof.
  intros Hdir Hroots. rewrite (reset_outcome home fs Hdir). cbv zeta.
  rewrite (restore_all_blocked fs (fst (scan home fs)) 0 []).
  - reflexivity.
  - intros e He.
    destruct (scan_entries_below_roots home fs e He)
      as (a & b & rel & Hr & Hrel & ->).
    destruct (Hroots _ _ Hr) as (d & m & t & HR).
    exists [a], b, d, m, t, rel. cbn [e_original e_root app].
    repeat split; auto.
    intros E. apply (f_equal (@List.length _)) in E. cbn in E.
    destruct rel; [congruence | cbn in E; lia].
Qed.

End Blocked.

Lemma reset_fails_entry_by_entry_when_roots_are_files_witness :
  is_dir Mishaps.fs_root_is_file Scenario.store = true
  /\ printed (reset Scenario.home Mishaps.fs_root_is_file [])
     = [Could_not_restore ["data"; "proj"; "a.txt"];
        Could_not_restore ["data"; "proj"; "link"];
        Reset_complete (-1) 2; Encountered_errors 2]
  /\ fs_of (reset Scenario.home Mishaps.fs_root_is_file [])
     = Mishaps.fs_root_is_file.
Proof.
  assert (Hroots : forall R B,
            In (R, B) (tracked_roots Scenario.home Mishaps.fs_root_is_file) ->
            exists d m t, get Mishaps.fs_root_is_file R = Some (File d m t)).
  { intros R B H. vm_compute in H. destruct H as [E | []].
    injection E as <- <-. exists "z", 420%Z, 5%Z. reflexivity. }
  pose proof (reset_fails_entry_by_entry_when_roots_are_files Scenario.home
                Mishaps.fs_root_is_file eq_refl Hroots) as H.
  split; [reflexivity | split].
  - exact (f_equal printed H).
  - exact (f_equal fs_of H).
Defined.

(** The first turn of the restore loop for a root [/a/b] that is no longer
    there, [/a] being a real directory: it makes the root again, as the
    same turn does when the root is there and empty. *)
Lemma restore_entry_makes_root fs a b am aes fsp B bm bes k c errs out :
  get fs [a] = Some (Dir am aes) ->
  assoc b aes = None ->
  set_at fs [a] (Dir am (set_child b (Dir DEFAULT_DIR_MODE []) aes)) = Some fsp ->
  get fs B = Some (Dir bm bes) ->
  get fsp B = Some (Dir bm bes) ->
  assoc k bes = Some c ->
  restore_entry (mk_rstate fs errs out) (mk_entry [a; b] [a; b; k] (B ++ [k]))
  = restore_entry (mk_rstate fsp errs out)
                  (mk_entry [a; b] [a; b; k] (B ++ [k])).
Proof.
  intros Ha Hb Hset HB HBp Hk.
  assert (HR : get fsp [a; b] = Some (Dir DEFAULT_DIR_MODE [])).
  { change [a; b] with ([a] ++ [b]).
    rewrite get_snoc, (get_set_at_same _ _ _ _ Hset).
    apply assoc_set_child_same. }
  assert (Hex : exists_ fs [a; b; k] = false).
  { unfold exists_, stat, realpath. change [a; b; k] with ([a] ++ [b; k]).
    rewrite (walk_dirs _ _ _ [] [a] [b; k] _ _ Ha). cbn [app].
    rewrite walk_eq. change ([a] ++ [b]) with ([a] ++ [b]).
    rewrite (get_snoc fs [a] b), Ha, Hb. reflexivity. }
  assert (Hexp : exists_ fsp [a; b; k] = false).
  { unfold exists_. change [a; b; k] with ([a; b] ++ [k]).
    now rewrite (stat_child_absent _ _ _ _ HR k eq_refl). }
  assert (Hmk : mkdir_parents fs [a; b] = Some fsp).
  { change [a; b] with ([a] ++ [b]).
    now rewrite (mkdir_parents_child _ _ _ _ _ Ha Hb). }
  assert (Hmkp : mkdir_parents fsp [a; b] = Some fsp)
    by exact (mkdir_parents_dir _ _ _ _ HR).
  assert (Hdeep : mkdir_parents fs [a; b; k] = mkdir_parents fsp [a; b; k]).
  { unfold mkdir_parents.
    change [a; b; k] with ([a; b] ++ [k]) at 2.
    rewrite (mkdir_from_dirs fsp [] [a; b] [k] _ _ HR).
    change [a; b; k] with ([a] ++ [b; k]).
    rewrite (mkdir_from_dirs fs [] [a] [b; k] _ _ Ha).
    cbn [app mkdir_from]. unfold is_dir at 1.
    change [a; b] with ([a] ++ [b]).
    rewrite (stat_child_absent _ _ _ _ Ha _ Hb), (lstat_child _ _ _ _ Ha), Hb.
    now rewrite (os_mkdir_child _ _ _ _ Ha _ Hb), Hset. }
  unfold restore_entry. cbn [r_fs r_errors r_out e_original e_backup e_root].
  destruct (path_eq_dec [a; b; k] [a; b]) as [E | _]; [discriminate |].
  unfold prepare. rewrite Hex, Hexp.
  change (removelast [a; b; k]) with [a; b].
  rewrite Hmk, Hmkp, Hdeep.
  assert (Hkind : is_file fs (B ++ [k]) || is_symlink fs (B ++ [k])
                  = is_file fsp (B ++ [k]) || is_symlink fsp (B ++ [k])).
  { rewrite (is_symlink_child _ _ _ _ HB), (is_symlink_child _ _ _ _ HBp), Hk.
    destruct c as [d m t | la lt | dm des]; cbn [is_Link].
    - unfold is_file.
      now rewrite (stat_child _ _ _ _ HB _ _ Hk eq_refl),
                  (stat_child _ _ _ _ HBp _ _ Hk eq_refl).
    - now rewrite !orb_true_r.
    - unfold is_file.
      now rewrite (stat_child _ _ _ _ HB _ _ Hk eq_refl),
                  (stat_child _ _ _ _ HBp _ _ Hk eq_refl). }
  rewrite Hkind.
  destruct (is_file fsp (B ++ [k]) || is_symlink fsp (B ++ [k]));
    [reflexivity |].
  change [a; b; k] with ([a; b] ++ [k]).
  rewrite (mkdir_parents_child _ _ _ _ _ HR (eq_refl : assoc k [] = None)).
  now destruct (set_at_defined fsp [a; b] _
                  (Dir DEFAULT_DIR_MODE
                     (set_child k (Dir DEFAULT_DIR_MODE []) [])) HR) as [x ->].
Qed.

Section Deleted.

Variable home : path.
#[local] Abbreviation STORE := (BACKUP_DIR home).

(** The entries [reset] lists when the store holds one root. *)
Lemma scan_single fs a b m0 m1 bm bes :
  get fs STORE = Some (Dir m0 [(a, Dir m1 [(b, Dir bm bes)])]) ->
  fst (scan home fs)
  = rentries [a; b] [a; b] (STORE ++ [a; b]) (Dir bm bes).
Proof.
  intros Hs.
  assert (HB : get fs (STORE ++ [a; b]) = Some (Dir bm bes)).
  { rewrite get_app, Hs. cbn [get assoc]. rewrite String.eqb_refl.
    cbn [get assoc]. now rewrite String.eqb_refl. }
  rewrite scan_fst, (tracked_roots_single home fs a b _ _ _ Hs eq_refl).
  cbn [flat_map]. rewrite app_nil_r. unfold entries_of_root, rglob.
  cbn [fst snd]. rewrite (stat_get _ _ _ HB eq_refl).
  pose proof (map_entry_for_rglob_node [a; b] (STORE ++ [a; b]) (Dir bm bes) [])
    as X.
  now rewrite !app_nil_r in X.
Qed.

(** X15: a folder [/a/b] is tracked and later deleted, [/a] still being a
    real directory and the store left alone.  [reset] ends normally
    without error line; when the folder held at least one entry at [track]
    time it is made again and holds exactly the paths it had, each with its
    content (permission bits aside); when it was empty at [track] time
    nothing is made and the folder stays missing; nothing away from the
    folder is changed. *)
Theorem reset_recreates_a_deleted_folder fs0 a b tm tes fs am aes :
  store_usable home fs0 = true ->
  get fs0 [a; b] = Some (Dir tm tes) ->
  wfb (Dir tm tes) = true ->
  apart [a; b] STORE ->
  get fs STORE = get (fs_of (track home fs0 [[a; b]])) STORE ->
  get fs [a] = Some (Dir am aes) ->
  assoc b aes = None ->
  let o := reset home fs [] in
  crashed o = false
  /\ (exists d n, printed o = [Reset_complete d n])
  /\ (tes <> [] ->
      forall rel,
        match get fs0 ([a; b] ++ rel) with
        | Some c => exists c', get (fs_of o) ([a; b] ++ rel) = Some c'
                               /\ content c' = content c
        | None => get (fs_of o) ([a; b] ++ rel) = None
        end)
  /\ (tes = [] -> fs_of o = fs)
  /\ (forall q, apart [a; b] q -> get (fs_of o) q = get fs q).
Proof.
  intros Hus HP Hwf Hap Hstore Ha Hb.
  destruct (track_single home fs0 a b tm tes Hus HP Hwf Hap)
    as (fs3 & Ht & Hs3 & _).
  rewrite Ht in Hstore. cbn [fs_of] in Hstore. rewrite Hs3 in Hstore.
  cbn [captured] in Hstore.
  set (ces := map (fun e => (fst e, captured (snd e))) tes) in *.
  assert (Hdir : is_dir fs STORE = true) by (eapply is_dir_get; eauto).
  assert (HB : get fs (STORE ++ [a; b]) = Some (Dir tm ces)).
  { rewrite get_app, Hstore. cbn [get assoc]. rewrite String.eqb_refl.
    cbn [get assoc]. now rewrite String.eqb_refl. }
  pose proof (scan_single fs a b _ _ _ _ Hstore) as Hscan.
  cbv zeta. rewrite (reset_outcome home fs Hdir). cbv zeta.
  cbn [fs_of printed crashed]. rewrite Hscan.
  destruct tes as [| [k c] tes'].
  - (* nothing was captured: there is no entry, nothing is made again *)
    subst ces.
    cbn [rentries map flat_map app restore_all fold_left r_fs r_out r_errors].
    unfold summary. cbn [Nat.ltb Nat.leb app].
    split; [reflexivity | split; [eauto | split; [| split]]].
    + intros H. congruence.
    + reflexivity.
    + reflexivity.
  - (* the root comes back with the first entry *)
    destruct (set_at_defined fs [a] _
                (Dir am (set_child b (Dir DEFAULT_DIR_MODE []) aes)) Ha)
      as [fsp Hset].
    assert (Hframe : forall q, apart q [a; b] -> get fsp q = get fs q).
    { intros q Hq.
      apply (get_parent_write_apart fs [a] am aes _ fsp b q Ha Hset); auto.
      intros k' Hk'. apply assoc_set_child_other. congruence. }
    assert (HR : get fsp [a; b] = Some (Dir DEFAULT_DIR_MODE [])).
    { change [a; b] with ([a] ++ [b]).
      rewrite get_snoc, (get_set_at_same _ _ _ _ Hset).
      apply assoc_set_child_same. }
    assert (HBp : get fsp (STORE ++ [a; b]) = Some (Dir tm ces)).
    { rewrite Hframe; [exact HB |].
      apply apart_sym. now apply apart_app_r. }
    assert (Hwfc : wfb (Dir tm ces) = true)
      by exact (wfb_captured (Dir tm ((k, c) :: tes')) Hwf).
    (* the pass on the filesystem in which the root is there, empty *)
    destruct (restores_every_dir [a; b] (Dir tm ces) fsp 0 [] [a; b]
                (STORE ++ [a; b]) DEFAULT_DIR_MODE []) as (fs' & Hrun & Hres);
      auto.
    { intros k0 _ la lt. discriminate. }
    { now apply apart_app_r. }
    { intros x Hx E. apply (f_equal (@List.length _)) in E.
      rewrite length_app in E. destruct x; [congruence | cbn in E; lia]. }
    assert (Hfirst :
      restore_all (mk_rstate fs 0 [])
                  (rentries [a; b] [a; b] (STORE ++ [a; b]) (Dir tm ces))
      = restore_all (mk_rstate fsp 0 [])
                    (rentries [a; b] [a; b] (STORE ++ [a; b]) (Dir tm ces))).
    { unfold ces. cbn [rentries map app fst snd restore_all fold_left].
      f_equal.
      apply (restore_entry_makes_root fs a b am aes fsp (STORE ++ [a; b])
               tm ces k (captured c) 0 [] Ha Hb Hset HB HBp).
      unfold ces. cbn [map assoc fst snd]. now rewrite String.eqb_refl. }
    rewrite Hfirst, Hrun. cbn [r_fs r_out r_errors app].
    pose proof (get_set_at_same _ _ _ _ Hres) as HR'.
    split; [reflexivity |].
    split; [unfold summary; cbn [Nat.ltb Nat.leb]; eauto |].
    split; [| split].
    + intros _ rel. change (a :: b :: rel) with ([a; b] ++ rel).
      rewrite (get_app fs0), HP, (get_app fs'), HR'.
      fold (restored (Dir tm ces)).
      change (Dir DEFAULT_DIR_MODE (merged [] ces))
        with (restored (captured (Dir tm ((k, c) :: tes')))).
      rewrite (get_restored _ _ (wfb_captured _ Hwf)), get_captured.
      destruct (get (Dir tm ((k, c) :: tes')) rel) as [x |] eqn:Ex;
        [| reflexivity].
      cbn [option_map]. eexists. split; [reflexivity |].
      apply content_restored_captured. exact (wfb_get _ _ _ Hwf Ex).
    + discriminate.
    + intros q Hq.
      rewrite (get_set_at_apart _ _ _ _ _ Hres Hq).
      apply Hframe. now apply apart_sym.
Qed.

End Deleted.

Lemma reset_recreates_a_deleted_folder_witness :
  store_usable Scenario.home Scenario.fs_initial = true
  /\ get Mishaps.fs_root_deleted ["data"; "proj"] = None
  /\ (exists c',
        get (fs_of (reset Scenario.home Mishaps.fs_root_deleted []))
            ["data"; "proj"; "a.txt"] = Some c'
        /\ content c' = content (File "hi" 420 1)).
Proof.
  split; [reflexivity | split; [reflexivity |]].
  assert (Hap : apart ["data"; "proj"] Scenario.store) by (split; reflexivity).
  destruct (reset_recreates_a_deleted_folder Scenario.home Scenario.fs_initial
              "data" "proj" 493%Z
              [("a.txt", File "hi" 420 1); ("link", Link false ["a.txt"])]
              Mishaps.fs_root_deleted 493%Z [] eq_refl eq_refl eq_refl Hap
              eq_refl eq_refl eq_refl) as (_ & _ & H3 & _).
  exact (H3 ltac:(discriminate) ["a.txt"]).
Defined.

(* ================================================================== *)
(** ** A dangling link at an original path *)

(** What a resolution without [last_may_miss] gives is there. *)
Lemma walk_found fuel fs : forall rest cur q,
  walk fuel fs false cur rest = Some q ->
  get fs cur <> None -> get fs q <> None.
Proof.
  induction fuel as [| fuel IHf]; [discriminate |].
  induction rest as [| c rest' IHr]; intros cur q; rewrite walk_eq.
  - now intros [= <-].
  - destruct (get fs (cur ++ [c])) as [[d m t | a t | m es] |] eqn:E.
    + destruct rest'; [| discriminate]. intros [= <-] _. congruence.
    + intros H Hcur. apply (IHf _ _ _ H). destruct a; [discriminate | exact Hcur].
    + intros H _. apply (IHr _ _ H). congruence.
    + destruct rest'; discriminate.
Qed.

(** When only the resolution with [last_may_miss] succeeds, it names a
    place where nothing is. *)
Lemma walk_miss fuel fs : forall rest cur q,
  walk fuel fs true cur rest = Some q ->
  walk fuel fs false cur rest = None ->
  get fs q = None.
Proof.
  induction fuel as [| fuel IHf]; [discriminate |].
  induction rest as [| c rest' IHr]; intros cur q;
    rewrite (walk_eq fuel fs true), (walk_eq fuel fs false).
  - discriminate.
  - destruct (get fs (cur ++ [c])) as [[d m t | a t | m es] |] eqn:E.
    + destruct rest'; discriminate.
    + apply IHf.
    + apply IHr.
    + destruct rest'; [| discriminate].
      destruct (is_Dir _); [| discriminate]. now intros [= <-].
Qed.

Section Dangling.

Variables (fs : node) (P : path) (m : Z) (L : list (name * node)).
Variables (k : name) (a : bool) (t : path).
Hypothesis HP : get fs P = Some (Dir m L).
Hypothesis Hk : assoc k L = Some (Link a t).
Hypothesis Hdang : exists_ fs (P ++ [k]) = false.

Lemma dangling_unresolved : realpath fs (P ++ [k]) = None.
Proof.
  unfold exists_, stat in Hdang.
  destruct (realpath fs (P ++ [k])) as [q |] eqn:E; [| reflexivity].
  unfold realpath in E.
  assert (H0 : get fs [] <> None) by (destruct fs; discriminate).
  pose proof (walk_found _ _ _ _ _ E H0) as Hq.
  destruct (get fs q); [discriminate | congruence].
Qed.

Lemma copy2_through_dangling bp fs3 :
  copy2 fs bp (P ++ [k]) = Some fs3 ->
  get fs3 (P ++ [k]) = Some (Link a t).
Proof.
  assert (Ho : get fs (P ++ [k]) = Some (Link a t))
    by now rewrite get_snoc, HP.
  unfold copy2. destruct (stat fs bp) as [[d fm ft | |] |]; try discriminate.
  assert (Hnd : is_dir fs (P ++ [k]) = false).
  { unfold is_dir. unfold exists_ in Hdang.
    now destruct (stat fs (P ++ [k])). }
  rewrite Hnd.
  destruct (walk (S MAXSYMLINKS) fs true [] (P ++ [k])) as [q |] eqn:Ew;
    [| discriminate].
  pose proof dangling_unresolved as Hun. unfold realpath in Hun.
  pose proof (walk_miss _ _ _ _ _ Ew Hun) as Hq.
  destruct (match realpath fs bp with
            | Some s => if path_eq_dec s q then true else false
            | None => false
            end); [discriminate |].
  rewrite Hq. intros Hset. rewrite <- Ho.
  apply (get_set_at_apart _ _ _ _ _ Hset). split.
  - destruct (is_prefix q (P ++ [k])) eqn:E; [| reflexivity].
    apply is_prefix_spec in E as [r E]. destruct r as [| x r].
    + rewrite app_nil_r in E. congruence.
    + rewrite E in Ho.
      destruct (get_prefix_dir fs q (x :: r) _ Ho) as (m' & es' & H');
        [discriminate | congruence].
  - destruct (is_prefix (P ++ [k]) q) eqn:E; [| reflexivity].
    apply is_prefix_spec in E as [r E]. destruct r as [| x r].
    + rewrite app_nil_r in E. congruence.
    + destruct (get_set_at_above _ _ _ _ (P ++ [k]) (x :: r) Hset E)
        as (m' & es' & _ & H' & _); [discriminate | congruence].
Qed.

(** X17: a dangling symbolic link standing at an original path is never
    removed or replaced by its turn of the restore loop ([exists()] follows
    the link, so lines 159-168 leave it): the link is still there after
    the turn; when the backup is a symbolic link, or is not a regular file
    (a directory), the turn fails: one error is counted, [Could not
    restore] is printed and the filesystem is left as it is.  (When the
    backup is a regular file, [copy2] writes through the link or fails.) *)
Theorem dangling_link_is_never_replaced errs out e :
  e_original e = P ++ [k] ->
  e_original e <> e_root e ->
  let s' := restore_entry (mk_rstate fs errs out) e in
  let failed := mk_rstate fs (S errs)
                          (out ++ [Could_not_restore (P ++ [k])]) in
  get (r_fs s') (P ++ [k]) = Some (Link a t)
  /\ (is_symlink fs (e_backup e) = true -> s' = failed)
  /\ (is_file fs (e_backup e) = false -> s' = failed).
Proof.
  intros Ho Hroot. cbv zeta.
  assert (Hlink : get fs (P ++ [k]) = Some (Link a t))
    by now rewrite get_snoc, HP.
  assert (Hnd : is_dir fs (P ++ [k]) = false).
  { unfold is_dir. unfold exists_ in Hdang.
    now destruct (stat fs (P ++ [k])). }
  assert (Hmk : mkdir_parents fs (P ++ [k]) = None).
  { unfold mkdir_parents. rewrite (mkdir_from_dirs fs [] P [k] _ _ HP).
    cbn [app mkdir_from]. rewrite Hnd, (lstat_child _ _ _ _ HP), Hk.
    reflexivity. }
  assert (Hsym : forall la lt, os_symlink fs la lt (P ++ [k]) = None).
  { intros la lt. unfold os_symlink.
    rewrite (canon_child _ _ _ _ HP), Hlink.
    now destruct (P ++ [k]). }
  unfold restore_entry. cbn [r_fs r_errors r_out]. rewrite Ho.
  destruct (path_eq_dec (P ++ [k]) (e_root e)) as [E | _];
    [rewrite Ho in Hroot; contradiction |].
  unfold prepare. rewrite Hdang, removelast_snoc.
  rewrite (mkdir_parents_dir _ _ _ _ HP), Hmk.
  destruct (is_symlink fs (e_backup e)) eqn:Es.
  - rewrite orb_true_r. unfold readlink. unfold is_symlink in Es.
    destruct (lstat fs (e_backup e)) as [[| la lt |] |]; try discriminate.
    rewrite Hsym. cbn [r_fs]. repeat split; auto.
  - rewrite orb_false_r. destruct (is_file fs (e_backup e)) eqn:Ef.
    + destruct (copy2 fs (e_backup e) (P ++ [k])) as [fs3 |] eqn:Ec;
        cbn [r_fs].
      * split; [exact (copy2_through_dangling _ _ Ec) |].
        split; discriminate.
      * split; [exact Hlink | split; discriminate].
    + cbn [r_fs]. repeat split; auto.
Qed.

End Dangling.

Lemma dangling_link_is_never_replaced_witness :
  exists_ Mishaps.fs_link_dangling ["data"; "proj"; "link"] = false
  /\ restore_entry (mk_rstate Mishaps.fs_link_dangling 0 [])
        (mk_entry ["data"; "proj"] ["data"; "proj"; "link"]
                  (Scenario.store ++ ["data"; "proj"; "link"]))
     = mk_rstate Mishaps.fs_link_dangling 1
                 [Could_not_restore ["data"; "proj"; "link"]].
Proof.
  split; [reflexivity |].
  refine (proj1 (proj2 (dangling_link_is_never_replaced
            Mishaps.fs_link_dangling ["data"; "proj"] 493%Z
            [("a.txt", File "hi" 420 1); ("link", Link false ["gone"])]
            "link" false ["gone"] eq_refl eq_refl eq_refl 0 []
            (mk_entry ["data"; "proj"] ["data"; "proj"; "link"]
                      (Scenario.store ++ ["data"; "proj"; "link"]))
            eq_refl _)) eq_refl).
  discriminate.
Defined.

(* ================================================================== *)
(** ** PathMapper: places in the store *)

Module PathMapperPlaces.
Import PathMapper PathMapperFacts.

Lemma plain_not_bad d :
  plain_segment d = true -> string_exists bad_in_segment d = false.
Proof.
  unfold plain_segment. intros H. apply andb_true_iff in H as [_ H].
  now apply negb_true_iff in H.
Qed.

Lemma toBackupPath_mapped pl store p :
  mapped_anchor pl (anchor p) ->
  toBackupPath pl store p
  = Some (mk_ppath (anchor store)
                   (parts store ++ anchor_parts pl (anchor p) ++ parts p)).
Proof.
  destruct p as [a ps]. cbn [anchor parts]. intros H.
  inversion H as [Hpl Ha | d Hd Hpl Ha]; subst.
  - reflexivity.
  - unfold toBackupPath, anchor_parts. cbn [anchor parts].
    unfold anchor_segment. rewrite (rstrip_drive d (plain_not_bad d Hd)).
    rewrite (join_plain store d Hd). unfold join_parts. cbn [anchor parts].
    destruct d as [| c r]; [discriminate |].
    now rewrite <- app_assoc.
Qed.

(** X12: the place lines 74-85 give a folder with a mapped anchor (the
    root of a single-root platform, a drive [X:\] of a drive-letter
    platform) lies inside the store, strictly when the folder is not the
    anchor itself, and two different folders never get the same place. *)
Theorem backup_place_is_inside_the_store_and_its_own pl store p :
  mapped_anchor pl (anchor p) ->
  exists rel,
    toBackupPath pl store p = Some (mk_ppath (anchor store) (parts store ++ rel))
    /\ relative_to store (mk_ppath (anchor store) (parts store ++ rel)) = Some rel
    /\ (parts p <> [] -> rel <> [])
    /\ forall p',
         mapped_anchor pl (anchor p') ->
         toBackupPath pl store p' = toBackupPath pl store p -> p' = p.
Proof.
  intros H. exists (anchor_parts pl (anchor p) ++ parts p).
  split; [now apply toBackupPath_mapped | split; [| split]].
  - unfold relative_to. cbn [anchor parts].
    now rewrite String.eqb_refl, strip_prefix_app.
  - intros Hp E. apply app_eq_nil in E as [_ E]. contradiction.
  - intros p' H' E.
    rewrite (toBackupPath_mapped _ _ _ H), (toBackupPath_mapped _ _ _ H') in E.
    injection E as E. apply app_inv_head in E.
    destruct p as [a ps], p' as [a' ps']. cbn [anchor parts] in *.
    inversion H as [Hpl Ha | d Hd Hpl Ha]; subst;
      inversion H' as [Hpl' Ha' | d' Hd' Hpl' Ha']; subst.
    + cbn in E. now subst.
    + unfold anchor_parts, anchor_segment in E.
      rewrite (rstrip_drive d (plain_not_bad d Hd)) in E.
      rewrite (rstrip_drive d' (plain_not_bad d' Hd')) in E.
      destruct d as [| c r]; [discriminate |].
      destruct d' as [| c' r']; [discriminate |].
      cbn [app] in E. injection E as -> -> ->. reflexivity.
Qed.

Lemma backup_place_is_inside_the_store_and_its_own_witness :
  mapped_anchor Windows (anchor (mk_ppath (drive_anchor "D") ["work"; "proj"]))
  /\ toBackupPath Windows store_C (mk_ppath (drive_anchor "D") ["work"; "proj"])
     = Some (mk_ppath (drive_anchor "C")
               ["Users"; "u"; ".foam_backup"; "D"; "work"; "proj"])
  /\ forall p',
       mapped_anchor Windows (anchor p') ->
       toBackupPath Windows store_C p'
       = toBackupPath Windows store_C
           (mk_ppath (drive_anchor "D") ["work"; "proj"]) ->
       p' = mk_ppath (drive_anchor "D") ["work"; "proj"].
Proof.
  assert (H : mapped_anchor Windows
                (anchor (mk_ppath (drive_anchor "D") ["work"; "proj"])))
    by (apply windows_drive; reflexivity).
  split; [exact H | split; [reflexivity |]].
  destruct (backup_place_is_inside_the_store_and_its_own Windows store_C
              (mk_ppath (drive_anchor "D") ["work"; "proj"]) H)
    as (rel & _ & _ & _ & H4).
  exact H4.
Defined.

End PathMapperPlaces.

(* ================================================================== *)
(** ** The command line *)

Lemma track_folder_line home fs f fs' m :
  track_folder home fs f = Some (fs', m) -> is_refusal m = false.
Proof.
  unfold track_folder.
  destruct (exists_ fs (resolve fs f) && is_dir fs (resolve fs f));
    [| now intros [= _ <-]].
  destruct (PathMapper.toBackupPath _ _ _); [| now intros [= _ <-]].
  destruct (mkdir_parents fs _); [| discriminate].
  destruct (copytree _ _ _ _); now intros [= _ <-].
Qed.

Lemma track_loop_lines home folders : forall fs out,
  existsb is_refusal out = false ->
  existsb is_refusal (printed (track_loop home fs folders out)) = false.
Proof.
  induction folders as [| f r IH]; intros fs out Hout; cbn [track_loop].
  - cbn [printed]. rewrite existsb_app, Hout. reflexivity.
  - destruct (track_folder home fs f) as [[fs' m] |] eqn:E; [| exact Hout].
    apply IH. rewrite existsb_app, Hout. cbn [existsb].
    now rewrite (track_folder_line _ _ _ _ _ E).
Qed.

Lemma error_lines_no_refusal l lines :
  Forall (error_line_of l) lines -> existsb is_refusal lines = false.
Proof.
  induction 1 as [| m r (e & _ & _ & [-> | ->]) _ IH]; cbn [existsb];
    [reflexivity | exact IH | exact IH].
Qed.

Lemma list_tracked_folders_fs home fs :
  fs_of (list_tracked_folders home fs) = fs.
Proof.
  unfold list_tracked_folders.
  destruct (negb (exists_ fs (BACKUP_DIR home))); [reflexivity |].
  destruct (negb (is_dir fs (BACKUP_DIR home))); reflexivity.
Qed.

(** X13: [main] (lines 236-246), for every namespace [argparse] can give
    and every filesystem: the refusal of line 117 is never printed ([reset]
    is only ever called without argument); and the filesystem can only
    change under [reset], [track --undo] or [track] with at least one
    folder: [--list] wins over folders given with it, and [track] without
    folder or flag prints the help and so never drops a snapshot. *)
Theorem command_line_reach home args fs :
  (forall o, main home args fs = Ran o ->
             existsb is_refusal (printed o) = false)
  /\ (fs_after (main home args fs) fs <> fs ->
      args = Args_reset
      \/ exists folders,
           args = Args_track false true folders
           \/ (args = Args_track false false folders /\ folders <> [])).
Proof.
  split.
  - intros o H. destruct args as [lf uf folders |]; cbn [main] in H.
    + destruct lf.
      * injection H as <-. unfold list_tracked_folders.
        destruct (negb (exists_ fs (BACKUP_DIR home))); [reflexivity |].
        destruct (negb (is_dir fs (BACKUP_DIR home))); reflexivity.
      * destruct uf.
        -- injection H as <-. unfold undo_tracking.
           destruct (negb (exists_ fs (BACKUP_DIR home))); [reflexivity |].
           destruct (rmtree_remove_readonly fs (BACKUP_DIR home)) as [fs' w].
           now destruct w.
        -- destruct folders as [| f r]; [discriminate |].
           injection H as <-. unfold track.
           destruct (exists_ fs (BACKUP_DIR home)).
           ++ destruct (rmtree_remove_readonly fs (BACKUP_DIR home)) as [fs' w].
              destruct (ensure_backup_dir home fs') as [fs1 |];
                [| now destruct w].
              apply track_loop_lines. now destruct w.
           ++ destruct (ensure_backup_dir home fs) as [fs1 |]; [| reflexivity].
              now apply track_loop_lines.
    + injection H as <-. unfold reset.
      destruct (negb (exists_ fs (BACKUP_DIR home))); [reflexivity |].
      destruct (is_dir fs (BACKUP_DIR home)) eqn:Ed; [| reflexivity].
      cbn [negb].
      destruct (scan home fs) as [entries st] eqn:Es. cbn [printed].
      destruct (restore_all_errors entries (mk_rstate fs 0 []))
        as (lines & Hout & _ & _ & Hall).
      cbn [r_out app] in Hout. rewrite Hout, existsb_app.
      rewrite (error_lines_no_refusal _ _ Hall). unfold summary.
      cbn [existsb is_refusal orb].
      now destruct (Nat.ltb 0 _).
  - intros H. destruct args as [lf uf folders |]; [| now left]. right.
    exists folders. cbn [main] in H. destruct lf.
    + cbn [fs_after] in H. now rewrite list_tracked_folders_fs in H.
    + destruct uf; [now left |]. right. split; [reflexivity |].
      destruct folders; [cbn [fs_after] in H; congruence | discriminate].
Qed.

Lemma command_line_reach_witness :
  main Scenario.home Args_reset Scenario.fs_mutated
    = Ran (reset Scenario.home Scenario.fs_mutated [])
  /\ existsb is_refusal (printed (reset Scenario.home Scenario.fs_mutated []))
     = false.
Proof.
  split; [reflexivity |].
  exact (proj1 (command_line_reach Scenario.home Args_reset
                  Scenario.fs_mutated) _ eq_refl).
Defined.
